(** * A shallow embedding of the algorand-builder TEAL runtime

    The development follows the TypeScript sources:
    - [packages/algorand-js/src/runtime/account.ts] (class [Op]: the
      stack and range assertions shared by every opcode, [subString]);
    - [packages/runtime/src/interpreter/opcode-list.ts] (the opcodes
      [Itob], [Btoi], [Addw], [Mulw], [Substring], [Substring3], [Return],
      [AppLocalGetEx], [AppGlobalGetEx], and the class [Runtime] with
      [executeTx] and [updateFinalState]);
    - [packages/runtime/src/index.ts] (class [Ctx]: the transaction
      context with [transferAlgo], [deductFee], [closeApp] and
      [processTransactions]).

    Conventions.  A JavaScript [bigint] is a [Z]; a [Uint8Array] is a
    [list byte]; a JavaScript [number] holding an amount of micro-algos or
    an identifier is a [Z] (exact on the safe integers, which is where the
    runtime uses them); [Number(b)] of a [bigint] is [toNumber], with its
    rounding to 53 bits written out.  A method that mutates [this] and may
    throw is a function in the monad [M S], whose state survives the
    exception, as the mutated object does in JavaScript. *)

From Stdlib Require Import ZArith List Lia Bool.
From Stdlib Require Import Strings.Byte.
From stdpp Require Import base option list gmap strings fin_maps.

Local Open Scope Z_scope.

(** ** Errors *)

(** The kinds of [RUNTIME_ERRORS] / [ERRORS.TEAL] that the embedded code
    throws.  The table itself ([errors-list.ts]) is not part of the
    sources at hand; only the names are used here. *)
Inductive ErrorKind : Set :=
  | ASSERT_STACK_LENGTH
  | INVALID_TYPE
  | UINT64_OVERFLOW
  | UINT64_UNDERFLOW
  | INDEX_OUT_OF_BOUND
  | ASSERT_ARR_LENGTH
  | INVALID_UINT8
  | SUBSTRING_END_BEFORE_START
  | SUBSTRING_RANGE_BEYOND
  | ACCOUNT_DOES_NOT_EXIST
  | APP_NOT_FOUND
  | ASSET_NOT_FOUND
  | ASA_NOT_OPTIN
  | ACCOUNT_ASSET_FROZEN
  | MANAGER_ERROR
  | FREEZE_ERROR
  | CLAWBACK_ERROR
  | INSUFFICIENT_ACCOUNT_BALANCE
  | INSUFFICIENT_ACCOUNT_ASSETS
  | INVALID_TRANSACTION_PARAMS
  | REJECTED_BY_LOGIC
  | LOGIC_SIGNATURE_NOT_FOUND
  | LOGIC_SIGNATURE_VALIDATION_FAILED
  | OTHER_KIND (name : string).

(** A thrown value: [new RuntimeError(..)] (packages/runtime),
    [new TealError(..)] (the older classes) or a plain JavaScript [Error]
    / [TypeError]. *)
Inductive Error : Set :=
  | RuntimeError (k : ErrorKind)
  | TealError (k : ErrorKind)
  | JsError (msg : string).

Inductive Result (A : Type) : Type :=
  | Ok (a : A)
  | Err (e : Error).
Arguments Ok {A} a.
Arguments Err {A} e.

(** ** The monad of mutating, throwing methods *)

Definition M (S A : Type) : Type := S -> Result A * S.

Definition ret {S A} (a : A) : M S A := fun s => (Ok a, s).

Definition bind {S A B} (c : M S A) (k : A -> M S B) : M S B :=
  fun s => match c s with
           | (Ok a, s') => k a s'
           | (Err e, s') => (Err e, s')
           end.

Definition throw {S A} (e : Error) : M S A := fun s => (Err e, s).
Definition get {S} : M S S := fun s => (Ok s, s).
Definition gets {S A} (f : S -> A) : M S A := fun s => (Ok (f s), s).
Definition put {S} (s : S) : M S unit := fun _ => (Ok tt, s).
Definition modify {S} (f : S -> S) : M S unit := fun s => (Ok tt, f s).

(** A pure, fallible computation used inside a method. *)
Definition lift {S A} (r : Result A) : M S A := fun s => (r, s).

(** [try { c } catch (error) { h error }] *)
Definition try_catch {S A} (c : M S A) (h : Error -> M S A) : M S A :=
  fun s => match c s with
           | (Ok a, s') => (Ok a, s')
           | (Err e, s') => h e s'
           end.

Declare Scope m_scope.
Delimit Scope m_scope with M.
Notation "x <- c ;; k" := (bind c (fun x => k))
  (at level 100, c at next level, right associativity) : m_scope.
Notation "c ;;; k" := (bind c (fun _ => k))
  (at level 100, right associativity) : m_scope.
Local Open Scope m_scope.

(** [arr.forEach((x, idx) => f x idx)] with the loop-carried local
    variables of the callback passed as [acc]. *)
Fixpoint forEach_from {S A B} (f : A -> nat -> B -> M S B)
    (idx : nat) (arr : list A) (acc : B) : M S B :=
  match arr with
  | [] => ret acc
  | x :: rest => acc' <- f x idx acc ;; forEach_from f (Datatypes.S idx) rest acc'
  end.

Definition forEach {S A B} (f : A -> nat -> B -> M S B) (arr : list A) (acc : B)
  : M S B := forEach_from f 0%nat arr acc.

(** ** Values *)

(** [type StackElem = bigint | Uint8Array] *)
Inductive StackElem : Set :=
  | Uint64 (n : Z)
  | Bytes (b : list byte).

(** Modelled from the spec: [lib/constants.ts] is not among the sources;
    the spec fixes [MAX_UINT64 = 2^64 - 1], and the opcode tests use
    [MIN_UINT8]/[MAX_UINT8] as the bounds of a byte. *)
Definition MAX_UINT64 : Z := 2 ^ 64 - 1.
Definition MIN_UINT64 : Z := 0.
Definition MAX_UINT8 : Z := 255.
Definition MIN_UINT8 : Z := 0.

Definition is_u64 (n : Z) : Prop := 0 <= n <= MAX_UINT64.

(** [Number(b)] for a non-negative [bigint]: the nearest double, ties to
    even.  Integers below [2^53] are exact. *)
Definition toNumber (b : Z) : Z :=
  let e := Z.log2 b in
  if e <? 53 then b
  else
    let sh := e - 52 in
    let q := Z.shiftr b sh in
    let r := Z.land b (2 ^ sh - 1) in
    let half := 2 ^ (sh - 1) in
    let q' := if (half <? r) || ((r =? half) && Z.odd q) then q + 1 else q in
    Z.shiftl q' sh.

(** ** Numbers *)

(** Balances, fees and amounts of assets are JS [number]s.  A [number]
    that holds an integer is modelled by that integer, and [+] and [-]
    on such numbers yield the double nearest to the exact result, ties
    to even: the exact result while it is a safe integer, a rounded one
    beyond [2^53].  (Doubles are finite below [2^1024]; the model does
    not go further.) *)
Definition Number_of (z : Z) : Z :=
  if z <? 0 then - toNumber (- z) else toNumber z.

Definition num_add (a b : Z) : Z := Number_of (a + b).
Definition num_sub (a b : Z) : Z := Number_of (a - b).

(** [Number.isSafeInteger] *)
Definition safe_integer (z : Z) : Prop := - 2 ^ 53 < z < 2 ^ 53.

(** ** The evaluation stack *)

(** Modelled from the spec: [lib/stack.ts] is not among the sources.  The
    spec bounds the depth of the stack and makes a pop on the empty stack
    fatal; [Dig] builds a stack with [new Stack(depth + 1)], so the bound
    belongs to the instance, and the tests build unbounded stacks with
    [new Stack()].  The head of [items] is the top of the stack. *)
Record Stack : Set := mkStack {
  capacity : option nat;
  items : list StackElem
}.

Module StackM.
Definition length (s : Stack) : nat := List.length (items s).

Definition push (x : StackElem) : M Stack unit := fun s =>
  match capacity s with
  | Some c =>
      if (List.length (items s) =? c)%nat
      then (Err (JsError "Stack has reached max capacity"), s)
      else (Ok tt, mkStack (capacity s) (x :: items s))
  | None => (Ok tt, mkStack (capacity s) (x :: items s))
  end.

Definition pop : M Stack StackElem := fun s =>
  match items s with
  | [] => (Err (JsError "pop from empty stack"), s)
  | x :: rest => (Ok x, mkStack (capacity s) rest)
  end.
End StackM.

(** The depth bound holds of every stack the interpreter builds. *)
Definition stack_wf (s : Stack) : Prop :=
  match capacity s with
  | Some c => (List.length (items s) <= c)%nat
  | None => True
  end.

(** A stack of bound [cap] with items [l] accepts one more item. *)
Definition has_room (cap : option nat) (l : list StackElem) : Prop :=
  match cap with
  | Some c => (List.length l < c)%nat
  | None => True
  end.

(** ** Class [Op] (account.ts, lines 156-236) *)

Module Op.
Definition assertMinStackLen (minLen : nat) : M Stack unit := fun s =>
  if (StackM.length s <? minLen)%nat
  then (Err (TealError ASSERT_STACK_LENGTH), s)
  else (Ok tt, s).

Definition checkOverflow {S} (num : Z) : M S unit :=
  if num >? MAX_UINT64 then throw (TealError UINT64_OVERFLOW) else ret tt.

Definition checkUnderflow {S} (num : Z) : M S unit :=
  if num <? MIN_UINT64 then throw (TealError UINT64_UNDERFLOW) else ret tt.

(** The callers pass arrays of the encoded transaction that may be
    [undefined] (cast with [as number[]]); reading [arr.length] then
    throws a [TypeError]. *)
Definition checkIndexBound {S A} (idx : Z) (arr : option (list A)) : M S unit :=
  match arr with
  | None => throw (JsError "TypeError: cannot read properties of undefined")
  | Some arr =>
      if negb ((idx >=? 0) && (idx <? Z.of_nat (List.length arr)))
      then throw (TealError INDEX_OUT_OF_BOUND) else ret tt
  end.

Definition assertBigInt {S} (a : StackElem) : M S Z :=
  match a with
  | Uint64 n => ret n
  | Bytes _ => throw (TealError INVALID_TYPE)
  end.

Definition assertBytes {S} (b : StackElem) : M S (list byte) :=
  match b with
  | Bytes x => ret x
  | Uint64 _ => throw (TealError INVALID_TYPE)
  end.

Definition assertUint8 {S} (a : Z) : M S Z :=
  if (a <? MIN_UINT8) || (a >? MAX_UINT8)
  then throw (TealError INVALID_UINT8) else ret a.

(** [Uint8Array.prototype.slice(start, end)] for non-negative bounds. *)
Definition slice (start end_ : Z) (b : list byte) : list byte :=
  firstn (Z.to_nat end_ - Z.to_nat start) (skipn (Z.to_nat start) b).

Definition subString {S} (start end_ : Z) (byteString : list byte)
  : M S (list byte) :=
  if end_ <? start then throw (TealError SUBSTRING_END_BEFORE_START)
  else if (start >? Z.of_nat (List.length byteString))
          || (end_ >? Z.of_nat (List.length byteString))
  then throw (TealError SUBSTRING_RANGE_BEYOND)
  else ret (slice (toNumber start) (toNumber end_) byteString).
End Op.

(** ** Big-endian integers *)

Definition byte_to_Z (b : byte) : Z := Z.of_N (Byte.to_N b).

Definition Z_to_byte (z : Z) : byte :=
  match Byte.of_N (Z.to_N (z mod 256)) with
  | Some b => b
  | None => x00
  end.

(** The [n] low-order bytes of [x], most significant first. *)
Fixpoint be_bytes (n : nat) (x : Z) : list byte :=
  match n with
  | O => []
  | Datatypes.S k => be_bytes k (x / 256) ++ [Z_to_byte x]
  end.

(** The integer a byte string denotes, most significant byte first. *)
Definition be_value (l : list byte) : Z :=
  fold_left (fun acc b => acc * 256 + byte_to_Z b) l 0.

(** Modelled from the spec: [encodeUint64] and [decodeUint64] belong to
    the algosdk dependency, which is not among the sources.  The spec has
    [itob] turn a u64 into 8 big-endian bytes and [btoi] read at most 8
    big-endian bytes; algosdk refuses a number outside the u64 range, and
    an input that is empty or longer than 8 bytes, with a plain [Error],
    and left-pads a shorter input with zero bytes. *)
Definition encodeUint64 {S} (num : Z) : M S (list byte) :=
  if (num <? 0) || (num >? MAX_UINT64)
  then throw (JsError "Input is not a 64-bit unsigned integer")
  else ret (be_bytes 8 num).

Definition decodeUint64 {S} (data : list byte) : M S Z :=
  if (List.length data =? 0)%nat || (8 <? List.length data)%nat
  then throw (JsError "Data has unacceptable length")
  else ret (be_value (repeat x00 (8 - List.length data) ++ data)).

(** ** Opcodes (opcode-list.ts) *)

(** Each class keeps its [execute (stack: TEALStack): void]; the line
    number an opcode carries only decorates the error message. *)

Module Itob.
Definition execute : M Stack unit :=
  Op.assertMinStackLen 1 ;;;
  top <- StackM.pop ;;
  uint64 <- Op.assertBigInt top ;;
  bytes <- encodeUint64 uint64 ;;
  StackM.push (Bytes bytes).
End Itob.

Module Btoi.
Definition execute : M Stack unit :=
  Op.assertMinStackLen 1 ;;;
  top <- StackM.pop ;;
  bytes <- Op.assertBytes top ;;
  uint64 <- decodeUint64 bytes ;;
  StackM.push (Uint64 uint64).
End Btoi.

Module Addw.
Definition execute : M Stack unit :=
  Op.assertMinStackLen 2 ;;;
  a <- StackM.pop ;;
  valueA <- Op.assertBigInt a ;;
  b <- StackM.pop ;;
  valueB <- Op.assertBigInt b ;;
  let valueC := valueA + valueB in
  if valueC >? MAX_UINT64 then
    let valueC := valueC - MAX_UINT64 in
    StackM.push (Uint64 1) ;;;
    StackM.push (Uint64 (valueC - 1))
  else
    StackM.push (Uint64 0) ;;;
    StackM.push (Uint64 valueC).
End Addw.

Module Mulw.
Definition execute : M Stack unit :=
  Op.assertMinStackLen 2 ;;;
  a <- StackM.pop ;;
  valueA <- Op.assertBigInt a ;;
  b <- StackM.pop ;;
  valueB <- Op.assertBigInt b ;;
  let result := valueA * valueB in
  let low := Z.land result MAX_UINT64 in
  Op.checkOverflow low ;;;
  let high := Z.shiftr result 64 in
  Op.checkOverflow high ;;;
  StackM.push (Uint64 high) ;;;
  StackM.push (Uint64 low).
End Mulw.

Module Substring.
(** [start] and [end_] are the immediates stored by the constructor. *)
Definition execute (start_ end_ : Z) : M Stack unit :=
  top <- StackM.pop ;;
  byteString <- Op.assertBytes top ;;
  start <- Op.assertUint8 start_ ;;
  end' <- Op.assertUint8 end_ ;;
  subString <- Op.subString start end' byteString ;;
  StackM.push (Bytes subString).
End Substring.

Module Substring3.
Definition execute : M Stack unit :=
  top <- StackM.pop ;;
  byteString <- Op.assertBytes top ;;
  e <- StackM.pop ;;
  end_ <- Op.assertBigInt e ;;
  s <- StackM.pop ;;
  start <- Op.assertBigInt s ;;
  subString <- Op.subString start end_ byteString ;;
  StackM.push (Bytes subString).
End Substring3.

(** The part of the interpreter that [Return] touches: the number of
    instructions, the instruction index and the stack. *)
Record Interpreter : Set := mkInterpreter {
  instructions_length : nat;
  instructionIndex : nat;
  stack : Stack
}.

(** Runs a stack operation on the interpreter's stack. *)
Definition on_stack {A} (c : M Stack A) : M Interpreter A := fun i =>
  let (r, s') := c (stack i) in
  (r, mkInterpreter (instructions_length i) (instructionIndex i) s').

Module Return.
(** [while (stack.length()) { stack.pop(); }] *)
Fixpoint pop_while_nonempty (fuel : nat) : M Stack unit :=
  match fuel with
  | O => ret tt
  | Datatypes.S k => fun s =>
      if (StackM.length s =? 0)%nat then (Ok tt, s)
      else (StackM.pop ;;; pop_while_nonempty k) s
  end.

Definition execute : M Interpreter unit :=
  on_stack (Op.assertMinStackLen 1) ;;;
  last <- on_stack StackM.pop ;;
  on_stack (fun s => pop_while_nonempty (StackM.length s) s) ;;;
  on_stack (StackM.push last) ;;;
  modify (fun i => mkInterpreter (instructions_length i) (instructions_length i) (stack i)).
End Return.

(** Modelled from the spec: [Interpreter.execute] is not among the
    sources.  The spec's acceptance rule on successful termination: the
    stack must contain exactly one value, and that value must be a
    non-zero u64; otherwise the program is rejected (with
    [REJECTED_BY_LOGIC], as the runtime tests expect).  An integer
    outside the u64 range, such as the negative one that [~] leaves on
    the stack, is not a u64. *)
Definition acceptance : M Stack unit := fun s =>
  match items s with
  | [Uint64 n] =>
      if (n =? 0) || (n <? MIN_UINT64) || (n >? MAX_UINT64)
      then (Err (RuntimeError REJECTED_BY_LOGIC), s)
      else (Ok tt, s)
  | _ => (Err (RuntimeError REJECTED_BY_LOGIC), s)
  end.

(** ** World state *)

(** The data model of packages/runtime: [State] holds three [Map]s, an
    account holds its balance and [Map]s from asset and application
    identifiers, and an application's key-value state is a [Map] keyed by
    the key's bytes ([key.toString()]).  A [Map] is a [gmap]; the objects
    stored in a [Map] are identified by their key, so a mutation of an
    object reached through the map is an update of the map at that key. *)

#[global] Instance byte_eq_decision : EqDecision byte := Byte.byte_eq_dec.
#[global] Instance byte_countable : Countable byte :=
  inj_countable Byte.to_N Byte.of_N Byte.of_to_N.

Abbreviation AccountAddress := string.

Record AssetHolding : Set := mkAssetHolding {
  holding_amount : Z;
  is_frozen : bool
}.

Record SSCSchemaConfig : Set := mkSchema {
  num_byte_slice : Z;
  num_uint : Z
}.

Record AppLocalState : Type := mkAppLocalState {
  local_key_value : gmap (list byte) StackElem;
  local_schema : SSCSchemaConfig
}.

Record SSCAttributesM : Type := mkSSCAttributes {
  approval_program : string;
  clear_state_program : string;
  creator : AccountAddress;
  global_state : gmap (list byte) StackElem;
  global_state_schema : SSCSchemaConfig;
  local_state_schema : SSCSchemaConfig
}.

Record AssetDef : Set := mkAssetDef {
  asset_total : Z;
  asset_decimals : Z;
  default_frozen : bool;
  manager : AccountAddress;
  reserve : AccountAddress;
  freeze : AccountAddress;
  clawback : AccountAddress
}.

Record StoreAccount : Type := mkStoreAccount {
  address : AccountAddress;
  amount : Z;
  minBalance : Z;
  assets : gmap Z AssetHolding;
  appsLocalState : gmap Z AppLocalState;
  createdApps : gmap Z SSCAttributesM;
  createdAssets : gmap Z AssetDef
}.

Record State : Type := mkState {
  accounts : gmap string StoreAccount;
  globalApps : gmap Z string;
  assetDefs : gmap Z string
}.

(** The fields of an encoded transaction that the embedded code reads. *)
Record Txn : Set := mkTxn {
  snd : AccountAddress;
  fee : Z;
  apid : option Z;
  apat : option (list AccountAddress);
  apfa : option (list Z);
  txID : string
}.

(** [interface Context]: what the interpreter sees of the runtime. *)
Record Context : Type := mkContext {
  state : State;
  tx : Txn;
  gtxs : list Txn;
  args : list (list byte)
}.

Definition set_amount (v : Z) (a : StoreAccount) : StoreAccount :=
  mkStoreAccount (address a) v (minBalance a) (assets a) (appsLocalState a)
    (createdApps a) (createdAssets a).

Definition set_assets (v : gmap Z AssetHolding) (a : StoreAccount) : StoreAccount :=
  mkStoreAccount (address a) (amount a) (minBalance a) v (appsLocalState a)
    (createdApps a) (createdAssets a).

Definition set_appsLocalState (v : gmap Z AppLocalState) (a : StoreAccount)
  : StoreAccount :=
  mkStoreAccount (address a) (amount a) (minBalance a) (assets a) v
    (createdApps a) (createdAssets a).

Definition set_accounts (v : gmap string StoreAccount) (s : State) : State :=
  mkState v (globalApps s) (assetDefs s).

Definition set_globalApps (v : gmap Z string) (s : State) : State :=
  mkState (accounts s) v (assetDefs s).

Definition set_state (v : State) (c : Context) : Context :=
  mkContext v (tx c) (gtxs c) (args c).

Definition set_tx (v : Txn) (c : Context) : Context :=
  mkContext (state c) v (gtxs c) (args c).

(** The asserts of class [Runtime] (opcode-list.ts, lines 2655-2691).
    The class in the sources throws [TealError]; packages/runtime throws
    [RuntimeError] from the same asserts, so the error class is [mk]. *)
Module Asserts.
Definition assertAccountDefined {S} (mk : ErrorKind -> Error)
    (a : option StoreAccount) : M S StoreAccount :=
  match a with
  | None => throw (mk ACCOUNT_DOES_NOT_EXIST)
  | Some a => ret a
  end.

Definition assertAddressDefined {S} (mk : ErrorKind -> Error)
    (addr : option AccountAddress) : M S AccountAddress :=
  match addr with
  | None => throw (mk ACCOUNT_DOES_NOT_EXIST)
  | Some a => ret a
  end.

Definition assertAppDefined {S} (mk : ErrorKind -> Error)
    (app : option SSCAttributesM) : M S SSCAttributesM :=
  match app with
  | None => throw (mk APP_NOT_FOUND)
  | Some a => ret a
  end.

(** Modelled from the spec: [assertAssetDefined] belongs to the later
    [Runtime] class, which is not among the sources; an asset that is
    not defined is the error [ASSET_NOT_FOUND]. *)
Definition assertAssetDefined {S} (mk : ErrorKind -> Error)
    (def : option AssetDef) : M S AssetDef :=
  match def with
  | None => throw (mk ASSET_NOT_FOUND)
  | Some a => ret a
  end.
End Asserts.

(** Modelled from the spec: the class [StoreAccount] of packages/runtime
    is not among the sources.  Its getters read the account's [Map]s
    (spec, data model: app-id -> local state with a key-value map from
    bytes to values; app-id -> application attributes with the global
    key-value map; asset-id -> holding), and return [undefined] for a
    missing entry, as the older array-based [getLocalState] of
    algorand-js (account.ts, lines 60-71) does; [closeApp] removes the
    local-state slot that opt-in allocated. *)
Module StoreAccountM.
Definition getLocalState (a : StoreAccount) (appId : Z) (key : list byte)
  : option StackElem :=
  match appsLocalState a !! appId with
  | Some l => local_key_value l !! key
  | None => None
  end.

Definition getApp (a : StoreAccount) (appId : Z) : option SSCAttributesM :=
  createdApps a !! appId.

Definition getGlobalState {S} (mk : ErrorKind -> Error) (a : StoreAccount)
    (appId : Z) (key : list byte) : M S (option StackElem) :=
  app <- Asserts.assertAppDefined mk (getApp a appId) ;;
  ret (global_state app !! key).

Definition getAssetDef (a : StoreAccount) (assetId : Z) : option AssetDef :=
  createdAssets a !! assetId.

Definition getAssetHolding (a : StoreAccount) (assetId : Z)
  : option AssetHolding := assets a !! assetId.

Definition closeApp (appId : Z) : M StoreAccount unit :=
  modify (fun a => set_appsLocalState (delete appId (appsLocalState a)) a).
End StoreAccountM.

(** Modelled from the spec: the class [Interpreter] is not among the
    sources.  Its [getAccount] follows the account-indexing convention of
    the spec and the [getAccount] of the older runtime (runtime.ts, lines
    57-69): index 0 is the sender of the current transaction, index [i]
    is entry [i - 1] of [Accounts], and an index outside the array fails;
    its [getGlobalState] follows [Runtime.getGlobalState] (opcode-list.ts,
    lines 2731-2738), read on the context state.  Addresses are kept in
    their string form throughout. *)
Module InterpreterM.
Definition getAccount {S} (ctx : Context) (accountIndex : Z) : M S StoreAccount :=
  if accountIndex =? 0 then
    Asserts.assertAccountDefined RuntimeError
      (accounts (state ctx) !! snd (tx ctx))
  else
    let accIndex := accountIndex - 1 in
    Op.checkIndexBound (toNumber accIndex) (apat (tx ctx)) ;;;
    let pk := match apat (tx ctx) with
              | Some l => l !! Z.to_nat (toNumber accIndex)
              | None => None
              end in
    Asserts.assertAccountDefined RuntimeError
      (match pk with
       | Some a => accounts (state ctx) !! a
       | None => None
       end).

Definition getGlobalState {S} (ctx : Context) (appId : option Z)
    (key : list byte) : M S (option StackElem) :=
  match appId with
  | None => throw (RuntimeError APP_NOT_FOUND)
  | Some appId =>
      match globalApps (state ctx) !! appId with
      | None => throw (RuntimeError APP_NOT_FOUND)
      | Some accAddress =>
          account <- Asserts.assertAccountDefined RuntimeError
                       (accounts (state ctx) !! accAddress) ;;
          StoreAccountM.getGlobalState RuntimeError account appId key
      end
  end.
End InterpreterM.

(** The truth value of a stack element in [if (val)]: [0n] is falsy,
    every other [bigint] and every [Uint8Array] (the empty one too) is
    truthy. *)
Definition truthy (v : StackElem) : bool :=
  match v with
  | Uint64 n => negb (n =? 0)
  | Bytes _ => true
  end.

Module AppLocalGetEx.
Definition execute (ctx : Context) : M Stack unit :=
  Op.assertMinStackLen 3 ;;;
  k <- StackM.pop ;;
  key <- Op.assertBytes k ;;
  a <- StackM.pop ;;
  appID <- Op.assertBigInt a ;;
  i <- StackM.pop ;;
  accountIndex <- Op.assertBigInt i ;;
  account <- InterpreterM.getAccount ctx accountIndex ;;
  let val := StoreAccountM.getLocalState account (toNumber appID) key in
  match val with
  | Some v =>
      if truthy v then
        StackM.push v ;;;
        StackM.push (Uint64 1)
      else
        StackM.push (Uint64 0) ;;;
        StackM.push (Uint64 0)
  | None =>
      StackM.push (Uint64 0) ;;;
      StackM.push (Uint64 0)
  end.
End AppLocalGetEx.

Module AppGlobalGetEx.
Definition execute (ctx : Context) : M Stack unit :=
  Op.assertMinStackLen 2 ;;;
  k <- StackM.pop ;;
  key <- Op.assertBytes k ;;
  a <- StackM.pop ;;
  appIndex <- Op.assertBigInt a ;;
  let foreignApps := apfa (tx ctx) in
  appID <- (if appIndex =? 0 then ret (apid (tx ctx))
            else
              let appIndex := appIndex - 1 in
              Op.checkIndexBound (toNumber appIndex) foreignApps ;;;
              ret (match foreignApps with
                   | Some l => l !! Z.to_nat (toNumber appIndex)
                   | None => None
                   end)) ;;
  val <- InterpreterM.getGlobalState ctx appID key ;;
  match val with
  | Some v =>
      if truthy v then
        StackM.push v ;;;
        StackM.push (Uint64 1)
      else
        StackM.push (Uint64 0) ;;;
        StackM.push (Uint64 0)
  | None =>
      StackM.push (Uint64 0) ;;;
      StackM.push (Uint64 0)
  end.
End AppGlobalGetEx.

(** ** Transaction parameters *)

Inductive SignType : Set := SecretKey | LogicSignature.
Inductive ExecutionMode : Set := STATELESS | STATEFUL.

(** A logic signature, with its [verify] method; [logic] is the program
    text that [convertToString(lsig.logic)] yields. *)
Record LogicSig : Type := mkLogicSig {
  logic : string;
  verify : AccountAddress -> bool
}.

Record Account : Set := mkAccount { addr : AccountAddress }.

(** [payFlags]. An absent [closeRemainderTo] is [None]. *)
Record TxParams : Set := mkTxParams {
  totalFee : option Z;
  closeRemainderTo : option AccountAddress
}.

Record AssetModFields : Set := mkAssetModFields {
  mod_manager : AccountAddress;
  mod_reserve : AccountAddress;
  mod_freeze : AccountAddress;
  mod_clawback : AccountAddress
}.

(** [txnParam.type] together with the fields that each variant of the
    union [ExecParams] carries. *)
Inductive TransactionType : Set :=
  | TransferAlgo (toAccountAddr : AccountAddress) (amountMicroAlgos : Z)
  | TransferAsset (toAccountAddr : AccountAddress) (amount : Z) (assetID : Z)
  | ModifyAsset (assetID : Z) (fields : AssetModFields)
  | FreezeAsset (assetID : Z) (freezeTarget : AccountAddress) (freezeState : bool)
  | RevokeAsset (recipient : AccountAddress) (assetID : Z)
      (revocationTarget : AccountAddress) (amount : Z)
  | DestroyAsset (assetID : Z)
  | CallNoOpSSC (appId : Z)
  | CloseSSC (appId : Z)
  | ClearSSC (appId : Z)
  | DeleteSSC (appId : Z)
  | OtherTransaction.

Record ExecParams : Type := mkExecParams {
  type : TransactionType;
  sign : SignType;
  fromAccount : Account;
  lsig : option LogicSig;
  payFlags : TxParams
}.

(** The truth value of an optional string in [if (s)]: [undefined] and
    the empty string are falsy. *)
Definition truthy_string (s : option string) : option string :=
  match s with
  | Some EmptyString => None
  | other => other
  end.

(** ** Collaborators outside the sources *)

(** What the embedded classes call and the sources do not contain: the
    table of error numbers ([errors-list.ts]), the interpreter
    ([new Interpreter().execute(program, mode, runtime)], which reads and
    writes the runtime's context), the construction of an encoded
    transaction ([mkTransaction] with the mock suggested parameters), and
    the asset and application methods of [StoreAccount] whose effect no
    property below depends on. *)
Record External : Type := mkExternal {
  number : ErrorKind -> Z;
  interpret : string -> ExecutionMode -> M Context unit;
  mkTransaction : ExecParams -> Result Txn;
  account_modifyAsset : Z -> AssetModFields -> M StoreAccount unit;
  account_setFreezeState : Z -> bool -> M StoreAccount unit;
  account_destroyAsset : Z -> M StoreAccount unit;
  account_deleteApp : Z -> M StoreAccount unit
}.

(** [error instanceof RuntimeError && error.number === 1007] *)
Definition is_RuntimeError_1007 (ext : External) (error : Error) : bool :=
  match error with
  | RuntimeError k => number ext k =? 1007
  | _ => false
  end.

(** ** Class [Ctx] (packages/runtime/src/index.ts, lines 97-465) *)

(** The context in which the account object stored under [address] has
    become [a]. *)
Definition put_account (address : AccountAddress) (a : StoreAccount)
    (ctx : Context) : Context :=
  set_state (set_accounts (<[address := a]> (accounts (state ctx))) (state ctx)) ctx.

(** Runs a method of the account object stored under [address]. *)
Definition on_account {A} (address : AccountAddress) (c : M StoreAccount A)
  : M Context A := fun ctx =>
  match accounts (state ctx) !! address with
  | Some a => let (r, a') := c a in (r, put_account address a' ctx)
  | None => (Err (JsError "TypeError: cannot read properties of undefined"), ctx)
  end.

(** [holding.amount] of the holding object of [assetID] in an account. *)
Definition set_holding_amount (assetID : Z) (f : Z -> Z) : M StoreAccount unit :=
  modify (fun a =>
    set_assets
      (alter (fun h => mkAssetHolding (f (holding_amount h)) (is_frozen h))
         assetID (assets a)) a).

Module Ctx.
Definition getAccount (address : AccountAddress) : M Context StoreAccount :=
  account <- gets (fun c => accounts (state c) !! address) ;;
  Asserts.assertAccountDefined RuntimeError account.

Definition assertMinBalance (amt : Z) (address : AccountAddress)
  : M Context unit :=
  account <- getAccount address ;;
  if num_sub (amount account) amt <? minBalance account
  then throw (RuntimeError INSUFFICIENT_ACCOUNT_BALANCE)
  else ret tt.

Definition getAssetHolding (assetIndex : Z) (address : AccountAddress)
  : M Context AssetHolding :=
  a <- gets (fun c => accounts (state c) !! address) ;;
  account <- Asserts.assertAccountDefined RuntimeError a ;;
  match StoreAccountM.getAssetHolding account assetIndex with
  | None => throw (RuntimeError ASA_NOT_OPTIN)
  | Some assetHolding => ret assetHolding
  end.

Definition assertAssetNotFrozen (assetIndex : Z) (address : AccountAddress)
  : M Context unit :=
  assetHolding <- getAssetHolding assetIndex address ;;
  if is_frozen assetHolding
  then throw (RuntimeError ACCOUNT_ASSET_FROZEN)
  else ret tt.

Definition getAssetAccount (assetId : Z) : M Context StoreAccount :=
  a <- gets (fun c => assetDefs (state c) !! assetId) ;;
  match a with
  | None => throw (RuntimeError ASSET_NOT_FOUND)
  | Some addr =>
      acc <- gets (fun c => accounts (state c) !! addr) ;;
      Asserts.assertAccountDefined RuntimeError acc
  end.

Definition getAssetDef (assetId : Z) : M Context AssetDef :=
  creatorAcc <- getAssetAccount assetId ;;
  Asserts.assertAssetDefined RuntimeError
    (StoreAccountM.getAssetDef creatorAcc assetId).

Definition getApp (appId : Z) : M Context SSCAttributesM :=
  a <- gets (fun c => globalApps (state c) !! appId) ;;
  match a with
  | None => throw (RuntimeError APP_NOT_FOUND)
  | Some _ =>
      accAddress <- Asserts.assertAddressDefined RuntimeError a ;;
      acc <- gets (fun c => accounts (state c) !! accAddress) ;;
      account <- Asserts.assertAccountDefined RuntimeError acc ;;
      Asserts.assertAppDefined RuntimeError (StoreAccountM.getApp account appId)
  end.

Definition transferAlgo (txnParam : ExecParams)
    (toAccountAddr : AccountAddress) (amountMicroAlgos : Z) : M Context unit :=
  let from := addr (fromAccount txnParam) in
  fromAccount <- getAccount from ;;
  toAccount <- getAccount toAccountAddr ;;
  assertMinBalance amountMicroAlgos (address fromAccount) ;;;
  on_account from
    (modify (fun a => set_amount (num_sub (amount a) amountMicroAlgos) a)) ;;;
  on_account toAccountAddr
    (modify (fun a => set_amount (num_add (amount a) amountMicroAlgos) a)) ;;;
  match truthy_string (closeRemainderTo (payFlags txnParam)) with
  | Some closeRemainderTo =>
      closeRemToAcc <- getAccount closeRemainderTo ;;
      fromNow <- getAccount from ;;
      on_account closeRemainderTo
        (modify (fun a => set_amount (num_add (amount a) (amount fromNow)) a)) ;;;
      on_account from (modify (set_amount 0))
  | None => ret tt
  end.

Definition deductFee (sender : AccountAddress) (index : nat) : M Context unit :=
  fromAccount <- getAccount sender ;;
  t <- gets (fun c => gtxs c !! index) ;;
  match t with
  | None => throw (JsError "TypeError: cannot read properties of undefined")
  | Some t =>
      let fee := fee t in
      assertMinBalance fee sender ;;;
      on_account sender (modify (fun a => set_amount (num_sub (amount a) fee) a))
  end.

Definition transferAsset (txnParam : ExecParams)
    (toAccountAddr : AccountAddress) (amount assetID : Z) : M Context unit :=
  let from := addr (fromAccount txnParam) in
  fromAssetHolding <- getAssetHolding assetID from ;;
  toAssetHolding <- getAssetHolding assetID toAccountAddr ;;
  assertAssetNotFrozen assetID from ;;;
  assertAssetNotFrozen assetID toAccountAddr ;;;
  (if num_sub (holding_amount fromAssetHolding) amount <? 0
   then throw (RuntimeError INSUFFICIENT_ACCOUNT_ASSETS) else ret tt) ;;;
  on_account from (set_holding_amount assetID (fun x => num_sub x amount)) ;;;
  on_account toAccountAddr (set_holding_amount assetID (fun x => num_add x amount)) ;;;
  match truthy_string (closeRemainderTo (payFlags txnParam)) with
  | Some closeRemainderTo =>
      closeRemToAssetHolding <- getAssetHolding assetID closeRemainderTo ;;
      fromNow <- getAssetHolding assetID from ;;
      on_account closeRemainderTo
        (set_holding_amount assetID (fun x => num_add x (holding_amount fromNow))) ;;;
      on_account from (set_holding_amount assetID (fun _ => 0))
  | None => ret tt
  end.

Definition modifyAsset (ext : External) (assetId : Z) (fields : AssetModFields)
  : M Context unit :=
  creatorAcc <- getAssetAccount assetId ;;
  creator <- gets (fun c => assetDefs (state c) !! assetId) ;;
  on_account (default EmptyString creator)
    (account_modifyAsset ext assetId fields).

Definition freezeAsset (ext : External) (assetId : Z)
    (freezeTarget : AccountAddress) (freezeState : bool) : M Context unit :=
  a <- gets (fun c => accounts (state c) !! freezeTarget) ;;
  acc <- Asserts.assertAccountDefined RuntimeError a ;;
  on_account freezeTarget (account_setFreezeState ext assetId freezeState).

Definition revokeAsset (recipient : AccountAddress) (assetID : Z)
    (revocationTarget : AccountAddress) (amount : Z) : M Context unit :=
  fromAssetHolding <- getAssetHolding assetID revocationTarget ;;
  toAssetHolding <- getAssetHolding assetID recipient ;;
  (if num_sub (holding_amount fromAssetHolding) amount <? 0
   then throw (RuntimeError INSUFFICIENT_ACCOUNT_ASSETS) else ret tt) ;;;
  on_account revocationTarget
    (set_holding_amount assetID (fun x => num_sub x amount)) ;;;
  on_account recipient (set_holding_amount assetID (fun x => num_add x amount)).

Definition destroyAsset (ext : External) (assetId : Z) : M Context unit :=
  creatorAcc <- getAssetAccount assetId ;;
  creator <- gets (fun c => assetDefs (state c) !! assetId) ;;
  on_account (default EmptyString creator) (account_destroyAsset ext assetId) ;;;
  modify (fun c =>
    set_state
      (set_accounts
         ((fun value => set_assets (delete assetId (assets value)) value)
            <$> accounts (state c))
         (state c)) c).

Definition deleteApp (ext : External) (appId : Z) : M Context unit :=
  a <- gets (fun c => globalApps (state c) !! appId) ;;
  match a with
  | None => throw (RuntimeError APP_NOT_FOUND)
  | Some _ =>
      accountAddr <- Asserts.assertAddressDefined RuntimeError a ;;
      acc <- gets (fun c => accounts (state c) !! accountAddr) ;;
      account <- Asserts.assertAccountDefined RuntimeError acc ;;
      on_account accountAddr (account_deleteApp ext appId) ;;;
      modify (fun c =>
        set_state (set_globalApps (delete appId (globalApps (state c)))
                     (state c)) c)
  end.

Definition closeApp (sender : AccountAddress) (appId : Z) : M Context unit :=
  fromAccount <- getAccount sender ;;
  app <- getApp appId ;;
  Asserts.assertAppDefined RuntimeError (Some app) ;;;
  on_account sender (StoreAccountM.closeApp appId).

(** The methods of the runtime that [processTransactions] calls:
    [assertAmbiguousTxnParams], [validateLsigAndRun] and [run]
    (opcode-list.ts, lines 2697-2701, 3025-3041 and 3129-3132), acting
    on this context. *)
Definition assertAmbiguousTxnParams (txnParams : ExecParams) : M Context unit :=
  match sign txnParams, lsig txnParams with
  | SecretKey, Some _ => throw (RuntimeError INVALID_TRANSACTION_PARAMS)
  | _, _ => ret tt
  end.

Definition run (ext : External) (program : string) (mode : ExecutionMode)
  : M Context unit := interpret ext program mode.

Definition validateLsigAndRun (ext : External) (txnParam : ExecParams)
  : M Context unit :=
  match lsig txnParam with
  | None => throw (RuntimeError LOGIC_SIGNATURE_NOT_FOUND)
  | Some lsig =>
      if negb (verify lsig (addr (fromAccount txnParam)))
      then throw (RuntimeError LOGIC_SIGNATURE_VALIDATION_FAILED)
      else run ext (logic lsig) STATELESS
  end.

(** [this.tx = this.gtxs[i]]; the index is in range where it is used,
    because [deductFee] has read [this.gtxs[idx].fee] before. *)
Definition set_current_tx (i : nat) : M Context unit :=
  modify (fun c => set_tx (default (tx c) (gtxs c !! i)) c).

(** The [switch (txnParam.type)] of [processTransactions]. *)
Definition dispatch (ext : External) (txnParam : ExecParams)
    (clearErrorBool : bool) : M Context bool :=
  match type txnParam with
  | TransferAlgo to amt =>
      transferAlgo txnParam to amt ;;; ret clearErrorBool
  | TransferAsset to amt assetID =>
      transferAsset txnParam to amt assetID ;;; ret clearErrorBool
  | CallNoOpSSC appId =>
      appParams <- getApp appId ;;
      run ext (approval_program appParams) STATEFUL ;;; ret clearErrorBool
  | CloseSSC appId =>
      appParams <- getApp appId ;;
      run ext (approval_program appParams) STATEFUL ;;;
      closeApp (addr (fromAccount txnParam)) appId ;;; ret clearErrorBool
  | ClearSSC appId =>
      app <- getApp appId ;;
      appParams <- Asserts.assertAppDefined RuntimeError (Some app) ;;
      caught <- try_catch
                  (run ext (clear_state_program appParams) STATEFUL ;;; ret false)
                  (fun error =>
                     if is_RuntimeError_1007 ext error then
                       closeApp (addr (fromAccount txnParam)) appId ;;;
                       ret true
                     else throw error) ;;
      if caught then ret true
      else closeApp (addr (fromAccount txnParam)) appId ;;; ret clearErrorBool
  | DeleteSSC appId =>
      appParams <- getApp appId ;;
      run ext (approval_program appParams) STATEFUL ;;;
      deleteApp ext appId ;;; ret clearErrorBool
  | ModifyAsset assetID fields =>
      asset <- getAssetDef assetID ;;
      (if negb (String.eqb (manager asset) (addr (fromAccount txnParam)))
       then throw (RuntimeError MANAGER_ERROR) else ret tt) ;;;
      modifyAsset ext assetID fields ;;; ret clearErrorBool
  | FreezeAsset assetID freezeTarget freezeState =>
      asset <- getAssetDef assetID ;;
      (if negb (String.eqb (freeze asset) (addr (fromAccount txnParam)))
       then throw (RuntimeError FREEZE_ERROR) else ret tt) ;;;
      freezeAsset ext assetID freezeTarget freezeState ;;; ret clearErrorBool
  | RevokeAsset recipient assetID revocationTarget amount =>
      asset <- getAssetDef assetID ;;
      (if negb (String.eqb (clawback asset) (addr (fromAccount txnParam)))
       then throw (RuntimeError CLAWBACK_ERROR) else ret tt) ;;;
      revokeAsset recipient assetID revocationTarget amount ;;; ret clearErrorBool
  | DestroyAsset assetID =>
      asset <- getAssetDef assetID ;;
      (if negb (String.eqb (manager asset) (addr (fromAccount txnParam)))
       then throw (RuntimeError MANAGER_ERROR) else ret tt) ;;;
      destroyAsset ext assetID ;;; ret clearErrorBool
  | OtherTransaction => ret clearErrorBool
  end.

(** The statements of the callback between the fee deduction and the
    [switch]: the ambiguity check and the logic signature. *)
Definition beforeSwitch (ext : External) (txnParam : ExecParams) (idx : nat)
  : M Context unit :=
  assertAmbiguousTxnParams txnParam ;;;
  match sign txnParam with
  | LogicSignature =>
      set_current_tx idx ;;;
      validateLsigAndRun ext txnParam ;;;
      set_current_tx 0
  | SecretKey => ret tt
  end.

(** The callback of [txnParams.forEach]; [clearErrorBool] is the local
    variable of [processTransactions] that the callback assigns. *)
Definition processTransaction (ext : External) (txnParam : ExecParams)
    (idx : nat) (clearErrorBool : bool) : M Context bool :=
  deductFee (addr (fromAccount txnParam)) idx ;;;
  beforeSwitch ext txnParam idx ;;;
  dispatch ext txnParam clearErrorBool.

Definition processTransactions (ext : External) (txnParams : list ExecParams)
  : M Context bool :=
  clearErrorBool <- forEach (processTransaction ext) txnParams false ;;
  if clearErrorBool then ret true else ret false.

(** [processTransactions] from the transaction at index [idx] on, with
    the value [clearErrorBool] has reached: what remains to be done
    once the transactions before [idx] have been processed. *)
Definition resume (ext : External) (idx : nat) (txnParams : list ExecParams)
    (clearErrorBool : bool) : M Context bool :=
  clearErrorBool <- forEach_from (processTransaction ext) idx txnParams
                      clearErrorBool ;;
  if clearErrorBool then ret true else ret false.
End Ctx.

(** The order of the spec's sentence on fee deduction, read literally:
    the fee of every transaction is deducted first, in declared order,
    and only then the transactions execute.  It is compared with
    [Ctx.processTransactions] below. *)
Definition fees_before_any_payload (ext : External) (txnParams : list ExecParams)
  : M Context bool :=
  forEach (fun txnParam idx (_ : unit) =>
             Ctx.deductFee (addr (fromAccount txnParam)) idx) txnParams tt ;;;
  clearErrorBool <-
    forEach (fun txnParam idx clearErrorBool =>
               Ctx.beforeSwitch ext txnParam idx ;;;
               Ctx.dispatch ext txnParam clearErrorBool) txnParams false ;;
  if clearErrorBool then ret true else ret false.

(** The sum of the balances of all accounts of a state. *)
Definition total_algos (s : State) : Z :=
  map_fold (fun _ a sum => amount a + sum) 0 (accounts s).

(** An account as [initializeAccounts] stores it, under its own address,
    with a balance and a minimum balance that are not negative. *)
Definition account_ok (k : AccountAddress) (a : StoreAccount) : Prop :=
  address a = k /\ 0 <= amount a /\ 0 <= minBalance a.

(** The balances of a state lie where the arithmetic of [number]s is
    exact: every account is as above, and the sum of all balances is a
    safe integer. *)
Definition safe_balances (s : State) : Prop :=
  map_Forall account_ok (accounts s) /\ total_algos s < 2 ^ 53.

(** ** Class [Runtime] (opcode-list.ts, lines 2613-3133) *)

(** [store] and [ctx.state] are references to [State] objects:
    [cloneDeep] allocates a new object, and [this.store = this.ctx.state]
    makes both fields point to one object.  The objects live in [heap],
    and a reference is an index into it. *)
Record RuntimeContext : Set := mkRuntimeContext {
  ctx_state : nat;
  ctx_tx : Txn;
  ctx_gtxs : list Txn;
  ctx_args : list (list byte)
}.

Record Runtime : Type := mkRuntime {
  heap : list State;
  store : nat;
  ctx : RuntimeContext;
  appCounter : Z;
  programMap : gmap Z (string * string)
}.

Definition empty_State : State := mkState ∅ ∅ ∅.

(** [<Txn>{}], the transaction of a freshly built runtime; it also stands
    for [txns[0]] of an empty group, which no code reads. *)
Definition empty_Txn : Txn := mkTxn EmptyString 0 None None None EmptyString.

(** The object a reference points to. *)
Definition deref (rt : Runtime) (r : nat) : State :=
  default empty_State (heap rt !! r).

(** The canonical world state, as the accessors read it. *)
Definition store_state (rt : Runtime) : State := deref rt (store rt).

Definition set_heap (h : list State) (rt : Runtime) : Runtime :=
  mkRuntime h (store rt) (ctx rt) (appCounter rt) (programMap rt).

Definition set_store (r : nat) (rt : Runtime) : Runtime :=
  mkRuntime (heap rt) r (ctx rt) (appCounter rt) (programMap rt).

Definition set_ctx (c : RuntimeContext) (rt : Runtime) : Runtime :=
  mkRuntime (heap rt) (store rt) c (appCounter rt) (programMap rt).

Definition set_programMap (m : gmap Z (string * string)) (rt : Runtime) : Runtime :=
  mkRuntime (heap rt) (store rt) (ctx rt) (appCounter rt) m.

(** [cloneDeep(this.store)]: a new object with the same contents. *)
Definition cloneDeep_store : M Runtime nat := fun rt =>
  (Ok (List.length (heap rt)), set_heap (heap rt ++ [store_state rt]) rt).

(** Runs a method of the [State] object that [this.store] points to. *)
Definition on_store {A} (c : M State A) : M Runtime A := fun rt =>
  let (r, s') := c (store_state rt) in
  (r, set_heap (<[store rt := s']> (heap rt)) rt).

(** Runs a method of the account object stored under [address] in a
    state. *)
Definition on_state_account {A} (address : AccountAddress) (c : M StoreAccount A)
  : M State A := fun s =>
  match accounts s !! address with
  | Some a => let (r, a') := c a in (r, set_accounts (<[address := a']> (accounts s)) s)
  | None => (Err (JsError "TypeError: cannot read properties of undefined"), s)
  end.

(** [for (const x of arr) { f x }] *)
Fixpoint for_of {S A} (f : A -> M S unit) (arr : list A) : M S unit :=
  match arr with
  | [] => ret tt
  | x :: rest => f x ;;; for_of f rest
  end.

Module Runtime.
Definition assertAmbiguousTxnParams (txnParams : ExecParams) : M Runtime unit :=
  match sign txnParams, lsig txnParams with
  | SecretKey, Some _ => throw (TealError INVALID_TRANSACTION_PARAMS)
  | _, _ => ret tt
  end.

(** The accessors read [this.store]. *)
Definition getAccount (address : AccountAddress) : M Runtime StoreAccount :=
  account <- gets (fun rt => accounts (store_state rt) !! address) ;;
  Asserts.assertAccountDefined TealError account.

Definition getApp (appId : Z) : M Runtime SSCAttributesM :=
  a <- gets (fun rt => globalApps (store_state rt) !! appId) ;;
  match a with
  | None => throw (TealError APP_NOT_FOUND)
  | Some _ =>
      accAddress <- Asserts.assertAddressDefined TealError a ;;
      acc <- gets (fun rt => accounts (store_state rt) !! accAddress) ;;
      account <- Asserts.assertAccountDefined TealError acc ;;
      Asserts.assertAppDefined TealError (StoreAccountM.getApp account appId)
  end.

Definition getGlobalState (appId : Z) (key : list byte)
  : M Runtime (option StackElem) :=
  a <- gets (fun rt => globalApps (store_state rt) !! appId) ;;
  match a with
  | None => throw (TealError APP_NOT_FOUND)
  | Some _ =>
      accAddress <- Asserts.assertAddressDefined TealError a ;;
      acc <- gets (fun rt => accounts (store_state rt) !! accAddress) ;;
      account <- Asserts.assertAccountDefined TealError acc ;;
      StoreAccountM.getGlobalState TealError account appId key
  end.

Definition getLocalState (appId : Z) (accountAddr : AccountAddress)
    (key : list byte) : M Runtime (option StackElem) :=
  acc <- gets (fun rt => accounts (store_state rt) !! accountAddr) ;;
  account <- Asserts.assertAccountDefined TealError acc ;;
  ret (StoreAccountM.getLocalState account appId key).

Definition getProgram (appId : Z) : M Runtime (string * string) :=
  res <- gets (fun rt => programMap rt !! appId) ;;
  match res with
  | None => throw (TealError APP_NOT_FOUND)
  | Some res => ret res
  end.

(** A group of more than 16 transactions is refused; each transaction
    is built by [mkTransaction]. *)
Fixpoint mkTransactions (ext : External) (txnParams : list ExecParams)
  : M Runtime (list Txn) :=
  match txnParams with
  | [] => ret []
  | txnParam :: rest =>
      encodedTxnObj <- lift (mkTransaction ext txnParam) ;;
      txns <- mkTransactions ext rest ;;
      ret (encodedTxnObj :: txns)
  end.

Definition createTxnContext (ext : External)
    (txnParams : ExecParams + list ExecParams) : M Runtime (Txn * list Txn) :=
  match txnParams with
  | inr txnParams =>
      if (16 <? List.length txnParams)%nat
      then throw (JsError "Maximum size of an atomic transfer group is 16")
      else
        txns <- mkTransactions ext txnParams ;;
        ret (default empty_Txn (head txns), txns)
  | inl txnParams =>
      encodedTxnObj <- lift (mkTransaction ext txnParams) ;;
      ret (encodedTxnObj, [encodedTxnObj])
  end.

(** [interpreter.execute(program, executionMode, this)]: the
    interpreter works on the context of the runtime, whose state is the
    object [ctx.state] points to. *)
Definition run (ext : External) (program : string) (executionMode : ExecutionMode)
  : M Runtime unit := fun rt =>
  let c := mkContext (deref rt (ctx_state (ctx rt))) (ctx_tx (ctx rt))
             (ctx_gtxs (ctx rt)) (ctx_args (ctx rt)) in
  let (r, c') := interpret ext program executionMode c in
  (r, set_ctx (mkRuntimeContext (ctx_state (ctx rt)) (tx c') (gtxs c') (args c'))
        (set_heap (<[ctx_state (ctx rt) := state c']> (heap rt)) rt)).

Definition validateLsigAndRun (ext : External) (txnParam : ExecParams)
  : M Runtime unit :=
  match lsig txnParam with
  | None => throw (TealError LOGIC_SIGNATURE_NOT_FOUND)
  | Some lsig =>
      if negb (verify lsig (addr (fromAccount txnParam)))
      then throw (TealError LOGIC_SIGNATURE_VALIDATION_FAILED)
      else run ext (logic lsig) STATELESS
  end.

Definition transferAlgo (from toAccountAddr : AccountAddress)
    (amountMicroAlgos : Z) : M Runtime unit :=
  f <- gets (fun rt => accounts (store_state rt) !! from) ;;
  fromAccount <- Asserts.assertAccountDefined TealError f ;;
  t <- gets (fun rt => accounts (store_state rt) !! toAccountAddr) ;;
  toAccount <- Asserts.assertAccountDefined TealError t ;;
  on_store (on_state_account from
              (modify (fun a => set_amount (num_sub (amount a) amountMicroAlgos) a))) ;;;
  on_store (on_state_account toAccountAddr
              (modify (fun a => set_amount (num_add (amount a) amountMicroAlgos) a))).

Definition deleteApp (ext : External) (appId : Z) : M Runtime unit :=
  a <- gets (fun rt => globalApps (store_state rt) !! appId) ;;
  match a with
  | None => throw (TealError APP_NOT_FOUND)
  | Some accountAddr =>
      acc <- gets (fun rt => accounts (store_state rt) !! accountAddr) ;;
      account <- Asserts.assertAccountDefined TealError acc ;;
      on_store (on_state_account accountAddr (account_deleteApp ext appId)) ;;;
      on_store (modify (fun s => set_globalApps (delete appId (globalApps s)) s)) ;;;
      modify (fun rt => set_programMap (delete appId (programMap rt)) rt)
  end.

Definition updateFinalState (ext : External) (txnParams : list ExecParams)
  : M Runtime unit :=
  modify (fun rt => set_store (ctx_state (ctx rt)) rt) ;;;
  for_of (fun txnParam =>
            match type txnParam with
            | TransferAlgo to amt =>
                transferAlgo (addr (fromAccount txnParam)) to amt
            | DeleteSSC appId => deleteApp ext appId
            | _ => ret tt
            end) txnParams.

(** The statements of [executeTx] before [updateFinalState]: the new
    context over a deep copy of the store, and the loop that runs the
    program of each transaction. *)
Definition runPrograms (ext : External) (txnParameters : list ExecParams)
  : M Runtime unit :=
  for_of (fun txnParam =>
            assertAmbiguousTxnParams txnParam ;;;
            (match sign txnParam with
             | LogicSignature => validateLsigAndRun ext txnParam
             | SecretKey => ret tt
             end) ;;;
            match type txnParam with
            | CallNoOpSSC appId =>
                p <- getProgram appId ;; run ext (fst p) STATEFUL
            | CloseSSC appId =>
                p <- getProgram appId ;; run ext (fst p) STATEFUL
            | DeleteSSC appId =>
                p <- getProgram appId ;; run ext (fst p) STATEFUL
            | ClearSSC appId =>
                p <- getProgram appId ;; run ext (Datatypes.snd p) STATEFUL
            | _ => ret tt
            end) txnParameters.

Definition executeTx_programs (ext : External)
    (txnParams : ExecParams + list ExecParams) (args : option (list (list byte)))
  : M Runtime (list ExecParams) :=
  c <- createTxnContext ext txnParams ;;
  let '(tx, gtxs) := c in
  state <- cloneDeep_store ;;
  modify (set_ctx (mkRuntimeContext state tx gtxs (default [] args))) ;;;
  let txnParameters := match txnParams with
                       | inl txnParams => [txnParams]
                       | inr txnParams => txnParams
                       end in
  runPrograms ext txnParameters ;;;
  ret txnParameters.

Definition executeTx (ext : External)
    (txnParams : ExecParams + list ExecParams) (args : option (list (list byte)))
  : M Runtime unit :=
  txnParameters <- executeTx_programs ext txnParams args ;;
  updateFinalState ext txnParameters.
End Runtime.

(** [runtime.getAccount(address).balance()] *)
Definition balance_of (rt : Runtime) (address : AccountAddress) : Result Z :=
  match fst (Runtime.getAccount address rt) with
  | Ok account => Ok (amount account)
  | Err e => Err e
  end.

(** The store reference of a runtime points into its heap. *)
Definition runtime_wf (rt : Runtime) : Prop :=
  (store rt < List.length (heap rt))%nat.

(** What the program loop of [executeTx] preserves of the runtime [rt0]
    it started from: the store reference, the object it points to, and a
    context state that is another object of the heap. *)
Definition store_kept (rt0 rt : Runtime) : Prop :=
  store rt = store rt0
  /\ heap rt !! store rt0 = heap rt0 !! store rt0
  /\ ctx_state (ctx rt) <> store rt0
  /\ (store rt0 < List.length (heap rt))%nat.

(** The outcome the spec sentence on the _ex opcodes describes for a
    stack [rest] under the operands: the value on top, the did_exist
    flag pushed below it, the flag 1 exactly when the key exists, and
    [Uint64 0] as the value when the flag is 0. *)
Definition flag_below_value (result : Result unit * Stack) (cap : option nat)
    (rest : list StackElem) (key_exists : bool) : Prop :=
  exists v : StackElem,
    result = (Ok tt, mkStack cap (v :: Uint64 (if key_exists then 1 else 0) :: rest))
    /\ (key_exists = false -> v = Uint64 0).

(** ** A sample world *)

(** Three accounts with a minimum balance of 10000 micro-algos; alice
    has created application 1 and has opted into it. *)
Module Sample.
Definition key_k : list byte := [x6b].
Definition key_z : list byte := [x7a].
Definition val_v : list byte := [x76].

Definition schema : SSCSchemaConfig := mkSchema 1 1.

Definition app1 : SSCAttributesM :=
  mkSSCAttributes "approve" "reject" "alice"
    (<[key_k := Bytes val_v]> (<[key_z := Uint64 0]> ∅)) schema schema.

Definition alice : StoreAccount :=
  mkStoreAccount "alice" 20000 10000 ∅
    (<[1 := mkAppLocalState
              (<[key_k := Bytes val_v]> (<[key_z := Uint64 0]> ∅)) schema]> ∅)
    (<[1 := app1]> ∅) ∅.

Definition bob : StoreAccount := mkStoreAccount "bob" 10000 10000 ∅ ∅ ∅ ∅.
Definition carol : StoreAccount := mkStoreAccount "carol" 10000 10000 ∅ ∅ ∅ ∅.

Definition world : State :=
  mkState (<["alice" := alice]> (<["bob" := bob]> (<["carol" := carol]> ∅)))
    (<[1 := "alice"]> ∅) ∅.

Definition pay (from to : string) (amt : Z) (close : option string) : ExecParams :=
  mkExecParams (TransferAlgo to amt) SecretKey (mkAccount from) None
    (mkTxParams (Some 1000) close).

Definition clear (from : string) (appId : Z) : ExecParams :=
  mkExecParams (ClearSSC appId) SecretKey (mkAccount from) None
    (mkTxParams (Some 1000) None).

(** A stand-in for the collaborators: [REJECTED_BY_LOGIC] has number
    1007 and no other kind has; the program "reject" is rejected by
    logic, the program "err" fails with another error, and every other
    program is accepted; an encoded transaction carries the sender, the
    fee of [payFlags] (1000 when absent) and the application id. *)
Definition ext : External :=
  mkExternal
    (fun k => match k with REJECTED_BY_LOGIC => 1007 | _ => 1000 end)
    (fun program _ =>
       if String.eqb program "reject" then throw (RuntimeError REJECTED_BY_LOGIC)
       else if String.eqb program "err" then throw (RuntimeError INVALID_TYPE)
       else ret tt)
    (fun p =>
       Ok (mkTxn (addr (fromAccount p)) (default 1000 (totalFee (payFlags p)))
             (match type p with
              | CallNoOpSSC a | CloseSSC a | ClearSSC a | DeleteSSC a => Some a
              | _ => None
              end) None None "txid"))
    (fun _ _ => ret tt) (fun _ _ => ret tt) (fun _ => ret tt) (fun _ => ret tt).

Definition txn_of (p : ExecParams) : Txn :=
  match mkTransaction ext p with
  | Ok t => t
  | Err _ => mkTxn EmptyString 0 None None None EmptyString
  end.

(** alice pays bob, and bob, who holds exactly his minimum balance
    before, pays carol. *)
Definition pay_group : list ExecParams :=
  [pay "alice" "bob" 5000 None; pay "bob" "carol" 100 None].

(** alice pays bob and then clears her local state of application 1,
    whose clear program is rejected by logic. *)
Definition clear_group : list ExecParams :=
  [pay "alice" "bob" 5000 None; clear "alice" 1].

(** alice pays bob and then an address that has no account. *)
Definition ghost_group : list ExecParams :=
  [pay "alice" "bob" 100 None; pay "alice" "ghost" 50 None].

(** The context of a group over the sample world. *)
Definition context (group : list ExecParams) : Context :=
  mkContext world (txn_of (default (pay "alice" "bob" 0 None) (head group)))
    (map txn_of group) [].

(** A world in which the balance of one account has reached [2^53]. *)
Definition whale : StoreAccount := mkStoreAccount "whale" (2 ^ 53) 10000 ∅ ∅ ∅ ∅.

Definition whale_world : State :=
  mkState (<["alice" := alice]> (<["whale" := whale]> ∅)) ∅ ∅.

Definition whale_context (group : list ExecParams) : Context :=
  mkContext whale_world (txn_of (default (pay "alice" "whale" 0 None) (head group)))
    (map txn_of group) [].

(** A runtime whose store is the sample world. *)
Definition runtime : Runtime :=
  mkRuntime [world] 0 (mkRuntimeContext 0 empty_Txn [] []) 0 ∅.
End Sample.

(** ** Arithmetic, logic and stack opcodes (opcode-list.ts) *)

(** The kinds that these opcodes name directly in
    [new RuntimeError(RUNTIME_ERRORS.TEAL. ...)]. *)
Definition ZERO_DIV : ErrorKind := OTHER_KIND "ZERO_DIV".
Definition CONCAT_ERROR : ErrorKind := OTHER_KIND "CONCAT_ERROR".
Definition INVALID_FIELD_TYPE : ErrorKind := OTHER_KIND "INVALID_FIELD_TYPE".
Definition TEAL_ENCOUNTERED_ERR : ErrorKind := OTHER_KIND "TEAL_ENCOUNTERED_ERR".

Module Len.
Definition execute : M Stack unit :=
  Op.assertMinStackLen 1 ;;;
  top <- StackM.pop ;;
  last <- Op.assertBytes top ;;
  StackM.push (Uint64 (Z.of_nat (List.length last))).
End Len.

Module Add.
Definition execute : M Stack unit :=
  Op.assertMinStackLen 2 ;;;
  l <- StackM.pop ;;
  last <- Op.assertBigInt l ;;
  p <- StackM.pop ;;
  prev <- Op.assertBigInt p ;;
  let result := prev + last in
  Op.checkOverflow result ;;;
  StackM.push (Uint64 result).
End Add.

Module Sub.
Definition execute : M Stack unit :=
  Op.assertMinStackLen 2 ;;;
  l <- StackM.pop ;;
  last <- Op.assertBigInt l ;;
  p <- StackM.pop ;;
  prev <- Op.assertBigInt p ;;
  let result := prev - last in
  Op.checkUnderflow result ;;;
  StackM.push (Uint64 result).
End Sub.

(** [prev / last] and [prev % last] on [bigint]s round towards zero. *)
Module Div.
Definition execute : M Stack unit :=
  Op.assertMinStackLen 2 ;;;
  l <- StackM.pop ;;
  last <- Op.assertBigInt l ;;
  p <- StackM.pop ;;
  prev <- Op.assertBigInt p ;;
  if last =? 0 then throw (RuntimeError ZERO_DIV)
  else StackM.push (Uint64 (Z.quot prev last)).
End Div.

Module Mul.
Definition execute : M Stack unit :=
  Op.assertMinStackLen 2 ;;;
  l <- StackM.pop ;;
  last <- Op.assertBigInt l ;;
  p <- StackM.pop ;;
  prev <- Op.assertBigInt p ;;
  let result := prev * last in
  Op.checkOverflow result ;;;
  StackM.push (Uint64 result).
End Mul.

Module Mod.
Definition execute : M Stack unit :=
  Op.assertMinStackLen 2 ;;;
  l <- StackM.pop ;;
  last <- Op.assertBigInt l ;;
  p <- StackM.pop ;;
  prev <- Op.assertBigInt p ;;
  if last =? 0 then throw (RuntimeError ZERO_DIV)
  else StackM.push (Uint64 (Z.rem prev last)).
End Mod.

Module BitwiseOr.
Definition execute : M Stack unit :=
  Op.assertMinStackLen 2 ;;;
  l <- StackM.pop ;;
  last <- Op.assertBigInt l ;;
  p <- StackM.pop ;;
  prev <- Op.assertBigInt p ;;
  StackM.push (Uint64 (Z.lor prev last)).
End BitwiseOr.

Module BitwiseAnd.
Definition execute : M Stack unit :=
  Op.assertMinStackLen 2 ;;;
  l <- StackM.pop ;;
  last <- Op.assertBigInt l ;;
  p <- StackM.pop ;;
  prev <- Op.assertBigInt p ;;
  StackM.push (Uint64 (Z.land prev last)).
End BitwiseAnd.

Module BitwiseXor.
Definition execute : M Stack unit :=
  Op.assertMinStackLen 2 ;;;
  l <- StackM.pop ;;
  last <- Op.assertBigInt l ;;
  p <- StackM.pop ;;
  prev <- Op.assertBigInt p ;;
  StackM.push (Uint64 (Z.lxor prev last)).
End BitwiseXor.

(** [~last] on a [bigint] is the two's complement negation of an
    integer of unbounded width. *)
Module BitwiseNot.
Definition execute : M Stack unit :=
  Op.assertMinStackLen 1 ;;;
  l <- StackM.pop ;;
  last <- Op.assertBigInt l ;;
  StackM.push (Uint64 (Z.lnot last)).
End BitwiseNot.

Module LessThan.
Definition execute : M Stack unit :=
  Op.assertMinStackLen 2 ;;;
  l <- StackM.pop ;;
  last <- Op.assertBigInt l ;;
  p <- StackM.pop ;;
  prev <- Op.assertBigInt p ;;
  if prev <? last then StackM.push (Uint64 1) else StackM.push (Uint64 0).
End LessThan.

Module GreaterThan.
Definition execute : M Stack unit :=
  Op.assertMinStackLen 2 ;;;
  l <- StackM.pop ;;
  last <- Op.assertBigInt l ;;
  p <- StackM.pop ;;
  prev <- Op.assertBigInt p ;;
  if prev >? last then StackM.push (Uint64 1) else StackM.push (Uint64 0).
End GreaterThan.

Module LessThanEqualTo.
Definition execute : M Stack unit :=
  Op.assertMinStackLen 2 ;;;
  l <- StackM.pop ;;
  last <- Op.assertBigInt l ;;
  p <- StackM.pop ;;
  prev <- Op.assertBigInt p ;;
  if prev <=? last then StackM.push (Uint64 1) else StackM.push (Uint64 0).
End LessThanEqualTo.

Module GreaterThanEqualTo.
Definition execute : M Stack unit :=
  Op.assertMinStackLen 2 ;;;
  l <- StackM.pop ;;
  last <- Op.assertBigInt l ;;
  p <- StackM.pop ;;
  prev <- Op.assertBigInt p ;;
  if prev >=? last then StackM.push (Uint64 1) else StackM.push (Uint64 0).
End GreaterThanEqualTo.

(** [if (last && prev)] and [if (prev || last)] on [bigint]s: [0n] is
    the only falsy one. *)
Module And.
Definition execute : M Stack unit :=
  Op.assertMinStackLen 2 ;;;
  l <- StackM.pop ;;
  last <- Op.assertBigInt l ;;
  p <- StackM.pop ;;
  prev <- Op.assertBigInt p ;;
  if negb (last =? 0) && negb (prev =? 0)
  then StackM.push (Uint64 1) else StackM.push (Uint64 0).
End And.

Module Or.
Definition execute : M Stack unit :=
  Op.assertMinStackLen 2 ;;;
  l <- StackM.pop ;;
  last <- Op.assertBigInt l ;;
  p <- StackM.pop ;;
  prev <- Op.assertBigInt p ;;
  if negb (prev =? 0) || negb (last =? 0)
  then StackM.push (Uint64 1) else StackM.push (Uint64 0).
End Or.

Module Not.
Definition execute : M Stack unit :=
  Op.assertMinStackLen 1 ;;;
  l <- StackM.pop ;;
  last <- Op.assertBigInt l ;;
  if last =? 0 then StackM.push (Uint64 1) else StackM.push (Uint64 0).
End Not.

Module Pop.
Definition execute : M Stack unit :=
  Op.assertMinStackLen 1 ;;;
  StackM.pop ;;; ret tt.
End Pop.

Module Dup.
Definition execute : M Stack unit :=
  Op.assertMinStackLen 1 ;;;
  lastValue <- StackM.pop ;;
  StackM.push lastValue ;;;
  StackM.push lastValue.
End Dup.

Module Dup2.
Definition execute : M Stack unit :=
  Op.assertMinStackLen 2 ;;;
  lastValueA <- StackM.pop ;;
  lastValueB <- StackM.pop ;;
  StackM.push lastValueB ;;;
  StackM.push lastValueA ;;;
  StackM.push lastValueB ;;;
  StackM.push lastValueA.
End Dup2.

(** [MAX_CONCAT_SIZE] comes from [lib/constants.ts], which is not among
    the sources; the opcode is embedded for any value of it. *)
Module Concat.
Definition execute (MAX_CONCAT_SIZE : Z) : M Stack unit :=
  Op.assertMinStackLen 2 ;;;
  a <- StackM.pop ;;
  valueA <- Op.assertBytes a ;;
  b <- StackM.pop ;;
  valueB <- Op.assertBytes b ;;
  if Z.of_nat (List.length valueA) + Z.of_nat (List.length valueB) >? MAX_CONCAT_SIZE
  then throw (RuntimeError CONCAT_ERROR)
  else StackM.push (Bytes (valueB ++ valueA)).
End Concat.

Module Assert.
Definition execute : M Stack unit :=
  Op.assertMinStackLen 1 ;;;
  t <- StackM.pop ;;
  top <- Op.assertBigInt t ;;
  if top =? 0 then throw (RuntimeError TEAL_ENCOUNTERED_ERR) else ret tt.
End Assert.

Module Swap.
Definition execute : M Stack unit :=
  Op.assertMinStackLen 2 ;;;
  a <- StackM.pop ;;
  b <- StackM.pop ;;
  StackM.push a ;;;
  StackM.push b.
End Swap.

(** Runs an operation of a second stack, a local variable of the
    opcode, inside an operation of the evaluation stack. *)
Definition on_temp {A} (c : M Stack A) (tempStack : Stack) : M Stack (A * Stack) :=
  fun s => match c tempStack with
           | (Ok a, tempStack') => (Ok (a, tempStack'), s)
           | (Err e, _) => (Err e, s)
           end.

Module Dig.
(** [for (let i = 0; i <= this.depth; ++i) { target = stack.pop();
    tempStack.push(target); }]: the body runs once and then once more
    for each unit of [depth]. *)
Fixpoint pop_to_temp (depth : nat) (tempStack : Stack) : M Stack (StackElem * Stack) :=
  target <- StackM.pop ;;
  r <- on_temp (StackM.push target) tempStack ;;
  match depth with
  | O => ret (target, Datatypes.snd r)
  | Datatypes.S k => pop_to_temp k (Datatypes.snd r)
  end.

(** [while (tempStack.length()) { stack.push(tempStack.pop()); }] *)
Fixpoint push_back (fuel : nat) (tempStack : Stack) : M Stack unit :=
  match fuel with
  | O => ret tt
  | Datatypes.S k =>
      if (StackM.length tempStack =? 0)%nat then ret tt
      else
        r <- on_temp StackM.pop tempStack ;;
        StackM.push (fst r) ;;;
        push_back k (Datatypes.snd r)
  end.

(** [depth] is the immediate stored by the constructor. *)
Definition execute (depth : nat) : M Stack unit :=
  Op.assertMinStackLen (depth + 1) ;;;
  let tempStack := mkStack (Some (depth + 1)%nat) [] in
  r <- pop_to_temp depth tempStack ;;
  push_back (StackM.length (Datatypes.snd r)) (Datatypes.snd r) ;;;
  StackM.push (fst r).
End Dig.

Module Select.
Definition execute : M Stack unit :=
  Op.assertMinStackLen 3 ;;;
  c <- StackM.pop ;;
  toCheck <- Op.assertBigInt c ;;
  notZeroSelection <- StackM.pop ;;
  isZeroSelection <- StackM.pop ;;
  if negb (toCheck =? 0) then StackM.push notZeroSelection
  else StackM.push isZeroSelection.
End Select.

(** ** Constant blocks and scratch space (opcode-list.ts) *)

(** The fields of the interpreter that [Intcblock], [Intc], [Bytecblock],
    [Bytec], [Store] and [Load] read and write, next to the evaluation
    stack they are executed on. *)
Record Machine : Set := mkMachine {
  m_stack : Stack;
  bytecblock : list (list byte);
  intcblock : list Z;
  scratch : list StackElem
}.

(** Runs a stack operation on the machine's stack. *)
Definition on_m_stack {A} (c : M Stack A) : M Machine A := fun m =>
  let (r, s') := c (m_stack m) in
  (r, mkMachine s' (bytecblock m) (intcblock m) (scratch m)).

(** [assertArrLength] of class [Op] (account.ts, lines 181-185). *)
Definition assertArrLength {S A} (arr : list A) : M S unit :=
  if (List.length arr =? 0)%nat || (Z.of_nat (List.length arr) >? MAX_UINT8 + 1)
  then throw (TealError ASSERT_ARR_LENGTH) else ret tt.

(** The index of [Intc] and of [Bytec] is [Number(args[0])] of an
    argument that their constructors do not check with
    [assertOnlyDigits]: any number.  Of a number that holds no integer,
    the comparison with the bounds of an array sees only between which
    integers it lies. *)
Inductive JsNumber : Set :=
  | JsInteger (z : Z)
  | JsFraction (floor : Z)
  | JsInfinity (negative : bool)
  | JsNaN.

(** [idx >= 0 && idx < arr.length] *)
Definition index_in_bound {A} (idx : JsNumber) (arr : list A) : bool :=
  match idx with
  | JsInteger z | JsFraction z => (z >=? 0) && (z <? Z.of_nat (List.length arr))
  | JsInfinity _ | JsNaN => false
  end.

(** [checkIndexBound] of class [Op] (account.ts, lines 175-179) on such
    a number and an array that is defined. *)
Definition checkIndexBound_number {S A} (idx : JsNumber) (arr : list A) : M S unit :=
  if negb (index_in_bound idx arr)
  then throw (TealError INDEX_OUT_OF_BOUND) else ret tt.

(** [arr[idx]]: [undefined] unless the number holds an integer that is
    an index of the array. *)
Definition element_at {A} (arr : list A) (idx : JsNumber) : option A :=
  match idx with
  | JsInteger z => if z <? 0 then None else arr !! Z.to_nat z
  | _ => None
  end.

Module Bytecblock.
(** [block] is the array the constructor has parsed. *)
Definition execute (block : list (list byte)) : M Machine unit :=
  assertArrLength block ;;;
  modify (fun m => mkMachine (m_stack m) block (intcblock m) (scratch m)).
End Bytecblock.

Module Bytec.
Definition execute (index : JsNumber) : M Machine unit :=
  blk <- gets bytecblock ;;
  checkIndexBound_number index blk ;;;
  match element_at blk index with
  | Some b =>
      bytec <- Op.assertBytes (Bytes b) ;;
      on_m_stack (StackM.push (Bytes bytec))
  | None => throw (TealError INVALID_TYPE)
  end.
End Bytec.

Module Intcblock.
Definition execute (block : list Z) : M Machine unit :=
  assertArrLength block ;;;
  modify (fun m => mkMachine (m_stack m) (bytecblock m) block (scratch m)).
End Intcblock.

Module Intc.
Definition execute (index : JsNumber) : M Machine unit :=
  blk <- gets intcblock ;;
  checkIndexBound_number index blk ;;;
  match element_at blk index with
  | Some n =>
      intc <- Op.assertBigInt (Uint64 n) ;;
      on_m_stack (StackM.push (Uint64 intc))
  | None => throw (TealError INVALID_TYPE)
  end.
End Intc.

Module Store.
Definition execute (index : Z) : M Machine unit :=
  scr <- gets scratch ;;
  Op.checkIndexBound index (Some scr) ;;;
  on_m_stack (Op.assertMinStackLen 1) ;;;
  top <- on_m_stack StackM.pop ;;
  modify (fun m => mkMachine (m_stack m) (bytecblock m) (intcblock m)
                     (<[Z.to_nat index := top]> (scratch m))).
End Store.

(** After the bound check the slot exists; the branch for a missing slot
    is never taken. *)
Module Load.
Definition execute (index : Z) : M Machine unit :=
  scr <- gets scratch ;;
  Op.checkIndexBound index (Some scr) ;;;
  match scr !! Z.to_nat index with
  | Some v => on_m_stack (StackM.push v)
  | None => throw (JsError "undefined scratch slot")
  end.
End Load.

(** ** Opcodes that read the world state (opcode-list.ts) *)

(** As [AppLocalGetEx] and [AppGlobalGetEx] above, these opcodes reach
    the context through [InterpreterM]. *)

Module AppOptedIn.
Definition execute (ctx : Context) : M Stack unit :=
  Op.assertMinStackLen 2 ;;;
  a <- StackM.pop ;;
  appID <- Op.assertBigInt a ;;
  i <- StackM.pop ;;
  accountIndex <- Op.assertBigInt i ;;
  account <- InterpreterM.getAccount ctx accountIndex ;;
  let localState := appsLocalState account in
  match localState !! toNumber appID with
  | Some _ => StackM.push (Uint64 1)
  | None => StackM.push (Uint64 0)
  end.
End AppOptedIn.

Module AppLocalGet.
Definition execute (ctx : Context) : M Stack unit :=
  Op.assertMinStackLen 2 ;;;
  k <- StackM.pop ;;
  key <- Op.assertBytes k ;;
  i <- StackM.pop ;;
  accountIndex <- Op.assertBigInt i ;;
  account <- InterpreterM.getAccount ctx accountIndex ;;
  let appID := default 0 (apid (tx ctx)) in
  let val := StoreAccountM.getLocalState account appID key in
  match val with
  | Some v => if truthy v then StackM.push v else StackM.push (Uint64 0)
  | None => StackM.push (Uint64 0)
  end.
End AppLocalGet.

Module AppGlobalGet.
Definition execute (ctx : Context) : M Stack unit :=
  Op.assertMinStackLen 1 ;;;
  k <- StackM.pop ;;
  key <- Op.assertBytes k ;;
  let appID := default 0 (apid (tx ctx)) in
  val <- InterpreterM.getGlobalState ctx (Some appID) key ;;
  match val with
  | Some v => if truthy v then StackM.push v else StackM.push (Uint64 0)
  | None => StackM.push (Uint64 0)
  end.
End AppGlobalGet.

Module Balance.
Definition execute (ctx : Context) : M Stack unit :=
  Op.assertMinStackLen 1 ;;;
  i <- StackM.pop ;;
  accountIndex <- Op.assertBigInt i ;;
  acc <- InterpreterM.getAccount ctx accountIndex ;;
  StackM.push (Uint64 (amount acc)).
End Balance.

Module MinBalance.
Definition execute (ctx : Context) : M Stack unit :=
  Op.assertMinStackLen 1 ;;;
  i <- StackM.pop ;;
  accountIndex <- Op.assertBigInt i ;;
  acc <- InterpreterM.getAccount ctx accountIndex ;;
  StackM.push (Uint64 (minBalance acc)).
End MinBalance.

Module GetAssetHolding.
(** [field] is the immediate stored by the constructor. *)
Definition execute (field : string) (ctx : Context) : M Stack unit :=
  Op.assertMinStackLen 2 ;;;
  a <- StackM.pop ;;
  assetId <- Op.assertBigInt a ;;
  i <- StackM.pop ;;
  accountIndex <- Op.assertBigInt i ;;
  account <- InterpreterM.getAccount ctx accountIndex ;;
  match assets account !! toNumber assetId with
  | None =>
      StackM.push (Uint64 0) ;;;
      StackM.push (Uint64 0)
  | Some assetInfo =>
      value <- (if String.eqb field "AssetBalance"
                then ret (Uint64 (holding_amount assetInfo))
                else if String.eqb field "AssetFrozen"
                then ret (Uint64 (if is_frozen assetInfo then 1 else 0))
                else throw (RuntimeError INVALID_FIELD_TYPE)) ;;
      StackM.push value ;;;
      StackM.push (Uint64 1)
  end.
End GetAssetHolding.

(** ** Totals of an asset *)

(** The units of asset [assetID] that an account holds, none when it
    has not opted in. *)
Definition holding_of (assetID : Z) (a : StoreAccount) : Z :=
  match assets a !! assetID with
  | Some h => holding_amount h
  | None => 0
  end.

(** The units of asset [assetID] held by all accounts of a state. *)
Definition total_asset (assetID : Z) (s : State) : Z :=
  map_fold (fun _ a sum => holding_of assetID a + sum) 0 (accounts s).

(** ** Values in range *)

(** A stack element is in range when it is a byte string or a u64. *)
Definition elem_in_range (v : StackElem) : Prop :=
  match v with
  | Uint64 n => is_u64 n
  | Bytes _ => True
  end.

Definition stack_in_range (s : Stack) : Prop := Forall elem_in_range (items s).

(** The opcodes on integers and on the shape of the stack whose results
    are compared with the u64 range below; [~] is not among them. *)
Definition ranged_opcodes : list (M Stack unit) :=
  [ Add.execute; Sub.execute; Mul.execute; Div.execute; Mod.execute;
    Addw.execute; Mulw.execute;
    BitwiseOr.execute; BitwiseAnd.execute; BitwiseXor.execute;
    LessThan.execute; GreaterThan.execute; LessThanEqualTo.execute;
    GreaterThanEqualTo.execute; And.execute; Or.execute; Not.execute;
    Btoi.execute; Itob.execute;
    Pop.execute; Dup.execute; Dup2.execute; Swap.execute; Select.execute;
    Assert.execute ].



(** ** A sample world with an asset *)

(** Asset 7 was created by alice, who manages it; bob may freeze it and
    carol may claw it back.  alice, bob and carol have opted in. *)
Module AssetSample.
Definition gold : Z := 7.

Definition gold_def : AssetDef := mkAssetDef 1000 0 false "alice" "alice" "bob" "carol".

Definition alice : StoreAccount :=
  mkStoreAccount "alice" 20000 10000 (<[gold := mkAssetHolding 900 false]> ∅) ∅ ∅
    (<[gold := gold_def]> ∅).

Definition bob : StoreAccount :=
  mkStoreAccount "bob" 10000 10000 (<[gold := mkAssetHolding 100 false]> ∅) ∅ ∅ ∅.

Definition carol : StoreAccount :=
  mkStoreAccount "carol" 10000 10000 (<[gold := mkAssetHolding 0 true]> ∅) ∅ ∅ ∅.

Definition world : State :=
  mkState (<["alice" := alice]> (<["bob" := bob]> (<["carol" := carol]> ∅)))
    ∅ (<[gold := "alice"]> ∅).

Definition send (from to : string) (amt : Z) (close : option string) : ExecParams :=
  mkExecParams (TransferAsset to amt gold) SecretKey (mkAccount from) None
    (mkTxParams (Some 1000) close).

Definition destroy (from : string) : ExecParams :=
  mkExecParams (DestroyAsset gold) SecretKey (mkAccount from) None
    (mkTxParams (Some 1000) None).

Definition context (group : list ExecParams) : Context :=
  mkContext world (Sample.txn_of (default (send "alice" "bob" 0 None) (head group)))
    (map Sample.txn_of group) [].
End AssetSample.

(** ** The array-based account and runtime of algorand-js *)

(** The older classes of packages/algorand-js keep the applications of
    an account in arrays: [StoreAccountImpl] (account.ts, lines 17-145)
    and [Runtime] (runtime.ts).  Of the fields of an account the methods
    embedded here use the address, the balance and the two arrays of
    applications. *)
Module AlgorandJs.

Record SSCParams : Type := mkSSCParams {
  approval_program : string;
  clear_state_program : string;
  creator : AccountAddress;
  global_state : list (list byte * StackElem);
  global_state_schema : SSCSchemaConfig;
  local_state_schema : SSCSchemaConfig
}.

Record CreatedApp : Type := mkCreatedApp {
  created_id : Z;
  created_params : SSCParams
}.

Record AppLocalState : Type := mkAppLocalState {
  local_id : Z;
  key_value : list (list byte * StackElem);
  schema : SSCSchemaConfig
}.

(** The fields of [SSCDeploymentFlags] that [createApp] reads. *)
Record SSCDeploymentFlags : Set := mkSSCDeploymentFlags {
  sender : Account;
  localInts : Z;
  localBytes : Z;
  globalInts : Z;
  globalBytes : Z
}.

Record StoreAccountImpl : Type := mkStoreAccountImpl {
  address : AccountAddress;
  amount : Z;
  appsLocalState : list AppLocalState;
  createdApps : list CreatedApp
}.

Definition balance (a : StoreAccountImpl) : Z := amount a.

(** [console.log] and [console.warn] have no effect on the account. *)
Definition createApp (appId : Z) (params : SSCDeploymentFlags)
  : M StoreAccountImpl CreatedApp := fun this =>
  if (List.length (createdApps this) =? 10)%nat
  then (Err (JsError "Maximum created applications for an account is 10"), this)
  else
    let appParams :=
      mkSSCParams EmptyString EmptyString (addr (sender params)) []
        (mkSchema (globalBytes params) (globalInts params))
        (mkSchema (localBytes params) (localInts params)) in
    let newApp := mkCreatedApp appId appParams in
    (Ok newApp,
     mkStoreAccountImpl (address this) (amount this) (appsLocalState this)
       (createdApps this ++ [newApp])).

Definition optInToApp (appId : Z) (appParams : SSCParams)
  : M StoreAccountImpl unit := fun this =>
  let localState := find (fun cfg => local_id cfg =? appId) (appsLocalState this) in
  match localState with
  | Some _ => (Ok tt, this)
  | None =>
      if (List.length (appsLocalState this) =? 10)%nat
      then (Err (JsError "Maximum Opt In applications per account is 10"), this)
      else
        let localParams := mkAppLocalState appId [] (local_state_schema appParams) in
        (Ok tt,
         mkStoreAccountImpl (address this) (amount this)
           (appsLocalState this ++ [localParams]) (createdApps this))
  end.

(** Class [Runtime] of runtime.ts.  [updateBalance] mutates the account
    it is given and cannot throw; the function yields the account after
    the call.  In [switch (account.address)] the case of the sender
    comes first. *)
Module Runtime.

End Runtime.



End AlgorandJs.

(** ** Groups of payments *)



(** ** Building a runtime (opcode-list.ts, lines 2626-2646 and 2767-2779) *)

Module NewRuntime.
(** [m.keys()]: each key of the [Map] once. *)
Definition keys {V} (m : gmap Z V) : list Z := (map_to_list m).*1.

Definition initializeAccounts (accountList : list StoreAccount) : M Runtime unit :=
  for_of (fun acc =>
            on_store (modify (fun s =>
              set_accounts (<[address acc := acc]> (accounts s)) s)) ;;;
            for_of (fun appId =>
                      on_store (modify (fun s =>
                        set_globalApps (<[appId := address acc]> (globalApps s)) s)))
              (keys (createdApps acc)) ;;;
            for_of (fun assetId =>
                      on_store (modify (fun s =>
                        mkState (accounts s) (globalApps s)
                          (<[assetId := address acc]> (assetDefs s)))))
              (keys (createdAssets acc)))
    accountList.

(** The object under construction once [this.store] has been assigned:
    the store is a new object without accounts, and the fields assigned
    after it are not set yet. *)
Definition allocated : Runtime :=
  mkRuntime [empty_State] 0 (mkRuntimeContext 0 empty_Txn [] []) 0 ∅.

Definition constructor (accountList : list StoreAccount) : M Runtime unit :=
  initializeAccounts accountList ;;;
  state <- cloneDeep_store ;;
  modify (fun this =>
    mkRuntime (heap this) (store this) (mkRuntimeContext state empty_Txn [] []) 0 ∅).

(** [new Runtime(accounts)] *)
Definition new (accountList : list StoreAccount) : Runtime :=
  Datatypes.snd (constructor accountList allocated).

(** What one turn of the loop of [initializeAccounts] does to the
    object that [this.store] points to. *)
Definition register (acc : StoreAccount) : M State unit :=
  modify (fun s => set_accounts (<[address acc := acc]> (accounts s)) s) ;;;
  for_of (fun appId =>
            modify (fun s =>
              set_globalApps (<[appId := address acc]> (globalApps s)) s))
    (keys (createdApps acc)) ;;;
  for_of (fun assetId =>
            modify (fun s =>
              mkState (accounts s) (globalApps s)
                (<[assetId := address acc]> (assetDefs s))))
    (keys (createdAssets acc)).
End NewRuntime.

(** * Properties *)

(** ** Helper lemmas on bytes and big-endian integers *)

Lemma byte_to_Z_range (b : byte) : 0 <= byte_to_Z b < 256.
Proof.
  unfold byte_to_Z. pose proof (Byte.to_N_bounded b). lia.
Qed.

Lemma Z_to_byte_to_Z (z : Z) : byte_to_Z (Z_to_byte z) = z mod 256.
Proof.
  unfold Z_to_byte, byte_to_Z.
  assert (Hr : 0 <= z mod 256 < 256) by (apply Z.mod_pos_bound; lia).
  destruct (Byte.of_N (Z.to_N (z mod 256))) as [b|] eqn:E.
  - apply Byte.to_of_N in E. rewrite E. lia.
  - apply Byte.of_N_None_iff in E. lia.
Qed.

Lemma byte_to_Z_to_byte (b : byte) : Z_to_byte (byte_to_Z b) = b.
Proof.
  unfold Z_to_byte. pose proof (byte_to_Z_range b) as Hr.
  rewrite Z.mod_small by lia. unfold byte_to_Z.
  rewrite N2Z.id, Byte.of_to_N. reflexivity.
Qed.

Lemma be_value_app (l1 l2 : list byte) (acc : Z) :
  fold_left (fun a b => a * 256 + byte_to_Z b) (l1 ++ l2) acc
  = fold_left (fun a b => a * 256 + byte_to_Z b) l2
      (fold_left (fun a b => a * 256 + byte_to_Z b) l1 acc).
Proof. apply fold_left_app. Qed.

Lemma be_value_snoc (l : list byte) (b : byte) :
  be_value (l ++ [b]) = be_value l * 256 + byte_to_Z b.
Proof. unfold be_value. rewrite fold_left_app. reflexivity. Qed.

Lemma be_bytes_length (n : nat) (x : Z) : List.length (be_bytes n x) = n.
Proof.
  revert x. induction n as [|n IH]; intros x; simpl; [reflexivity|].
  rewrite length_app, IH. simpl. lia.
Qed.

(** Decoding what was encoded on [n] bytes gives the number modulo
    [256^n]. *)
Lemma be_value_be_bytes (n : nat) (x : Z) :
  0 <= x -> be_value (be_bytes n x) = x mod 256 ^ Z.of_nat n.
Proof.
  revert x. induction n as [|n IH]; intros x Hx.
  - simpl. rewrite Z.mod_1_r. reflexivity.
  - cbn [be_bytes]. rewrite be_value_snoc, IH, Z_to_byte_to_Z
      by (apply Z.div_pos; lia).
    rewrite Nat2Z.inj_succ, Z.pow_succ_r by lia.
    rewrite (Z.rem_mul_r x 256 (256 ^ Z.of_nat n)) by lia. lia.
Qed.

Lemma be_value_range (l : list byte) :
  0 <= be_value l < 256 ^ Z.of_nat (List.length l).
Proof.
  induction l as [|b l IH] using rev_ind.
  - cbn. lia.
  - rewrite be_value_snoc, length_app. cbn [List.length].
    replace (Z.of_nat (List.length l + 1)) with (Z.succ (Z.of_nat (List.length l))) by lia.
    rewrite Z.pow_succ_r by lia.
    pose proof (byte_to_Z_range b). nia.
Qed.

(** Encoding the value of a byte string on its own length gives the
    string back. *)
Lemma be_bytes_be_value (l : list byte) :
  be_bytes (List.length l) (be_value l) = l.
Proof.
  induction l as [|b l IH] using rev_ind; [reflexivity|].
  rewrite length_app, Nat.add_comm. cbn [List.length Nat.add be_bytes].
  rewrite be_value_snoc.
  pose proof (byte_to_Z_range b) as Hb.
  replace ((be_value l * 256 + byte_to_Z b) / 256) with (be_value l)
    by (apply Z.div_unique with (r := byte_to_Z b); lia).
  rewrite IH. f_equal. f_equal.
  unfold Z_to_byte.
  replace ((be_value l * 256 + byte_to_Z b) mod 256) with (byte_to_Z b)
    by (apply Z.mod_unique with (q := be_value l); lia).
  unfold byte_to_Z. rewrite N2Z.id, Byte.of_to_N. reflexivity.
Qed.

(** ** Running stack code symbolically *)

Lemma push_ok (x : StackElem) (cap : option nat) (l : list StackElem) :
  has_room cap l ->
  StackM.push x (mkStack cap l) = (Ok tt, mkStack cap (x :: l)).
Proof.
  unfold has_room, StackM.push. cbn. destruct cap as [c|]; [|reflexivity].
  intros H. destruct (Nat.eqb_spec (List.length l) c); [lia|reflexivity].
Qed.

Lemma wf_has_room (cap : option nat) (x : StackElem) (l : list StackElem) :
  stack_wf (mkStack cap (x :: l)) -> has_room cap l.
Proof. unfold stack_wf, has_room. cbn. destruct cap; [lia|trivial]. Qed.

Lemma has_room_tail (cap : option nat) (x : StackElem) (l : list StackElem) :
  has_room cap (x :: l) -> has_room cap l.
Proof. unfold has_room. cbn. destruct cap; [lia|trivial]. Qed.

(** The monad laws, pointwise. *)
Lemma bind_ret_l {S A B} (a : A) (k : A -> M S B) (s : S) :
  bind (ret a) k s = k a s.
Proof. reflexivity. Qed.

Lemma bind_ret_r {S A} (c : M S A) (s : S) : bind c ret s = c s.
Proof. unfold bind, ret. destruct (c s) as [[a|e] s']; reflexivity. Qed.

Lemma bind_assoc {S A B C} (c : M S A) (k : A -> M S B) (h : B -> M S C) (s : S) :
  bind (bind c k) h s = bind c (fun a => bind (k a) h) s.
Proof. unfold bind. destruct (c s) as [[a|e] s']; reflexivity. Qed.

Lemma bind_Ok {S A B} (c : M S A) (k : A -> M S B) (s s' : S) (a : A) :
  c s = (Ok a, s') -> bind c k s = k a s'.
Proof. unfold bind. intros ->. reflexivity. Qed.

Lemma bind_Err {S A B} (c : M S A) (k : A -> M S B) (s s' : S) (e : Error) :
  c s = (Err e, s') -> bind c k s = (Err e, s').
Proof. unfold bind. intros ->. reflexivity. Qed.

Lemma push_bind {B} (x : StackElem) (cap : option nat) (l : list StackElem)
    (k : unit -> M Stack B) :
  has_room cap l ->
  bind (StackM.push x) k (mkStack cap l) = k tt (mkStack cap (x :: l)).
Proof. intros H. apply bind_Ok, push_ok, H. Qed.

Ltac solve_room :=
  unfold has_room, stack_wf in *;
  match goal with
  | cap : option nat |- _ => destruct cap; cbn in *; [lia | trivial]
  end.

Ltac run_step :=
  first
    [ rewrite push_bind by solve_room
    | rewrite push_ok by solve_room
    | progress cbn [bind ret throw StackM.pop StackM.length Op.assertBigInt
                    Op.assertBytes items capacity List.length Nat.ltb Nat.leb
                    fst snd] ].

Ltac run := unfold Op.assertMinStackLen; repeat run_step.

(** ** Wide arithmetic *)

Lemma MAX_UINT64_ones : MAX_UINT64 = Z.ones 64.
Proof. reflexivity. Qed.

(** C4. For u64 operands [a] and [b], addw pushes the carry and then
    the sum: carry 1 and [(a + b) mod 2^64] when [a + b] exceeds
    [MAX_UINT64], carry 0 and [a + b] otherwise. *)
Theorem addw_carry_and_sum (cap : option nat) (rest : list StackElem) (a b : Z) :
  is_u64 a -> is_u64 b ->
  stack_wf (mkStack cap (Uint64 a :: Uint64 b :: rest)) ->
  (a + b > MAX_UINT64 ->
     Addw.execute (mkStack cap (Uint64 a :: Uint64 b :: rest))
     = (Ok tt, mkStack cap (Uint64 ((a + b) mod 2 ^ 64) :: Uint64 1 :: rest)))
  /\ (a + b <= MAX_UINT64 ->
     Addw.execute (mkStack cap (Uint64 a :: Uint64 b :: rest))
     = (Ok tt, mkStack cap (Uint64 (a + b) :: Uint64 0 :: rest))).
Proof.
  intros Ha Hb Hwf.
  unfold is_u64, MAX_UINT64 in Ha, Hb.
  split; intros Hc; unfold Addw.execute; run.
  - destruct (Z.gtb_spec (a + b) MAX_UINT64) as [_|Hn];
      [|unfold MAX_UINT64 in *; lia].
    run. unfold MAX_UINT64 in *. repeat f_equal.
    apply Z.mod_unique with (q := 1); lia.
  - destruct (Z.gtb_spec (a + b) MAX_UINT64) as [Hn|_];
      [unfold MAX_UINT64 in *; lia|].
    run. reflexivity.
Qed.

Lemma addw_carry_and_sum_witness :
  Addw.execute (mkStack None [Uint64 MAX_UINT64; Uint64 3])
  = (Ok tt, mkStack None [Uint64 2; Uint64 1]).
Proof.
  apply (proj1 (addw_carry_and_sum None [] MAX_UINT64 3
                  ltac:(unfold is_u64, MAX_UINT64; lia)
                  ltac:(unfold is_u64, MAX_UINT64; lia)
                  I)).
  unfold MAX_UINT64; lia.
Defined.

(** C9. For u64 operands mulw never fails: the low word
    [product & MAX_UINT64] and the high word [product >> 64] are both
    u64, so neither [checkOverflow] throws and both words are pushed,
    the high word first. *)
Theorem mulw_never_fails (cap : option nat) (rest : list StackElem) (a b : Z) :
  is_u64 a -> is_u64 b ->
  stack_wf (mkStack cap (Uint64 a :: Uint64 b :: rest)) ->
  let low := Z.land (a * b) MAX_UINT64 in
  let high := Z.shiftr (a * b) 64 in
  is_u64 low /\ is_u64 high
  /\ low = (a * b) mod 2 ^ 64 /\ high = (a * b) / 2 ^ 64
  /\ Mulw.execute (mkStack cap (Uint64 a :: Uint64 b :: rest))
     = (Ok tt, mkStack cap (Uint64 low :: Uint64 high :: rest)).
Proof.
  intros Ha Hb Hwf low high.
  assert (Hlow : low = (a * b) mod 2 ^ 64).
  { subst low. rewrite MAX_UINT64_ones, Z.land_ones by lia. reflexivity. }
  assert (Hhigh : high = (a * b) / 2 ^ 64).
  { subst high. rewrite Z.shiftr_div_pow2 by lia. reflexivity. }
  assert (Hl : is_u64 low).
  { rewrite Hlow. unfold is_u64, MAX_UINT64.
    pose proof (Z.mod_pos_bound (a * b) (2 ^ 64) ltac:(lia)). lia. }
  assert (Hh : is_u64 high).
  { rewrite Hhigh. unfold is_u64, MAX_UINT64 in *. split.
    - apply Z.div_pos; nia.
    - assert (a * b / 2 ^ 64 < 2 ^ 64); [|lia].
      apply Z.div_lt_upper_bound; nia. }
  repeat split; try assumption; try apply Hl; try apply Hh.
  unfold Mulw.execute, Op.checkOverflow. run.
  fold low high.
  destruct (Z.gtb_spec low MAX_UINT64) as [Hn|_]; [destruct Hl; lia|].
  run.
  destruct (Z.gtb_spec high MAX_UINT64) as [Hn|_]; [destruct Hh; lia|].
  run. reflexivity.
Qed.

Lemma mulw_never_fails_witness :
  Mulw.execute (mkStack None [Uint64 4581298449; Uint64 9162596898])
  = (Ok tt, mkStack None [Uint64 5083102810200507970; Uint64 2]).
Proof.
  apply (mulw_never_fails None [] 4581298449 9162596898
           ltac:(unfold is_u64, MAX_UINT64; lia)
           ltac:(unfold is_u64, MAX_UINT64; lia)
           I).
Defined.

(** ** itob and btoi *)

Lemma encodeUint64_ok {S} (x : Z) (s : S) :
  is_u64 x -> encodeUint64 x s = (Ok (be_bytes 8 x), s).
Proof.
  unfold is_u64, encodeUint64. intros [H0 H1].
  destruct (Z.ltb_spec x 0); [lia|].
  destruct (Z.gtb_spec x MAX_UINT64); [lia|]. reflexivity.
Qed.

Lemma decodeUint64_8 {S} (b : list byte) (s : S) :
  List.length b = 8%nat -> decodeUint64 b s = (Ok (be_value b), s).
Proof. unfold decodeUint64. intros ->. reflexivity. Qed.

(** C8. itob and btoi are mutually inverse: running itob and then btoi
    on a u64 [x] leaves [x] on the stack, and running btoi and then itob
    on a byte string of length 8 leaves that byte string. *)
Theorem itob_btoi_inverse :
  (forall (cap : option nat) (rest : list StackElem) (x : Z),
      is_u64 x ->
      stack_wf (mkStack cap (Uint64 x :: rest)) ->
      (Itob.execute ;;; Btoi.execute) (mkStack cap (Uint64 x :: rest))
      = (Ok tt, mkStack cap (Uint64 x :: rest)))
  /\ (forall (cap : option nat) (rest : list StackElem) (s : list byte),
      List.length s = 8%nat ->
      stack_wf (mkStack cap (Bytes s :: rest)) ->
      (Btoi.execute ;;; Itob.execute) (mkStack cap (Bytes s :: rest))
      = (Ok tt, mkStack cap (Bytes s :: rest))).
Proof.
  split.
  - intros cap rest x Hx Hwf.
    assert (Hi : Itob.execute (mkStack cap (Uint64 x :: rest))
                 = (Ok tt, mkStack cap (Bytes (be_bytes 8 x) :: rest))).
    { unfold Itob.execute. run.
      rewrite (bind_Ok _ _ _ _ _ (encodeUint64_ok x _ Hx)). run. reflexivity. }
    rewrite (bind_Ok _ _ _ _ _ Hi).
    unfold Btoi.execute. run.
    rewrite (bind_Ok _ _ _ _ _
               (decodeUint64_8 (be_bytes 8 x) _ (be_bytes_length 8 x))).
    run. rewrite be_value_be_bytes by apply Hx.
    rewrite Z.mod_small; [reflexivity|].
    unfold is_u64, MAX_UINT64 in Hx. cbn. lia.
  - intros cap rest s Hs Hwf.
    assert (Hb : Btoi.execute (mkStack cap (Bytes s :: rest))
                 = (Ok tt, mkStack cap (Uint64 (be_value s) :: rest))).
    { unfold Btoi.execute. run.
      rewrite (bind_Ok _ _ _ _ _ (decodeUint64_8 s _ Hs)). run. reflexivity. }
    rewrite (bind_Ok _ _ _ _ _ Hb).
    assert (Hu : is_u64 (be_value s)).
    { pose proof (be_value_range s) as Hr. rewrite Hs in Hr.
      unfold is_u64, MAX_UINT64. cbn in Hr. lia. }
    unfold Itob.execute. run.
    rewrite (bind_Ok _ _ _ _ _ (encodeUint64_ok (be_value s) _ Hu)). run.
    rewrite <- Hs at 1. rewrite be_bytes_be_value. reflexivity.
Qed.

Lemma itob_btoi_inverse_witness :
  (Itob.execute ;;; Btoi.execute) (mkStack None [Uint64 4])
  = (Ok tt, mkStack None [Uint64 4])
  /\ (Btoi.execute ;;; Itob.execute)
       (mkStack None [Bytes [x00; x00; x00; x00; x00; x00; x01; x02]])
     = (Ok tt, mkStack None [Bytes [x00; x00; x00; x00; x00; x00; x01; x02]]).
Proof.
  split.
  - apply (proj1 itob_btoi_inverse None [] 4);
      [unfold is_u64, MAX_UINT64; lia | exact I].
  - apply (proj2 itob_btoi_inverse None []
             [x00; x00; x00; x00; x00; x00; x01; x02]);
      [reflexivity | exact I].
Defined.

(** ** substring *)

Lemma toNumber_safe (x : Z) : 0 <= x < 2 ^ 53 -> toNumber x = x.
Proof.
  intros [H0 H1]. unfold toNumber.
  destruct (Z.ltb_spec (Z.log2 x) 53) as [_|Hge]; [reflexivity|].
  exfalso. destruct (Z.eq_dec x 0) as [->|Hne]; [cbn in Hge; lia|].
  apply Z.log2_lt_pow2 in H1; lia.
Qed.

Lemma slice_length (a b : Z) (s : list byte) :
  0 <= a <= b -> b <= Z.of_nat (List.length s) ->
  List.length (Op.slice a b s) = Z.to_nat (b - a).
Proof.
  intros Hab Hb. unfold Op.slice.
  rewrite length_firstn, length_skipn. lia.
Qed.

Lemma slice_lookup (a b : Z) (s : list byte) (i : nat) :
  0 <= a <= b -> (i < Z.to_nat (b - a))%nat ->
  Op.slice a b s !! i = s !! (Z.to_nat a + i)%nat.
Proof.
  intros Hab Hi. unfold Op.slice.
  rewrite lookup_take_lt by lia. apply lookup_drop.
Qed.

(** C7. [substring(s, a, b)] fails with SUBSTRING_END_BEFORE_START
    when [a > b], fails with SUBSTRING_RANGE_BEYOND when [a <= b] and
    [b > len(s)], and otherwise yields the bytes of [s] from index [a] up
    to but not including [b]; [substring3] pushes that result for the
    indices it pops, and [substring] for its two immediates. *)
Theorem substring_contract (s : list byte) (a b : Z) :
  0 <= a -> 0 <= b -> Z.of_nat (List.length s) < 2 ^ 53 ->
  (forall (S : Type) (st : S),
      (a > b ->
         Op.subString a b s st = (Err (TealError SUBSTRING_END_BEFORE_START), st))
      /\ (a <= b -> b > Z.of_nat (List.length s) ->
         Op.subString a b s st = (Err (TealError SUBSTRING_RANGE_BEYOND), st))
      /\ (a <= b -> b <= Z.of_nat (List.length s) ->
         Op.subString a b s st = (Ok (Op.slice a b s), st)
         /\ List.length (Op.slice a b s) = Z.to_nat (b - a)
         /\ forall i, (i < Z.to_nat (b - a))%nat ->
              Op.slice a b s !! i = s !! (Z.to_nat a + i)%nat))
  /\ (forall (cap : option nat) (rest : list StackElem),
      let st := mkStack cap (Bytes s :: Uint64 b :: Uint64 a :: rest) in
      stack_wf st ->
      (a > b ->
         fst (Substring3.execute st) = Err (TealError SUBSTRING_END_BEFORE_START))
      /\ (a <= b -> b > Z.of_nat (List.length s) ->
         fst (Substring3.execute st) = Err (TealError SUBSTRING_RANGE_BEYOND))
      /\ (a <= b -> b <= Z.of_nat (List.length s) ->
         Substring3.execute st
         = (Ok tt, mkStack cap (Bytes (Op.slice a b s) :: rest))))
  /\ (forall (cap : option nat) (rest : list StackElem),
      let st := mkStack cap (Bytes s :: rest) in
      stack_wf st -> a <= MAX_UINT8 -> b <= MAX_UINT8 ->
      (a > b ->
         fst (Substring.execute a b st) = Err (TealError SUBSTRING_END_BEFORE_START))
      /\ (a <= b -> b > Z.of_nat (List.length s) ->
         fst (Substring.execute a b st) = Err (TealError SUBSTRING_RANGE_BEYOND))
      /\ (a <= b -> b <= Z.of_nat (List.length s) ->
         Substring.execute a b st
         = (Ok tt, mkStack cap (Bytes (Op.slice a b s) :: rest)))).
Proof.
  intros Ha Hb Hlen.
  assert (Hsub : forall (S : Type) (st : S),
      (a > b ->
         Op.subString a b s st = (Err (TealError SUBSTRING_END_BEFORE_START), st))
      /\ (a <= b -> b > Z.of_nat (List.length s) ->
         Op.subString a b s st = (Err (TealError SUBSTRING_RANGE_BEYOND), st))
      /\ (a <= b -> b <= Z.of_nat (List.length s) ->
         Op.subString a b s st = (Ok (Op.slice a b s), st))).
  { intros S st. unfold Op.subString. repeat split.
    - intros H. destruct (Z.ltb_spec b a); [reflexivity|lia].
    - intros H1 H2. destruct (Z.ltb_spec b a); [lia|].
      destruct (Z.gtb_spec b (Z.of_nat (List.length s))); [|lia].
      rewrite orb_true_r. reflexivity.
    - intros H1 H2. destruct (Z.ltb_spec b a); [lia|].
      destruct (Z.gtb_spec a (Z.of_nat (List.length s))); [lia|].
      destruct (Z.gtb_spec b (Z.of_nat (List.length s))); [lia|].
      cbn [orb]. rewrite !toNumber_safe by lia. reflexivity. }
  split; [|split].
  - intros S st. destruct (Hsub S st) as (H1 & H2 & H3).
    split; [exact H1|]. split; [exact H2|]. intros Hab Hle.
    split; [exact (H3 Hab Hle)|]. split.
    + apply slice_length; lia.
    + intros i Hi. apply slice_lookup; lia.
  - intros cap rest st Hwf. subst st.
    pose proof (Hsub Stack (mkStack cap rest)) as (H1 & H2 & H3).
    unfold Substring3.execute. repeat split.
    + intros H. run. rewrite (bind_Err _ _ _ _ _ (H1 H)). reflexivity.
    + intros Hab H. run. rewrite (bind_Err _ _ _ _ _ (H2 Hab H)). reflexivity.
    + intros Hab H. run. rewrite (bind_Ok _ _ _ _ _ (H3 Hab H)). run.
      reflexivity.
  - intros cap rest st Hwf Ha8 Hb8. subst st.
    pose proof (Hsub Stack (mkStack cap rest)) as (H1 & H2 & H3).
    assert (Hu : forall x, 0 <= x -> x <= MAX_UINT8 ->
                 @Op.assertUint8 Stack x = ret x).
    { intros x Hx0 Hx1. unfold Op.assertUint8, MIN_UINT8.
      destruct (Z.ltb_spec x 0); [lia|].
      destruct (Z.gtb_spec x MAX_UINT8); [lia|]. reflexivity. }
    unfold Substring.execute. rewrite !Hu by assumption. repeat split.
    + intros H. run. rewrite (bind_Err _ _ _ _ _ (H1 H)). reflexivity.
    + intros Hab H. run. rewrite (bind_Err _ _ _ _ _ (H2 Hab H)). reflexivity.
    + intros Hab H. run. rewrite (bind_Ok _ _ _ _ _ (H3 Hab H)). run.
      reflexivity.
Qed.

(** ** The _ex opcodes *)

Lemma push_flag_pair (cap : option nat) (rest : list StackElem)
    (x y z : StackElem) (v f : StackElem) :
  stack_wf (mkStack cap (x :: y :: rest)) ->
  (StackM.push v ;;; StackM.push f) (mkStack cap rest)
  = (Ok tt, mkStack cap (f :: v :: rest)).
Proof. intros Hwf. run. reflexivity. Qed.

(** What both opcodes do once the lookup has answered [val]. *)
Lemma did_exist_pushes (cap : option nat) (rest : list StackElem)
    (x y : StackElem) (val : option StackElem) :
  stack_wf (mkStack cap (x :: y :: rest)) ->
  exists flag v,
    match val with
    | Some v =>
        if truthy v then StackM.push v ;;; StackM.push (Uint64 1)
        else StackM.push (Uint64 0) ;;; StackM.push (Uint64 0)
    | None => StackM.push (Uint64 0) ;;; StackM.push (Uint64 0)
    end (mkStack cap rest)
    = (Ok tt, mkStack cap (Uint64 flag :: v :: rest))
    /\ (flag = 0 \/ flag = 1)
    /\ (val = None -> flag = 0)
    /\ (forall w, val = Some w -> w <> Uint64 0 -> flag = 1 /\ v = w)
    /\ (flag = 1 -> val = Some v)
    /\ (flag = 0 -> v = Uint64 0).
Proof.
  intros Hwf. destruct val as [w|].
  - destruct (truthy w) eqn:Ht.
    + exists 1, w. rewrite (push_flag_pair cap rest x y x) by assumption.
      repeat split; auto; try congruence; try lia.
    + exists 0, (Uint64 0).
      rewrite (push_flag_pair cap rest x y x) by assumption.
      assert (Hw : w = Uint64 0).
      { destruct w as [n|b]; cbn in Ht; [|discriminate].
        destruct (Z.eqb_spec n 0); [subst; reflexivity|discriminate]. }
      repeat split; auto; try congruence; try lia.
  - exists 0, (Uint64 0). rewrite (push_flag_pair cap rest x y x) by assumption.
    repeat split; auto; try congruence; try lia.
Qed.

(** C6 (as amended). app_local_get_ex and app_global_get_ex push the
    value and then, on top of it, a did_exist flag that is 0 or 1.  The
    flag is 0 when the key is missing from the addressed state, it is 1
    when the key is present with a value other than [Uint64 0], a flag of
    1 comes with the stored value, and a flag of 0 comes with
    [Uint64 0]. *)
Theorem ex_opcodes_did_exist_flag (ctx : Context) (cap : option nat)
    (rest : list StackElem) (key : list byte) :
  (forall (appID accountIndex : Z) (account : StoreAccount),
      stack_wf (mkStack cap (Bytes key :: Uint64 appID :: Uint64 accountIndex :: rest)) ->
      InterpreterM.getAccount ctx accountIndex (mkStack cap rest)
        = (Ok account, mkStack cap rest) ->
      let val := StoreAccountM.getLocalState account (toNumber appID) key in
      exists flag v,
        AppLocalGetEx.execute ctx
          (mkStack cap (Bytes key :: Uint64 appID :: Uint64 accountIndex :: rest))
        = (Ok tt, mkStack cap (Uint64 flag :: v :: rest))
        /\ (flag = 0 \/ flag = 1)
        /\ (val = None -> flag = 0)
        /\ (forall w, val = Some w -> w <> Uint64 0 -> flag = 1 /\ v = w)
        /\ (flag = 1 -> val = Some v)
        /\ (flag = 0 -> v = Uint64 0))
  /\ (forall (appIndex : Z) (appID : option Z) (val : option StackElem),
      stack_wf (mkStack cap (Bytes key :: Uint64 appIndex :: rest)) ->
      (if appIndex =? 0 then appID = apid (tx ctx)
       else exists l, apfa (tx ctx) = Some l
                      /\ 0 <= toNumber (appIndex - 1) < Z.of_nat (List.length l)
                      /\ appID = l !! Z.to_nat (toNumber (appIndex - 1))) ->
      InterpreterM.getGlobalState ctx appID key (mkStack cap rest)
        = (Ok val, mkStack cap rest) ->
      exists flag v,
        AppGlobalGetEx.execute ctx (mkStack cap (Bytes key :: Uint64 appIndex :: rest))
        = (Ok tt, mkStack cap (Uint64 flag :: v :: rest))
        /\ (flag = 0 \/ flag = 1)
        /\ (val = None -> flag = 0)
        /\ (forall w, val = Some w -> w <> Uint64 0 -> flag = 1 /\ v = w)
        /\ (flag = 1 -> val = Some v)
        /\ (flag = 0 -> v = Uint64 0)).
Proof.
  split.
  - intros appID accountIndex account Hwf Hacc val.
    destruct (did_exist_pushes cap rest (Bytes key) (Uint64 appID) val)
      as (flag & v & Hrun & Hrest).
    { unfold stack_wf in *. destruct cap; cbn in *; [lia|trivial]. }
    exists flag, v. split; [|exact Hrest].
    unfold AppLocalGetEx.execute. run.
    rewrite (bind_Ok _ _ _ _ _ Hacc). exact Hrun.
  - intros appIndex appID val Hwf Hid Hget.
    destruct (did_exist_pushes cap rest (Bytes key) (Uint64 appIndex) val)
      as (flag & v & Hrun & Hrest); [exact Hwf|].
    exists flag, v. split; [|exact Hrest].
    unfold AppGlobalGetEx.execute. run.
    assert (Hres : (if appIndex =? 0 then ret (apid (tx ctx))
                    else Op.checkIndexBound (toNumber (appIndex - 1)) (apfa (tx ctx)) ;;;
                         ret (match apfa (tx ctx) with
                              | Some l => l !! Z.to_nat (toNumber (appIndex - 1))
                              | None => None
                              end)) (mkStack cap rest)
                   = (Ok appID, mkStack cap rest)).
    { destruct (appIndex =? 0); [subst; reflexivity|].
      destruct Hid as (l & Hl & Hrange & ->). rewrite Hl.
      unfold Op.checkIndexBound.
      destruct (Z.geb_spec (toNumber (appIndex - 1)) 0); [|lia].
      destruct (Z.ltb_spec (toNumber (appIndex - 1)) (Z.of_nat (List.length l)));
        [|lia].
      reflexivity. }
    rewrite (bind_Ok _ _ _ _ _ Hres), (bind_Ok _ _ _ _ _ Hget). exact Hrun.
Qed.

(** ** Balances *)

Lemma total_algos_insert (s : State) (k : string) (a a' : StoreAccount) :
  accounts s !! k = Some a ->
  total_algos (set_accounts (<[k := a']> (accounts s)) s)
  = total_algos s - amount a + amount a'.
Proof.
  intros Hk. unfold total_algos. cbn [accounts set_accounts].
  rewrite <- (insert_delete_id (accounts s) k a Hk) at 2.
  rewrite <- (insert_delete_eq (accounts s) k a').
  rewrite !map_fold_insert_L; try apply lookup_delete_eq; intros; lia.
Qed.

Lemma total_algos_put_account (c : Context) (k : string) (a a' : StoreAccount) :
  accounts (state c) !! k = Some a ->
  total_algos (state (put_account k a' c))
  = total_algos (state c) - amount a + amount a'.
Proof. intros Hk. unfold put_account. cbn [state set_state]. now apply total_algos_insert. Qed.

Lemma lookup_put_account (c : Context) (k j : string) (a : StoreAccount) :
  accounts (state (put_account k a c)) !! j
  = if decide (k = j) then Some a else accounts (state c) !! j.
Proof. unfold put_account. cbn. apply lookup_insert. Qed.

Lemma getAccount_eq (c : Context) (k : string) :
  Ctx.getAccount k c
  = match accounts (state c) !! k with
    | Some a => (Ok a, c)
    | None => (Err (RuntimeError ACCOUNT_DOES_NOT_EXIST), c)
    end.
Proof.
  unfold Ctx.getAccount, bind, gets, Asserts.assertAccountDefined.
  destruct (accounts (state c) !! k); reflexivity.
Qed.

Lemma on_account_modify (c : Context) (k : string) (f : StoreAccount -> StoreAccount) :
  on_account k (modify f) c
  = match accounts (state c) !! k with
    | Some a => (Ok tt, put_account k (f a) c)
    | None => (Err (JsError "TypeError: cannot read properties of undefined"), c)
    end.
Proof. unfold on_account, modify. destruct (accounts (state c) !! k); reflexivity. Qed.

(** *** Arithmetic on numbers *)

Lemma Number_of_safe (z : Z) : safe_integer z -> Number_of z = z.
Proof.
  unfold safe_integer, Number_of. intros H.
  destruct (Z.ltb_spec z 0).
  - rewrite toNumber_safe by lia. lia.
  - apply toNumber_safe. lia.
Qed.

Lemma num_sub_safe (a b : Z) : safe_integer (a - b) -> num_sub a b = a - b.
Proof. apply Number_of_safe. Qed.

Lemma num_add_safe (a b : Z) : safe_integer (a + b) -> num_add a b = a + b.
Proof. apply Number_of_safe. Qed.

(** Rounding keeps the sign. *)
Lemma toNumber_pos (b : Z) : 0 < b -> 0 < toNumber b.
Proof.
  intros Hb. unfold toNumber.
  destruct (Z.ltb_spec (Z.log2 b) 53) as [|He]; [assumption|].
  set (sh := Z.log2 b - 52).
  assert (Hsh : 0 < sh) by (subst sh; lia).
  assert (Hq : 0 < Z.shiftr b sh).
  { rewrite Z.shiftr_div_pow2 by lia. apply Z.div_str_pos. split.
    - apply Z.pow_pos_nonneg; lia.
    - apply Z.le_trans with (2 ^ Z.log2 b); [|apply Z.log2_spec, Hb].
      apply Z.pow_le_mono_r; subst sh; lia. }
  rewrite Z.shiftl_mul_pow2 by lia.
  apply Z.mul_pos_pos; [|apply Z.pow_pos_nonneg; lia].
  destruct ((2 ^ (sh - 1) <? Z.land b (2 ^ sh - 1))
            || (Z.land b (2 ^ sh - 1) =? 2 ^ (sh - 1)) && Z.odd (Z.shiftr b sh)); lia.
Qed.

Lemma num_sub_neg (a b : Z) : a < b -> num_sub a b < 0.
Proof.
  intros H. unfold num_sub, Number_of.
  destruct (Z.ltb_spec (a - b) 0); [|lia].
  pose proof (toNumber_pos (- (a - b)) ltac:(lia)). lia.
Qed.

(** *** Sums of balances *)

Lemma total_algos_split (s : State) (k : string) (a : StoreAccount) :
  accounts s !! k = Some a ->
  total_algos s
  = amount a + total_algos (set_accounts (delete k (accounts s)) s).
Proof.
  intros Hk. unfold total_algos. cbn [accounts set_accounts].
  rewrite <- (insert_delete_id (accounts s) k a Hk) at 1.
  rewrite map_fold_insert_L; [reflexivity|intros; lia|apply lookup_delete_eq].
Qed.

Lemma total_algos_nonneg (s : State) :
  map_Forall account_ok (accounts s) ->
  0 <= total_algos s.
Proof.
  unfold total_algos. generalize (accounts s). clear s.
  intros m. induction m as [|k a m Hk IH] using map_ind; intros Hall.
  - rewrite map_fold_empty. lia.
  - rewrite map_fold_insert_L; [|intros; lia|assumption].
    apply map_Forall_insert in Hall as [(_ & Ha & _) Hm]; [|assumption].
    specialize (IH Hm). lia.
Qed.

Lemma balance_le_total (s : State) (k : string) (a : StoreAccount) :
  map_Forall account_ok (accounts s) ->
  accounts s !! k = Some a ->
  0 <= amount a <= total_algos s.
Proof.
  intros Hall Hk. rewrite (total_algos_split s k a Hk).
  pose proof (map_Forall_lookup_1 _ _ _ _ Hall Hk) as (_ & Ha & _).
  assert (0 <= total_algos (set_accounts (delete k (accounts s)) s)).
  { apply total_algos_nonneg. cbn [accounts set_accounts].
    now apply map_Forall_delete. }
  lia.
Qed.

Lemma two_balances_le_total (s : State) (k1 k2 : string) (a1 a2 : StoreAccount) :
  map_Forall account_ok (accounts s) ->
  k1 <> k2 ->
  accounts s !! k1 = Some a1 -> accounts s !! k2 = Some a2 ->
  amount a1 + amount a2 <= total_algos s.
Proof.
  intros Hall Hne H1 H2. rewrite (total_algos_split s k1 a1 H1).
  assert (amount a2 <= total_algos (set_accounts (delete k1 (accounts s)) s)).
  { apply (balance_le_total _ k2).
    - cbn [accounts set_accounts]. now apply map_Forall_delete.
    - cbn [accounts set_accounts]. rewrite lookup_delete_ne by assumption.
      exact H2. }
  lia.
Qed.

(** An account whose new balance is not negative leaves the accounts as
    they should be, and the balances safe when the sum stays a safe
    integer. *)
Lemma accounts_ok_put (c : Context) (k : string) (a a' : StoreAccount) :
  map_Forall account_ok (accounts (state c)) ->
  accounts (state c) !! k = Some a ->
  0 <= amount a' -> minBalance a' = minBalance a -> address a' = address a ->
  map_Forall account_ok (accounts (state (put_account k a' c))).
Proof.
  intros Hall Hk Ha' Hmin Haddr.
  apply map_Forall_lookup. intros j x. rewrite lookup_put_account.
  case_decide.
  - intros [= <-]. subst j.
    destruct (map_Forall_lookup_1 _ _ _ _ Hall Hk) as (Hadr & _ & Hm).
    unfold account_ok. rewrite Hmin, Haddr. auto.
  - intros Hj. apply (map_Forall_lookup_1 _ _ _ _ Hall Hj).
Qed.

Lemma safe_balances_put (c : Context) (k : string) (a a' : StoreAccount) :
  safe_balances (state c) ->
  accounts (state c) !! k = Some a ->
  0 <= amount a' -> minBalance a' = minBalance a -> address a' = address a ->
  total_algos (state c) - amount a + amount a' < 2 ^ 53 ->
  safe_balances (state (put_account k a' c)).
Proof.
  intros [Hall Htot] Hk Ha' Hmin Haddr Hnew. split.
  - now apply (accounts_ok_put c k a).
  - rewrite (total_algos_put_account _ _ a) by assumption. exact Hnew.
Qed.

(** *** transferAlgo *)

Lemma assertMinBalance_eq (c : Context) (amt : Z) (k : string) :
  Ctx.assertMinBalance amt k c
  = match accounts (state c) !! k with
    | None => (Err (RuntimeError ACCOUNT_DOES_NOT_EXIST), c)
    | Some a =>
        if num_sub (amount a) amt <? minBalance a
        then (Err (RuntimeError INSUFFICIENT_ACCOUNT_BALANCE), c)
        else (Ok tt, c)
    end.
Proof.
  unfold Ctx.assertMinBalance, bind. rewrite getAccount_eq.
  destruct (accounts (state c) !! k) as [a|]; [|reflexivity].
  destruct (num_sub (amount a) amt <? minBalance a); reflexivity.
Qed.

Lemma assertMinBalance_state (c c' : Context) (amt : Z) (k : string) (r : Result unit) :
  Ctx.assertMinBalance amt k c = (r, c') -> c' = c.
Proof.
  rewrite assertMinBalance_eq.
  destruct (accounts (state c) !! k) as [a|]; [|now intros [= _ <-]].
  destruct (num_sub (amount a) amt <? minBalance a); now intros [= _ <-].
Qed.

(** With safe balances the check of the minimum balance is the exact
    one: it passes only when the account can spare the amount. *)
Lemma assertMinBalance_safe (c c' : Context) (amt : Z) (k : string) (a : StoreAccount) :
  safe_balances (state c) -> 0 <= amt ->
  accounts (state c) !! k = Some a ->
  Ctx.assertMinBalance amt k c = (Ok tt, c') ->
  minBalance a <= amount a - amt /\ num_sub (amount a) amt = amount a - amt.
Proof.
  intros [Hall Htot] Hamt Hk. rewrite assertMinBalance_eq, Hk.
  pose proof (balance_le_total _ _ _ Hall Hk) as Hle.
  pose proof (map_Forall_lookup_1 _ _ _ _ Hall Hk) as (_ & _ & Hmin).
  destruct (Z.lt_ge_cases (amount a) amt) as [Hlt|Hge].
  - pose proof (num_sub_neg _ _ Hlt).
    destruct (Z.ltb_spec (num_sub (amount a) amt) (minBalance a)); [discriminate|lia].
  - rewrite num_sub_safe by (unfold safe_integer; lia).
    destruct (Z.ltb_spec (amount a - amt) (minBalance a)); [discriminate|].
    intros _. split; [assumption|reflexivity].
Qed.

(** What [transferAlgo] does to safe balances: it moves algos without
    creating or destroying any, and leaves the balances safe. *)
Lemma transferAlgo_safe (txnParam : ExecParams) (toAccountAddr : AccountAddress)
    (amountMicroAlgos : Z) (c c' : Context) (r : Result unit) :
  (forall cr, closeRemainderTo (payFlags txnParam) = Some cr ->
              cr <> addr (fromAccount txnParam)) ->
  safe_balances (state c) -> 0 <= amountMicroAlgos ->
  Ctx.transferAlgo txnParam toAccountAddr amountMicroAlgos c = (r, c') ->
  total_algos (state c') = total_algos (state c)
  /\ safe_balances (state c')
  /\ gtxs c' = gtxs c /\ tx c' = tx c
  /\ (forall a, a <> addr (fromAccount txnParam) -> a <> toAccountAddr ->
                closeRemainderTo (payFlags txnParam) <> Some a ->
                accounts (state c') !! a = accounts (state c) !! a).
Proof.
  intros Hcr Hsafe Hamt. unfold Ctx.transferAlgo.
  set (from := addr (fromAccount txnParam)) in *.
  unfold bind at 1. rewrite getAccount_eq.
  destruct (accounts (state c) !! from) as [fa|] eqn:Hfrom;
    [|intros [= _ <-]; auto].
  unfold bind at 1. rewrite getAccount_eq.
  destruct (accounts (state c) !! toAccountAddr) as [ta|] eqn:Hto;
    [|intros [= _ <-]; auto].
  assert (Haddr : address fa = from)
    by apply (map_Forall_lookup_1 _ _ _ _ (proj1 Hsafe) Hfrom).
  rewrite Haddr. unfold bind at 1.
  destruct (Ctx.assertMinBalance amountMicroAlgos from c) as [rb cb] eqn:Hmb.
  pose proof (assertMinBalance_state _ _ _ _ _ Hmb) as ->.
  destruct rb as [[]|e]; [|intros [= _ <-]; auto].
  destruct (assertMinBalance_safe _ _ _ _ _ Hsafe Hamt Hfrom Hmb) as [Hmin Hsub].
  pose proof (map_Forall_lookup_1 _ _ _ _ (proj1 Hsafe) Hfrom) as (_ & _ & Hminf).
  pose proof (balance_le_total _ _ _ (proj1 Hsafe) Hfrom) as Hfle.
  unfold bind at 1. rewrite on_account_modify, Hfrom, Hsub.
  set (c1 := put_account from (set_amount (amount fa - amountMicroAlgos) fa) c).
  assert (Ht1 : total_algos (state c1) = total_algos (state c) - amountMicroAlgos).
  { subst c1. rewrite (total_algos_put_account _ _ fa) by assumption. cbn. lia. }
  assert (Hsafe1 : safe_balances (state c1)).
  { subst c1. apply (safe_balances_put c from fa); auto; cbn [amount set_amount].
    - lia.
    - destruct Hsafe. lia. }
  unfold bind at 1. rewrite on_account_modify.
  assert (Hto1 : exists ta1, accounts (state c1) !! toAccountAddr = Some ta1).
  { subst c1. rewrite lookup_put_account. case_decide; eauto. }
  destruct Hto1 as [ta1 Hto1]. rewrite Hto1.
  pose proof (balance_le_total _ _ _ (proj1 Hsafe1) Hto1) as Htle.
  rewrite num_add_safe by (unfold safe_integer; destruct Hsafe; lia).
  set (c2 := put_account toAccountAddr
               (set_amount (amount ta1 + amountMicroAlgos) ta1) c1).
  assert (Ht2 : total_algos (state c2) = total_algos (state c)).
  { subst c2. rewrite (total_algos_put_account _ _ ta1), Ht1 by assumption.
    cbn [amount set_amount]. lia. }
  assert (Hsafe2 : safe_balances (state c2)).
  { subst c2. apply (safe_balances_put c1 toAccountAddr ta1); auto;
      cbn [amount set_amount]; destruct Hsafe; lia. }
  assert (Hother2 : forall a, a <> from -> a <> toAccountAddr ->
                    accounts (state c2) !! a = accounts (state c) !! a).
  { intros a Ha1 Ha2. subst c2 c1. rewrite !lookup_put_account.
    repeat case_decide; congruence. }
  destruct (closeRemainderTo (payFlags txnParam)) as [cr0|] eqn:Hclose;
    cbn [truthy_string]; [|intros [= _ <-]; auto 6].
  assert (Hne : cr0 <> from) by (apply Hcr; reflexivity).
  destruct cr0 as [|ch cr]; [intros [= _ <-]; auto 6|].
  set (cr0 := String ch cr) in *.
  unfold bind at 1. rewrite getAccount_eq.
  destruct (accounts (state c2) !! cr0) as [ca|] eqn:Hca;
    [|intros [= _ <-]; auto 6].
  unfold bind at 1. rewrite getAccount_eq.
  assert (Hf2 : exists f2, accounts (state c2) !! from = Some f2).
  { subst c2 c1. rewrite !lookup_put_account. repeat case_decide; eauto. }
  destruct Hf2 as [f2 Hf2]. rewrite Hf2.
  pose proof (two_balances_le_total _ _ _ _ _ (proj1 Hsafe2) Hne Hca Hf2) as Hsum.
  pose proof (balance_le_total _ _ _ (proj1 Hsafe2) Hca) as Hcle.
  pose proof (balance_le_total _ _ _ (proj1 Hsafe2) Hf2) as Hf2le.
  unfold bind at 1. rewrite on_account_modify, Hca.
  rewrite num_add_safe by (unfold safe_integer; destruct Hsafe; lia).
  set (c3 := put_account cr0 (set_amount (amount ca + amount f2) ca) c2).
  rewrite on_account_modify.
  assert (Hf3 : accounts (state c3) !! from = Some f2).
  { subst c3. rewrite lookup_put_account. case_decide; congruence. }
  rewrite Hf3. intros [= _ <-].
  assert (Htot4 : total_algos (state (put_account from (set_amount 0 f2) c3))
                  = total_algos (state c)).
  { rewrite (total_algos_put_account _ _ f2) by assumption.
    subst c3. rewrite (total_algos_put_account _ _ ca), Ht2 by assumption.
    cbn [amount set_amount]. lia. }
  split; [exact Htot4|]. split; [|split; [reflexivity|split; [reflexivity|]]].
  - split; [|rewrite Htot4; destruct Hsafe; assumption].
    apply (accounts_ok_put c3 from f2); auto; [|cbn; lia].
    subst c3. apply (accounts_ok_put c2 cr0 ca); auto; [apply Hsafe2|].
    cbn [amount set_amount]. lia.
  - intros a Ha1 Ha2 Ha3. rewrite lookup_put_account.
    case_decide; [congruence|]. subst c3. rewrite lookup_put_account.
    case_decide; [congruence|]. auto.
Qed.

(** C10 (as amended). On a context whose balances are safe (every
    account stored under its address, no negative balance or minimum
    balance, the sum of all balances below [2^53]), a transferAlgo of an
    amount that is not negative and whose closeRemainderTo address, when
    set, differs from the sender leaves the sum of the balances of all
    accounts of the context unchanged, whether it completes or throws,
    touches no account besides the sender, the receiver and the
    close-remainder account, and leaves the balances safe. *)
Theorem transferAlgo_conserves_total (txnParam : ExecParams)
    (toAccountAddr : AccountAddress) (amountMicroAlgos : Z)
    (c c' : Context) (r : Result unit) :
  (forall cr, closeRemainderTo (payFlags txnParam) = Some cr ->
              cr <> addr (fromAccount txnParam)) ->
  safe_balances (state c) -> 0 <= amountMicroAlgos ->
  Ctx.transferAlgo txnParam toAccountAddr amountMicroAlgos c = (r, c') ->
  total_algos (state c') = total_algos (state c)
  /\ (forall a, a <> addr (fromAccount txnParam) -> a <> toAccountAddr ->
                closeRemainderTo (payFlags txnParam) <> Some a ->
                accounts (state c') !! a = accounts (state c) !! a)
  /\ safe_balances (state c').
Proof.
  intros Hcr Hsafe Hamt Hrun.
  destruct (transferAlgo_safe _ _ _ _ _ _ Hcr Hsafe Hamt Hrun)
    as (Htot & Hsafe' & _ & _ & Hother).
  split; [exact Htot|]. split; [exact Hother|exact Hsafe'].
Qed.

Ltac accounts_ok :=
  repeat (apply map_Forall_insert_2; [unfold account_ok; cbn; repeat split; lia|]);
  apply map_Forall_empty.

Lemma sample_world_safe : safe_balances Sample.world.
Proof.
  split.
  - unfold Sample.world. cbn [accounts]. accounts_ok.
  - vm_compute. reflexivity.
Qed.

Lemma transferAlgo_conserves_total_witness :
  total_algos
    (state (Datatypes.snd
       (Ctx.transferAlgo (Sample.pay "alice" "bob" 5000 (Some "carol")) "bob" 5000
          (Sample.context [Sample.pay "alice" "bob" 5000 (Some "carol")]))))
  = total_algos Sample.world.
Proof.
  refine (proj1 (transferAlgo_conserves_total
                   (Sample.pay "alice" "bob" 5000 (Some "carol")) "bob" 5000
                   (Sample.context [Sample.pay "alice" "bob" 5000 (Some "carol")])
                   _ _ _ sample_world_safe _ (surjective_pairing _))).
  - intros cr [= <-]. discriminate.
  - lia.
Defined.

(** The claim as stated fails: balances are [number]s, and a receiver
    that holds [2^53] micro-algos does not receive one more; the sender
    is debited, and the sum drops by one. *)
Lemma transferAlgo_loses_precision :
  closeRemainderTo (payFlags (Sample.pay "alice" "whale" 1 None)) = None
  /\ fst (Ctx.transferAlgo (Sample.pay "alice" "whale" 1 None) "whale" 1
            (Sample.whale_context [Sample.pay "alice" "whale" 1 None])) = Ok tt
  /\ total_algos
       (state (Datatypes.snd
          (Ctx.transferAlgo (Sample.pay "alice" "whale" 1 None) "whale" 1
             (Sample.whale_context [Sample.pay "alice" "whale" 1 None]))))
     = total_algos Sample.whale_world - 1
  /\ total_algos
       (state (Datatypes.snd
          (Ctx.transferAlgo (Sample.pay "alice" "whale" 1 None) "whale" 1
             (Sample.whale_context [Sample.pay "alice" "whale" 1 None]))))
     <> total_algos (state (Sample.whale_context [Sample.pay "alice" "whale" 1 None])).
Proof.
  split; [reflexivity|]. split; [vm_compute; reflexivity|].
  split; [vm_compute; reflexivity|]. vm_compute. discriminate.
Qed.

(** Without the side condition the sum is not preserved: closing the
    sender's account into itself destroys the remaining balance. *)
Lemma transferAlgo_close_to_sender_loses_algos :
  total_algos
    (state (Datatypes.snd
       (Ctx.transferAlgo (Sample.pay "alice" "bob" 5000 (Some "alice")) "bob" 5000
          (Sample.context [Sample.pay "alice" "bob" 5000 (Some "alice")]))))
  = 25000
  /\ total_algos Sample.world = 40000.
Proof. split; vm_compute; reflexivity. Qed.

(** ** The acceptance rule *)

Lemma pop_while_nonempty_all (cap : option nat) (l : list StackElem) (fuel : nat) :
  (List.length l <= fuel)%nat ->
  Return.pop_while_nonempty fuel (mkStack cap l) = (Ok tt, mkStack cap []).
Proof.
  revert l. induction fuel as [|fuel IH]; intros l Hl.
  - destruct l; [reflexivity|cbn in Hl; lia].
  - destruct l as [|x l]; [reflexivity|].
    cbn [Return.pop_while_nonempty StackM.length items List.length Nat.eqb].
    cbn [bind StackM.pop items capacity]. apply IH. cbn in Hl. lia.
Qed.

(** [return] leaves exactly the last value on the stack and moves the
    instruction index past the end. *)
Lemma return_keeps_last (n idx : nat) (cap : option nat)
    (last : StackElem) (rest : list StackElem) :
  stack_wf (mkStack cap (last :: rest)) ->
  Return.execute (mkInterpreter n idx (mkStack cap (last :: rest)))
  = (Ok tt, mkInterpreter n n (mkStack cap [last])).
Proof.
  intros Hwf. unfold Return.execute, on_stack, Op.assertMinStackLen, modify.
  cbn [bind stack StackM.length StackM.pop items capacity List.length Nat.ltb
       Nat.leb instructions_length instructionIndex].
  unfold bind. cbn [stack instructions_length instructionIndex].
  rewrite pop_while_nonempty_all by (cbn; lia).
  cbn [stack instructions_length instructionIndex].
  rewrite push_ok; [reflexivity|].
  unfold has_room, stack_wf in *. destruct cap; cbn in *; [lia|trivial].
Qed.

(** The check of the acceptance rule on the value of a one-element
    stack. *)
Lemma acceptance_single (cap : option nat) (n : Z) :
  fst (acceptance (mkStack cap [Uint64 n])) = Ok tt <-> is_u64 n /\ n <> 0.
Proof.
  unfold acceptance, is_u64, MIN_UINT64. cbn [items].
  destruct (Z.eqb_spec n 0) as [->|Hn]; cbn [orb fst].
  - split; [discriminate|intros [_ H]; contradiction].
  - destruct (Z.ltb_spec n 0); cbn [orb fst].
    + split; [discriminate|intros [[H0 _] _]; lia].
    + destruct (Z.gtb_spec n MAX_UINT64); cbn [fst].
      * split; [discriminate|intros [[_ H1] _]; lia].
      * split; [intros _; lia|reflexivity].
Qed.

Lemma acceptance_verdict (s : Stack) :
  fst (acceptance s) = Ok tt
  \/ fst (acceptance s) = Err (RuntimeError REJECTED_BY_LOGIC).
Proof.
  unfold acceptance. destruct (items s) as [|[n|b] [|y l]]; cbn; auto.
  destruct ((n =? 0) || (n <? MIN_UINT64) || (n >? MAX_UINT64)); cbn; auto.
Qed.

(** C3. A program that terminates without a fatal error is accepted if
    and only if its final stack holds exactly one value and that value is
    a non-zero u64; a stack of any other size, a zero, a byte string and
    an integer outside the u64 range (as [~] leaves one) are rejected.
    After [return] the final stack is the last value alone, so the
    verdict is that of the value on top. *)
Theorem acceptance_rule (s : Stack) :
  (fst (acceptance s) = Ok tt
   <-> exists n, items s = [Uint64 n] /\ is_u64 n /\ n <> 0)
  /\ (List.length (items s) <> 1%nat ->
      fst (acceptance s) = Err (RuntimeError REJECTED_BY_LOGIC))
  /\ (items s = [Uint64 0] ->
      fst (acceptance s) = Err (RuntimeError REJECTED_BY_LOGIC))
  /\ (forall b, items s = [Bytes b] ->
      fst (acceptance s) = Err (RuntimeError REJECTED_BY_LOGIC))
  /\ (forall n, items s = [Uint64 n] -> ~ is_u64 n ->
      fst (acceptance s) = Err (RuntimeError REJECTED_BY_LOGIC))
  /\ (forall x, items s = [Uint64 x] -> is_u64 x -> stack_wf s ->
      exists s', BitwiseNot.execute s = (Ok tt, s')
                 /\ fst (acceptance s') = Err (RuntimeError REJECTED_BY_LOGIC))
  /\ (forall n idx last rest, items s = last :: rest -> stack_wf s ->
      let (r, i) := Return.execute (mkInterpreter n idx s) in
      r = Ok tt /\ instructionIndex i = instructions_length i
      /\ items (stack i) = [last]
      /\ (fst (acceptance (stack i)) = Ok tt
          <-> exists v, last = Uint64 v /\ is_u64 v /\ v <> 0)).
Proof.
  destruct s as [cap l]. cbn [items].
  assert (Hrej : forall s0, fst (acceptance s0) <> Ok tt ->
                 fst (acceptance s0) = Err (RuntimeError REJECTED_BY_LOGIC)).
  { intros s0 H. destruct (acceptance_verdict s0); [contradiction|assumption]. }
  split; [|split; [|split; [|split; [|split; [|split]]]]].
  - split.
    + destruct l as [|[n|b] [|y l]]; try (unfold acceptance; cbn; discriminate).
      intros H. apply acceptance_single in H. eauto.
    + intros (n & -> & Hn). now apply acceptance_single.
  - unfold acceptance. cbn [items].
    destruct l as [|[n|b] [|y l]]; cbn; try reflexivity; intros H; lia.
  - intros ->. reflexivity.
  - intros b ->. reflexivity.
  - intros n -> Hn. apply Hrej. intros H. apply acceptance_single in H. tauto.
  - intros x -> Hx Hwf. unfold BitwiseNot.execute, Op.assertMinStackLen.
    cbn [bind StackM.length StackM.pop items capacity List.length Nat.ltb Nat.leb
         Op.assertBigInt ret].
    rewrite push_ok by exact (wf_has_room _ _ _ Hwf).
    eexists. split; [reflexivity|]. apply Hrej. intros H.
    apply acceptance_single in H. unfold is_u64 in *.
    pose proof (Z.lnot_spec x 0). unfold Z.lnot in *. lia.
  - intros n idx last rest -> Hwf.
    rewrite return_keeps_last by assumption.
    cbn [stack items instructionIndex instructions_length].
    repeat split; auto.
    + destruct last as [v|b]; [|unfold acceptance; cbn; discriminate].
      intros H. apply acceptance_single in H. eauto.
    + intros (v & -> & Hv). now apply acceptance_single.
Qed.

Lemma acceptance_rule_witness :
  fst (acceptance (mkStack None [Uint64 1])) = Ok tt
  /\ fst (acceptance (mkStack None [Uint64 1; Uint64 2]))
     = Err (RuntimeError REJECTED_BY_LOGIC)
  /\ fst (acceptance (mkStack None [Uint64 0]))
     = Err (RuntimeError REJECTED_BY_LOGIC)
  /\ fst (acceptance (mkStack None [Bytes [x01]]))
     = Err (RuntimeError REJECTED_BY_LOGIC)
  /\ fst (acceptance (mkStack None [Uint64 (-11)]))
     = Err (RuntimeError REJECTED_BY_LOGIC)
  /\ fst (acceptance (mkStack None [Uint64 (2 ^ 64)]))
     = Err (RuntimeError REJECTED_BY_LOGIC).
Proof.
  split; [|split; [|split; [|split; [|split]]]].
  - apply (proj1 (acceptance_rule (mkStack None [Uint64 1]))).
    exists 1. unfold is_u64, MAX_UINT64. repeat split; try reflexivity; lia.
  - apply (proj1 (proj2 (acceptance_rule (mkStack None [Uint64 1; Uint64 2])))).
    cbn. lia.
  - apply (proj1 (proj2 (proj2 (acceptance_rule (mkStack None [Uint64 0]))))).
    reflexivity.
  - apply (proj1 (proj2 (proj2 (proj2 (acceptance_rule (mkStack None [Bytes [x01]])))))
             [x01]).
    reflexivity.
  - apply (proj1 (proj2 (proj2 (proj2 (proj2
             (acceptance_rule (mkStack None [Uint64 (-11)]))))))
             (-11) eq_refl).
    unfold is_u64. lia.
  - apply (proj1 (proj2 (proj2 (proj2 (proj2
             (acceptance_rule (mkStack None [Uint64 (2 ^ 64)]))))))
             (2 ^ 64) eq_refl).
    unfold is_u64, MAX_UINT64. lia.
Defined.

(** ** Processing a group *)

Lemma forEach_from_app {S A B} (f : A -> nat -> B -> M S B)
    (l1 l2 : list A) (idx : nat) (acc : B) (s : S) :
  forEach_from f idx (l1 ++ l2) acc s
  = bind (forEach_from f idx l1 acc)
      (fun acc' => forEach_from f (idx + List.length l1)%nat l2 acc') s.
Proof.
  revert idx acc s. induction l1 as [|x l1 IH]; intros idx acc s.
  - cbn. rewrite Nat.add_0_r. reflexivity.
  - cbn [app forEach_from List.length]. unfold bind.
    destruct (f x idx acc s) as [[acc'|e] s']; [|reflexivity].
    rewrite IH. unfold bind. rewrite Nat.add_succ_comm. reflexivity.
Qed.

(** Once the transactions before [t] have been processed, the group
    continues with the callback on [t] and then with the transactions
    after it. *)
Lemma processTransactions_at (ext : External) (pre post : list ExecParams)
    (t : ExecParams) (c c1 : Context) (b1 : bool) :
  forEach (Ctx.processTransaction ext) pre false c = (Ok b1, c1) ->
  Ctx.processTransactions ext (pre ++ t :: post) c
  = (b <- Ctx.processTransaction ext t (List.length pre) b1 ;;
     Ctx.resume ext (Datatypes.S (List.length pre)) post b) c1.
Proof.
  intros Hpre. unfold Ctx.processTransactions, Ctx.resume, forEach in *.
  unfold bind at 1. rewrite forEach_from_app.
  rewrite (bind_Ok _ _ _ _ _ Hpre). cbn [forEach_from Nat.add].
  unfold bind. destruct (Ctx.processTransaction ext t (List.length pre) b1 c1)
    as [[b|e] c2]; reflexivity.
Qed.

Lemma deductFee_eq (sender : string) (idx : nat) (c : Context) :
  Ctx.deductFee sender idx c
  = match accounts (state c) !! sender with
    | None => (Err (RuntimeError ACCOUNT_DOES_NOT_EXIST), c)
    | Some acc =>
        match gtxs c !! idx with
        | None => (Err (JsError "TypeError: cannot read properties of undefined"), c)
        | Some txn =>
            if num_sub (amount acc) (fee txn) <? minBalance acc
            then (Err (RuntimeError INSUFFICIENT_ACCOUNT_BALANCE), c)
            else (Ok tt, put_account sender (set_amount (num_sub (amount acc) (fee txn)) acc) c)
        end
    end.
Proof.
  unfold Ctx.deductFee. unfold bind at 1. rewrite getAccount_eq.
  destruct (accounts (state c) !! sender) as [acc|] eqn:Hacc; [|reflexivity].
  unfold bind at 1. cbn [gets].
  destruct (gtxs c !! idx) as [txn|]; [|reflexivity].
  unfold Ctx.assertMinBalance. unfold bind at 1 2. rewrite getAccount_eq, Hacc.
  destruct (num_sub (amount acc) (fee txn) <? minBalance acc); [reflexivity|].
  cbn [ret]. rewrite on_account_modify, Hacc. reflexivity.
Qed.

(** C5 (as amended). The transactions of a group are processed in
    declared order, and for each of them the fee is deducted from its
    sender before its own payload executes: the payload of [t] runs in
    the context left by the fee deduction of [t], which itself starts
    from the context left by the payloads of the transactions before
    [t].  A fee deduction that fails, by a min-balance violation in
    particular, rejects the whole group. *)
Theorem fee_deducted_before_own_payload (ext : External)
    (pre post : list ExecParams) (t : ExecParams) (c c1 : Context) (b1 : bool) :
  forEach (Ctx.processTransaction ext) pre false c = (Ok b1, c1) ->
  let sender := addr (fromAccount t) in
  let idx := List.length pre in
  (forall e c2, Ctx.deductFee sender idx c1 = (Err e, c2) ->
     Ctx.processTransactions ext (pre ++ t :: post) c = (Err e, c2))
  /\ (forall acc txn,
        accounts (state c1) !! sender = Some acc ->
        gtxs c1 !! idx = Some txn ->
        num_sub (amount acc) (fee txn) < minBalance acc ->
        Ctx.processTransactions ext (pre ++ t :: post) c
        = (Err (RuntimeError INSUFFICIENT_ACCOUNT_BALANCE), c1))
  /\ (forall c2, Ctx.deductFee sender idx c1 = (Ok tt, c2) ->
        (exists acc txn,
            accounts (state c1) !! sender = Some acc
            /\ gtxs c1 !! idx = Some txn
            /\ c2 = put_account sender (set_amount (num_sub (amount acc) (fee txn)) acc) c1)
        /\ Ctx.processTransactions ext (pre ++ t :: post) c
           = (b <- (Ctx.beforeSwitch ext t idx ;;; Ctx.dispatch ext t b1) ;;
              Ctx.resume ext (Datatypes.S idx) post b) c2).
Proof.
  intros Hpre sender idx.
  pose proof (processTransactions_at ext pre post t c c1 b1 Hpre) as Hat.
  split; [|split].
  - intros e c2 Hfee. rewrite Hat. unfold Ctx.processTransaction.
    fold sender idx. unfold bind at 1 2. rewrite Hfee. reflexivity.
  - intros acc txn Hacc Htxn Hlt. rewrite Hat. unfold Ctx.processTransaction.
    fold sender idx. unfold bind at 1 2. rewrite deductFee_eq, Hacc, Htxn.
    destruct (Z.ltb_spec (num_sub (amount acc) (fee txn)) (minBalance acc)); [reflexivity|lia].
  - intros c2 Hfee. split.
    + rewrite deductFee_eq in Hfee.
      destruct (accounts (state c1) !! sender) as [acc|]; [|discriminate].
      destruct (gtxs c1 !! idx) as [txn|]; [|discriminate].
      destruct (num_sub (amount acc) (fee txn) <? minBalance acc); [discriminate|].
      injection Hfee as <-. eauto.
    + rewrite Hat. unfold Ctx.processTransaction. fold sender idx.
      unfold bind at 1 2. rewrite Hfee. reflexivity.
Qed.

Lemma pair_eta_fst {A B} (p : A * B) (a : A) : fst p = a -> p = (a, Datatypes.snd p).
Proof. intros <-. apply surjective_pairing. Qed.

Lemma fee_deducted_before_own_payload_witness :
  Ctx.processTransactions Sample.ext
    ([Sample.pay "alice" "bob" 5000 None] ++ [Sample.pay "bob" "carol" 100 None])
    (Sample.context Sample.pay_group)
  = (b <- (Ctx.beforeSwitch Sample.ext (Sample.pay "bob" "carol" 100 None) 1 ;;;
           Ctx.dispatch Sample.ext (Sample.pay "bob" "carol" 100 None) false) ;;
     Ctx.resume Sample.ext 2 [] b)
      (Datatypes.snd
         (Ctx.deductFee "bob" 1
            (Datatypes.snd
               (forEach (Ctx.processTransaction Sample.ext)
                  [Sample.pay "alice" "bob" 5000 None] false
                  (Sample.context Sample.pay_group))))).
Proof.
  refine (proj2 (proj2 (proj2
            (fee_deducted_before_own_payload Sample.ext
               [Sample.pay "alice" "bob" 5000 None] []
               (Sample.pay "bob" "carol" 100 None)
               (Sample.context Sample.pay_group) _ false
               (pair_eta_fst _ (Ok false) _))) _ (pair_eta_fst _ (Ok tt) _)));
    vm_compute; reflexivity.
Defined.

(** The claim as stated fails: were every fee deducted before any
    payload, bob could not pay his fee and the group would be rejected;
    [processTransactions] accepts the group, because bob's fee is
    deducted after alice's payment has reached him. *)
Lemma fees_interleaved_with_payloads :
  fst (Ctx.processTransactions Sample.ext Sample.pay_group
         (Sample.context Sample.pay_group)) = Ok false
  /\ fst (fees_before_any_payload Sample.ext Sample.pay_group
            (Sample.context Sample.pay_group))
     = Err (RuntimeError INSUFFICIENT_ACCOUNT_BALANCE)
  /\ Ctx.processTransactions Sample.ext Sample.pay_group
       (Sample.context Sample.pay_group)
     <> fees_before_any_payload Sample.ext Sample.pay_group
          (Sample.context Sample.pay_group).
Proof.
  assert (H1 : fst (Ctx.processTransactions Sample.ext Sample.pay_group
                      (Sample.context Sample.pay_group)) = Ok false)
    by (vm_compute; reflexivity).
  assert (H2 : fst (fees_before_any_payload Sample.ext Sample.pay_group
                      (Sample.context Sample.pay_group))
               = Err (RuntimeError INSUFFICIENT_ACCOUNT_BALANCE))
    by (vm_compute; reflexivity).
  split; [exact H1|]. split; [exact H2|].
  intros Heq. rewrite Heq, H2 in H1. discriminate.
Qed.

(** ** ClearSSC *)

Lemma getApp_state (appId : Z) (c c' : Context) (r : Result SSCAttributesM) :
  Ctx.getApp appId c = (r, c') -> c' = c.
Proof.
  unfold Ctx.getApp, bind, gets, Asserts.assertAddressDefined,
    Asserts.assertAccountDefined, Asserts.assertAppDefined, ret, throw.
  destruct (globalApps (state c) !! appId) as [a|]; [|now intros [= _ <-]].
  destruct (accounts (state c) !! a) as [acc|]; [|now intros [= _ <-]].
  destruct (StoreAccountM.getApp acc appId); now intros [= _ <-].
Qed.

Lemma closeApp_ok (sender : string) (appId : Z) (c : Context)
    (acc : StoreAccount) (app : SSCAttributesM) :
  accounts (state c) !! sender = Some acc ->
  Ctx.getApp appId c = (Ok app, c) ->
  Ctx.closeApp sender appId c
  = (Ok tt, put_account sender
              (set_appsLocalState (delete appId (appsLocalState acc)) acc) c).
Proof.
  intros Hacc Happ. unfold Ctx.closeApp.
  unfold bind at 1. rewrite getAccount_eq, Hacc.
  rewrite (bind_Ok _ _ _ _ _ Happ). cbn [Asserts.assertAppDefined bind ret].
  unfold on_account. rewrite Hacc. reflexivity.
Qed.

(** C2. When the clear program of a ClearSSC transaction terminates
    with REJECTED_BY_LOGIC (error number 1007), the local state of the
    caller for the application is removed and the transaction is
    accepted: the group goes on with the next transaction, and a group
    that ends here is accepted.  When the clear program fails with any
    other error, the group is rejected with that error. *)
Theorem clear_rejected_by_logic_still_clears (ext : External)
    (pre post : list ExecParams) (t : ExecParams) (appId : Z)
    (c c1 c1' c2 c3 : Context) (b1 : bool) (app : SSCAttributesM) (e : Error) :
  number ext REJECTED_BY_LOGIC = 1007 ->
  (forall k, number ext k = 1007 -> k = REJECTED_BY_LOGIC) ->
  type t = ClearSSC appId ->
  forEach (Ctx.processTransaction ext) pre false c = (Ok b1, c1) ->
  Ctx.deductFee (addr (fromAccount t)) (List.length pre) c1 = (Ok tt, c1') ->
  Ctx.beforeSwitch ext t (List.length pre) c1' = (Ok tt, c2) ->
  Ctx.getApp appId c2 = (Ok app, c2) ->
  Ctx.run ext (clear_state_program app) STATEFUL c2 = (Err e, c3) ->
  (e = RuntimeError REJECTED_BY_LOGIC ->
   forall (acc : StoreAccount) (app' : SSCAttributesM),
     accounts (state c3) !! addr (fromAccount t) = Some acc ->
     is_Some (appsLocalState acc !! appId) ->
     Ctx.getApp appId c3 = (Ok app', c3) ->
     let acc' := set_appsLocalState (delete appId (appsLocalState acc)) acc in
     let c4 := put_account (addr (fromAccount t)) acc' c3 in
     accounts (state c4) !! addr (fromAccount t) = Some acc'
     /\ appsLocalState acc' !! appId = None
     /\ (forall key, StoreAccountM.getLocalState acc' appId key = None)
     /\ Ctx.processTransactions ext (pre ++ t :: post) c
        = Ctx.resume ext (Datatypes.S (List.length pre)) post true c4
     /\ (post = [] ->
         Ctx.processTransactions ext (pre ++ t :: post) c = (Ok true, c4)))
  /\ (e <> RuntimeError REJECTED_BY_LOGIC ->
      Ctx.processTransactions ext (pre ++ t :: post) c = (Err e, c3)).
Proof.
  intros Hnum Hinj Htype Hpre Hfee Hbefore Happ Hrun.
  pose proof (processTransactions_at ext pre post t c c1 b1 Hpre) as Hat.
  assert (Hcb : Ctx.processTransaction ext t (List.length pre) b1 c1
                = Ctx.dispatch ext t b1 c2).
  { unfold Ctx.processTransaction.
    rewrite (bind_Ok _ _ _ _ _ Hfee), (bind_Ok _ _ _ _ _ Hbefore). reflexivity. }
  assert (Hd : Ctx.dispatch ext t b1 c2
               = (caught <- (if is_RuntimeError_1007 ext e then
                               Ctx.closeApp (addr (fromAccount t)) appId ;;; ret true
                             else throw e) ;;
                  if caught then ret true
                  else Ctx.closeApp (addr (fromAccount t)) appId ;;; ret b1) c3).
  { unfold Ctx.dispatch. rewrite Htype.
    rewrite (bind_Ok _ _ _ _ _ Happ). cbn [Asserts.assertAppDefined].
    unfold bind at 1. cbn [ret]. unfold bind at 1. unfold try_catch.
    unfold bind at 1. rewrite Hrun. unfold bind. reflexivity. }
  split.
  - intros -> acc app' Hacc Hopt Happ' acc' c4.
    assert (H1007 : is_RuntimeError_1007 ext (RuntimeError REJECTED_BY_LOGIC) = true).
    { cbn. rewrite Hnum. reflexivity. }
    rewrite H1007 in Hd.
    assert (Hdc : Ctx.dispatch ext t b1 c2 = (Ok true, c4)).
    { rewrite Hd. unfold bind at 1 2.
      rewrite (closeApp_ok _ _ _ acc app' Hacc Happ'). reflexivity. }
    assert (Hall : Ctx.processTransactions ext (pre ++ t :: post) c
                   = Ctx.resume ext (Datatypes.S (List.length pre)) post true c4).
    { rewrite Hat. unfold bind at 1. rewrite Hcb, Hdc. reflexivity. }
    split; [|split; [|split; [|split]]].
    + subst c4. rewrite lookup_put_account. case_decide; congruence.
    + subst acc'. cbn. apply lookup_delete_eq.
    + intros key. unfold StoreAccountM.getLocalState. subst acc'. cbn.
      rewrite lookup_delete_eq. reflexivity.
    + exact Hall.
    + intros ->. rewrite Hall. reflexivity.
  - intros Hne.
    assert (H1007 : is_RuntimeError_1007 ext e = false).
    { destruct e as [k| |]; cbn; try reflexivity.
      destruct (Z.eqb_spec (number ext k) 1007) as [Hk|]; [|reflexivity].
      apply Hinj in Hk. congruence. }
    rewrite H1007 in Hd.
    rewrite Hat. unfold bind at 1. rewrite Hcb, Hd. reflexivity.
Qed.

Lemma clear_rejected_by_logic_still_clears_witness :
  exists c4 : Context,
    Ctx.processTransactions Sample.ext
      ([Sample.pay "alice" "bob" 5000 None] ++ [Sample.clear "alice" 1])
      (Sample.context Sample.clear_group)
    = (Ok true, c4).
Proof.
  pose (ctx := Sample.context Sample.clear_group).
  pose (p := Sample.pay "alice" "bob" 5000 None).
  pose (t := Sample.clear "alice" 1).
  pose (c1 := Datatypes.snd (forEach (Ctx.processTransaction Sample.ext) [p] false ctx)).
  pose (c1' := Datatypes.snd (Ctx.deductFee "alice" 1 c1)).
  pose (c2 := Datatypes.snd (Ctx.beforeSwitch Sample.ext t 1 c1')).
  pose (c3 := Datatypes.snd (Ctx.run Sample.ext "reject" STATEFUL c2)).
  pose (acc := default Sample.alice (accounts (state c3) !! "alice")).
  assert (Hinj : forall k, number Sample.ext k = 1007 -> k = REJECTED_BY_LOGIC).
  { intros k. destruct k; cbn; intros H; try discriminate H. reflexivity. }
  assert (H1 : forEach (Ctx.processTransaction Sample.ext) [p] false ctx
               = (Ok false, c1)) by (apply pair_eta_fst; vm_compute; reflexivity).
  assert (H2 : Ctx.deductFee (addr (fromAccount t)) (List.length [p]) c1
               = (Ok tt, c1')) by (apply pair_eta_fst; vm_compute; reflexivity).
  assert (H3 : Ctx.beforeSwitch Sample.ext t (List.length [p]) c1' = (Ok tt, c2))
    by (apply pair_eta_fst; vm_compute; reflexivity).
  assert (H4 : Ctx.getApp 1 c2 = (Ok Sample.app1, c2))
    by (vm_compute; reflexivity).
  assert (H5 : Ctx.run Sample.ext (clear_state_program Sample.app1) STATEFUL c2
               = (Err (RuntimeError REJECTED_BY_LOGIC), c3))
    by (apply pair_eta_fst; vm_compute; reflexivity).
  assert (H6 : accounts (state c3) !! addr (fromAccount t) = Some acc)
    by (vm_compute; reflexivity).
  assert (H7 : is_Some (appsLocalState acc !! 1))
    by (vm_compute; eexists; reflexivity).
  assert (H8 : Ctx.getApp 1 c3 = (Ok Sample.app1, c3))
    by (vm_compute; reflexivity).
  destruct (clear_rejected_by_logic_still_clears Sample.ext [p] [] t 1
              ctx c1 c1' c2 c3 false Sample.app1 (RuntimeError REJECTED_BY_LOGIC)
              eq_refl Hinj eq_refl H1 H2 H3 H4 H5)
    as [HA _].
  destruct (HA eq_refl acc Sample.app1 H6 H7 H8) as (_ & _ & _ & _ & Hfin).
  eexists. exact (Hfin eq_refl).
Defined.

(** ** Witnesses and counterexamples for the opcodes *)

Lemma substring_contract_witness :
  Substring3.execute
    (mkStack None [Bytes [x41; x6c; x67; x6f; x72; x61; x6e; x64];
                   Uint64 4; Uint64 0])
  = (Ok tt, mkStack None [Bytes [x41; x6c; x67; x6f]])
  /\ fst (Substring3.execute
            (mkStack None [Bytes [x41; x6c; x67; x6f]; Uint64 2; Uint64 3]))
     = Err (TealError SUBSTRING_END_BEFORE_START).
Proof.
  split.
  - refine (proj2 (proj2 (proj1 (proj2
      (substring_contract [x41; x6c; x67; x6f; x72; x61; x6e; x64] 0 4
         _ _ _)) None [] I)) _ _); cbn; lia.
  - refine (proj1 (proj1 (proj2
      (substring_contract [x41; x6c; x67; x6f] 3 2 _ _ _)) None [] I) _);
      cbn; lia.
Defined.

Lemma ex_opcodes_did_exist_flag_witness :
  exists flag v,
    AppLocalGetEx.execute (Sample.context Sample.clear_group)
      (mkStack None [Bytes Sample.key_k; Uint64 1; Uint64 0])
    = (Ok tt, mkStack None [Uint64 flag; v])
    /\ (flag = 0 \/ flag = 1).
Proof.
  destruct (proj1 (ex_opcodes_did_exist_flag (Sample.context Sample.clear_group)
                     None [] Sample.key_k)
              1 0 Sample.alice I ltac:(vm_compute; reflexivity))
    as (flag & v & Hrun & Hflag & _).
  exists flag, v. split; assumption.
Defined.

(** The claim as stated fails: the key exists, the opcode pushes the
    value first and the flag on top of it, not below it. *)
Lemma ex_flag_is_above_value :
  StoreAccountM.getLocalState Sample.alice 1 Sample.key_k = Some (Bytes Sample.val_v)
  /\ AppLocalGetEx.execute (Sample.context Sample.clear_group)
       (mkStack None [Bytes Sample.key_k; Uint64 1; Uint64 0])
     = (Ok tt, mkStack None [Uint64 1; Bytes Sample.val_v])
  /\ ~ flag_below_value
         (AppLocalGetEx.execute (Sample.context Sample.clear_group)
            (mkStack None [Bytes Sample.key_k; Uint64 1; Uint64 0]))
         None [] true.
Proof.
  assert (H : AppLocalGetEx.execute (Sample.context Sample.clear_group)
                (mkStack None [Bytes Sample.key_k; Uint64 1; Uint64 0])
              = (Ok tt, mkStack None [Uint64 1; Bytes Sample.val_v]))
    by (vm_compute; reflexivity).
  split; [vm_compute; reflexivity|]. split; [exact H|].
  rewrite H. intros (v & Heq & _). discriminate Heq.
Qed.

(** A key stored with the value [Uint64 0] is reported as missing by
    both opcodes: [if (val)] takes [0n] for an absent value. *)
Lemma ex_flag_zero_for_stored_zero :
  StoreAccountM.getLocalState Sample.alice 1 Sample.key_z = Some (Uint64 0)
  /\ AppLocalGetEx.execute (Sample.context Sample.clear_group)
       (mkStack None [Bytes Sample.key_z; Uint64 1; Uint64 0])
     = (Ok tt, mkStack None [Uint64 0; Uint64 0])
  /\ AppGlobalGetEx.execute (Sample.context [Sample.clear "alice" 1])
       (mkStack None [Bytes Sample.key_z; Uint64 0])
     = (Ok tt, mkStack None [Uint64 0; Uint64 0]).
Proof. repeat split; vm_compute; reflexivity. Qed.

(** ** executeTx *)

Lemma run_store_kept (ext : External) (rt0 rt rt' : Runtime)
    (program : string) (mode : ExecutionMode) (r : Result unit) :
  store_kept rt0 rt ->
  Runtime.run ext program mode rt = (r, rt') ->
  store_kept rt0 rt'
  /\ ctx_state (ctx rt') = ctx_state (ctx rt).
Proof.
  intros (Hs & Hh & Hc & Hl). unfold Runtime.run.
  destruct (interpret ext program mode _) as [r' c']. intros [= _ <-].
  unfold store_kept. cbn. rewrite length_insert.
  rewrite list_lookup_insert_ne by assumption. auto.
Qed.

Lemma runPrograms_store_kept (ext : External) (txns : list ExecParams)
    (rt0 rt rt' : Runtime) (r : Result unit) :
  store_kept rt0 rt ->
  Runtime.runPrograms ext txns rt = (r, rt') ->
  store_kept rt0 rt'.
Proof.
  unfold Runtime.runPrograms.
  revert rt r rt'. induction txns as [|t txns IH]; intros rt r rt' Hk.
  - cbn. intros [= _ <-]. exact Hk.
  - cbn [for_of].
    assert (Hstep : forall (c : M Runtime unit),
               (forall rt1 r1 rt1', store_kept rt0 rt1 -> c rt1 = (r1, rt1') ->
                                    store_kept rt0 rt1') ->
               forall rt1 r1 rt1', store_kept rt0 rt1 ->
                 (Runtime.assertAmbiguousTxnParams t ;;; c) rt1 = (r1, rt1') ->
                 store_kept rt0 rt1').
    { intros c Hc rt1 r1 rt1' Hk1. unfold bind, Runtime.assertAmbiguousTxnParams.
      destruct (sign t), (lsig t); cbn; try (intros [= _ <-]; exact Hk1);
        apply Hc; exact Hk1. }
    assert (Hrun : forall program mode rt1 r1 rt1', store_kept rt0 rt1 ->
               Runtime.run ext program mode rt1 = (r1, rt1') -> store_kept rt0 rt1').
    { intros program mode rt1 r1 rt1' Hk1 H.
      exact (proj1 (run_store_kept ext rt0 rt1 rt1' program mode r1 Hk1 H)). }
    assert (Hprog : forall appId (sel : string * string -> string) rt1 r1 rt1',
               store_kept rt0 rt1 ->
               (p <- Runtime.getProgram appId ;; Runtime.run ext (sel p) STATEFUL) rt1
               = (r1, rt1') -> store_kept rt0 rt1').
    { intros appId sel rt1 r1 rt1' Hk1. unfold Runtime.getProgram, gets, bind.
      cbv beta. destruct (programMap rt1 !! appId) as [p|]; cbn.
      - apply Hrun. exact Hk1.
      - intros [= _ <-]. exact Hk1. }
    assert (Hbody : forall rt1 r1 rt1', store_kept rt0 rt1 ->
               (Runtime.assertAmbiguousTxnParams t ;;;
                (match sign t with
                 | LogicSignature => Runtime.validateLsigAndRun ext t
                 | SecretKey => ret tt
                 end) ;;;
                match type t with
                | CallNoOpSSC appId =>
                    p <- Runtime.getProgram appId ;; Runtime.run ext (fst p) STATEFUL
                | CloseSSC appId =>
                    p <- Runtime.getProgram appId ;; Runtime.run ext (fst p) STATEFUL
                | DeleteSSC appId =>
                    p <- Runtime.getProgram appId ;; Runtime.run ext (fst p) STATEFUL
                | ClearSSC appId =>
                    p <- Runtime.getProgram appId ;;
                    Runtime.run ext (Datatypes.snd p) STATEFUL
                | _ => ret tt
                end) rt1 = (r1, rt1') -> store_kept rt0 rt1').
    { intros rt1 r1 rt1' Hk1. apply Hstep; [|exact Hk1].
      clear rt1 r1 rt1' Hk1. intros rt1 r1 rt1' Hk1. unfold bind at 1.
      destruct ((match sign t with
                 | LogicSignature => Runtime.validateLsigAndRun ext t
                 | SecretKey => ret tt
                 end) rt1) as [r2 rt2] eqn:Hsig.
      assert (Hk2 : store_kept rt0 rt2).
      { destruct (sign t).
        - cbn in Hsig. injection Hsig as _ <-. exact Hk1.
        - unfold Runtime.validateLsigAndRun in Hsig.
          destruct (lsig t) as [l|]; [|cbn in Hsig; injection Hsig as _ <-; exact Hk1].
          destruct (negb (verify l (addr (fromAccount t))));
            [cbn in Hsig; injection Hsig as _ <-; exact Hk1|].
          eapply Hrun; eassumption. }
      destruct r2 as [[]|e]; [|intros [= _ <-]; exact Hk2].
      destruct (type t); try (cbn; intros [= _ <-]; exact Hk2);
        apply Hprog; exact Hk2. }
    unfold bind at 1.
    match goal with
    | |- context [match ?body rt with _ => _ end] =>
        destruct (body rt) as [r1 rt1] eqn:Hb
    end.
    pose proof (Hbody rt r1 rt1 Hk Hb) as Hk1.
    destruct r1 as [[]|e]; [|intros [= _ <-]; exact Hk1].
    apply IH. exact Hk1.
Qed.

(** A group rejected before [updateFinalState] (while the context is
    built or a program runs) leaves the canonical state as it was. *)
Lemma executeTx_rejected_before_commit (ext : External)
    (txnParams : ExecParams + list ExecParams) (args : option (list (list byte)))
    (rt rt' : Runtime) (e : Error) :
  runtime_wf rt ->
  Runtime.executeTx_programs ext txnParams args rt = (Err e, rt') ->
  Runtime.executeTx ext txnParams args rt = (Err e, rt')
  /\ store_state rt' = store_state rt.
Proof.
  intros Hwf Hp. split.
  { unfold Runtime.executeTx. rewrite (bind_Err _ _ _ _ _ Hp). reflexivity. }
  revert Hp. unfold Runtime.executeTx_programs. unfold bind at 1.
  destruct (Runtime.createTxnContext ext txnParams rt) as [rc rt1] eqn:Hc.
  assert (Hrt1 : rt1 = rt).
  { revert Hc. unfold Runtime.createTxnContext.
    assert (Hmk : forall l r1 rtx, Runtime.mkTransactions ext l rt = (r1, rtx) ->
                                   rtx = rt).
    { induction l as [|x l IH]; cbn; intros r1 rtx.
      - now intros [= _ <-].
      - unfold bind, lift. destruct (mkTransaction ext x); [|now intros [= _ <-]].
        destruct (Runtime.mkTransactions ext l rt) as [[txs|e1] rtl] eqn:Hl;
          pose proof (IH _ _ eq_refl) as ->; now intros [= _ <-]. }
    destruct txnParams as [p|ps].
    - unfold bind, lift. destruct (mkTransaction ext p); now intros [= _ <-].
    - destruct (16 <? List.length ps)%nat; [now intros [= _ <-]|].
      unfold bind. destruct (Runtime.mkTransactions ext ps rt) as [[txs|e1] rtl] eqn:Hl;
        pose proof (Hmk _ _ _ Hl) as ->; now intros [= _ <-]. }
  subst rt1. destruct rc as [[tx0 gtxs0]|e0]; [|now intros [= _ <-]].
  unfold bind at 1. cbn [cloneDeep_store]. unfold bind at 1. cbn [modify].
  set (rt2 := set_ctx _ _).
  assert (Hk : store_kept rt rt2).
  { subst rt2. unfold store_kept, runtime_wf in *. cbn.
    rewrite length_app. cbn. repeat split; try lia.
    apply lookup_app_l. exact Hwf. }
  unfold bind at 1.
  destruct (Runtime.runPrograms ext _ rt2) as [r3 rt3] eqn:Hrun.
  pose proof (runPrograms_store_kept _ _ _ _ _ _ Hk Hrun) as (Hs & Hh & _ & _).
  destruct r3 as [[]|e3]; [discriminate|]. intros [= _ <-].
  unfold store_state, deref. rewrite Hs, Hh. reflexivity.
Qed.

(** The accessors of the runtime read the canonical state only. *)
Lemma accessors_read_store (rt rt' : Runtime) :
  store_state rt = store_state rt' ->
  (forall address,
      fst (Runtime.getAccount address rt) = fst (Runtime.getAccount address rt'))
  /\ (forall appId, fst (Runtime.getApp appId rt) = fst (Runtime.getApp appId rt'))
  /\ (forall appId key,
        fst (Runtime.getGlobalState appId key rt)
        = fst (Runtime.getGlobalState appId key rt'))
  /\ (forall appId accountAddr key,
        fst (Runtime.getLocalState appId accountAddr key rt)
        = fst (Runtime.getLocalState appId accountAddr key rt')).
Proof.
  intros Hs. repeat split.
  - intros address. unfold Runtime.getAccount, bind, gets. rewrite Hs.
    destruct (accounts (store_state rt') !! address); reflexivity.
  - intros appId. unfold Runtime.getApp, bind, gets. cbv beta. rewrite Hs.
    destruct (globalApps (store_state rt') !! appId) as [a|]; [|reflexivity].
    cbn. rewrite Hs.
    destruct (accounts (store_state rt') !! a) as [acc|]; [|reflexivity].
    cbn. destruct (StoreAccountM.getApp acc appId); reflexivity.
  - intros appId key. unfold Runtime.getGlobalState, bind, gets. cbv beta.
    rewrite Hs.
    destruct (globalApps (store_state rt') !! appId) as [a|]; [|reflexivity].
    cbn. rewrite Hs.
    destruct (accounts (store_state rt') !! a) as [acc|]; [|reflexivity].
    cbn. unfold StoreAccountM.getGlobalState, bind.
    destruct (StoreAccountM.getApp acc appId); reflexivity.
  - intros appId accountAddr key. unfold Runtime.getLocalState, bind, gets.
    cbv beta. rewrite Hs.
    destruct (accounts (store_state rt') !! accountAddr); reflexivity.
Qed.

(** C1 fails on the code: the second transfer of the group names an
    address without an account, [executeTx] throws
    ACCOUNT_DOES_NOT_EXIST from [updateFinalState], and by then the copy
    has replaced the store and the first transfer has been applied to it:
    after the rejected call alice has lost 100 micro-algos and bob has
    gained them. *)
Theorem executeTx_partial_commit :
  fst (Runtime.executeTx Sample.ext (inr Sample.ghost_group) None Sample.runtime)
  = Err (TealError ACCOUNT_DOES_NOT_EXIST)
  /\ balance_of Sample.runtime "alice" = Ok 20000
  /\ balance_of Sample.runtime "bob" = Ok 10000
  /\ balance_of
       (Datatypes.snd
          (Runtime.executeTx Sample.ext (inr Sample.ghost_group) None Sample.runtime))
       "alice" = Ok 19900
  /\ balance_of
       (Datatypes.snd
          (Runtime.executeTx Sample.ext (inr Sample.ghost_group) None Sample.runtime))
       "bob" = Ok 10100
  /\ store Sample.runtime = 0%nat
  /\ store
       (Datatypes.snd
          (Runtime.executeTx Sample.ext (inr Sample.ghost_group) None Sample.runtime))
     = 1%nat.
Proof. repeat split; vm_compute; reflexivity. Qed.

(** ** The vectors of the opcode tests *)

(** The expectations of the repository's tests of the opcodes
    (test/src/interpreter/opcode-list.ts), run on the embedding. *)

Example itob_4 :
  Itob.execute (mkStack None [Uint64 4])
  = (Ok tt, mkStack None [Bytes [x00; x00; x00; x00; x00; x00; x00; x04]]).
Proof. vm_compute. reflexivity. Qed.

Example btoi_1 :
  Btoi.execute (mkStack None [Bytes [x00; x00; x00; x00; x00; x00; x00; x01]])
  = (Ok tt, mkStack None [Uint64 1]).
Proof. vm_compute. reflexivity. Qed.

Example addw_no_carry :
  Addw.execute (mkStack None [Uint64 3; Uint64 10])
  = (Ok tt, mkStack None [Uint64 13; Uint64 0]).
Proof. vm_compute. reflexivity. Qed.

Example mulw_big :
  Mulw.execute (mkStack None [Uint64 9162596898; Uint64 (MAX_UINT64 - 2)])
  = (Ok tt, mkStack None [Uint64 18446744046221760922; Uint64 9162596897]).
Proof. vm_compute. reflexivity. Qed.

Example mulw_small :
  Mulw.execute (mkStack None [Uint64 3; Uint64 10])
  = (Ok tt, mkStack None [Uint64 30; Uint64 0]).
Proof. vm_compute. reflexivity. Qed.

Example mulw_too_short :
  fst (Mulw.execute (mkStack None [Uint64 3])) = Err (TealError ASSERT_STACK_LENGTH).
Proof. vm_compute. reflexivity. Qed.

Example substring_Algo :
  Substring.execute 0 4
    (mkStack None [Bytes [x41; x6c; x67; x6f; x72; x61; x6e; x64]])
  = (Ok tt, mkStack None [Bytes [x41; x6c; x67; x6f]]).
Proof. vm_compute. reflexivity. Qed.

Example substring_start_after_end :
  fst (Substring.execute 9 4
         (mkStack None [Bytes [x41; x6c; x67; x6f; x72; x61; x6e; x64]]))
  = Err (TealError SUBSTRING_END_BEFORE_START).
Proof. vm_compute. reflexivity. Qed.

Example substring_beyond :
  fst (Substring.execute 0 40
         (mkStack None [Bytes [x41; x6c; x67; x6f; x72; x61; x6e; x64]]))
  = Err (TealError SUBSTRING_RANGE_BEYOND).
Proof. vm_compute. reflexivity. Qed.

Example substring_not_uint8 :
  fst (Substring.execute 260 4
         (mkStack None [Bytes [x41; x6c; x67; x6f; x72; x61; x6e; x64]]))
  = Err (TealError INVALID_UINT8).
Proof. vm_compute. reflexivity. Qed.

(** [Number] of a [bigint] rounds above [2^53]. *)
Example toNumber_values :
  toNumber 12345 = 12345
  /\ toNumber (2 ^ 53 + 1) = 2 ^ 53
  /\ toNumber (2 ^ 53 + 3) = 2 ^ 53 + 4
  /\ toNumber MAX_UINT64 = 2 ^ 64.
Proof. repeat split; vm_compute; reflexivity. Qed.

(** ** Arithmetic opcodes *)

Lemma checkOverflow_ok {S} (x : Z) (s : S) :
  x <= MAX_UINT64 -> Op.checkOverflow x s = (Ok tt, s).
Proof.
  intros H. unfold Op.checkOverflow.
  destruct (Z.gtb_spec x MAX_UINT64); [lia|reflexivity].
Qed.

Lemma checkOverflow_err {S} (x : Z) (s : S) :
  x > MAX_UINT64 -> Op.checkOverflow x s = (Err (TealError UINT64_OVERFLOW), s).
Proof.
  intros H. unfold Op.checkOverflow.
  destruct (Z.gtb_spec x MAX_UINT64); [reflexivity|lia].
Qed.

Lemma checkUnderflow_ok {S} (x : Z) (s : S) :
  0 <= x -> Op.checkUnderflow x s = (Ok tt, s).
Proof.
  intros H. unfold Op.checkUnderflow, MIN_UINT64.
  destruct (Z.ltb_spec x 0); [lia|reflexivity].
Qed.

Lemma checkUnderflow_err {S} (x : Z) (s : S) :
  x < 0 -> Op.checkUnderflow x s = (Err (TealError UINT64_UNDERFLOW), s).
Proof.
  intros H. unfold Op.checkUnderflow, MIN_UINT64.
  destruct (Z.ltb_spec x 0); [reflexivity|lia].
Qed.

Lemma add_run (cap : option nat) (rest : list StackElem) (prev last : Z) :
  has_room cap rest -> prev + last <= MAX_UINT64 ->
  Add.execute (mkStack cap (Uint64 last :: Uint64 prev :: rest))
  = (Ok tt, mkStack cap (Uint64 (prev + last) :: rest)).
Proof.
  intros Hr Hle. unfold Add.execute. run.
  rewrite (bind_Ok _ _ _ _ _ (checkOverflow_ok _ _ Hle)). run. reflexivity.
Qed.

Lemma sub_run (cap : option nat) (rest : list StackElem) (prev last : Z) :
  has_room cap rest -> last <= prev ->
  Sub.execute (mkStack cap (Uint64 last :: Uint64 prev :: rest))
  = (Ok tt, mkStack cap (Uint64 (prev - last) :: rest)).
Proof.
  intros Hr Hle. unfold Sub.execute. run.
  rewrite (bind_Ok _ _ _ _ _ (checkUnderflow_ok (prev - last) _ ltac:(lia))).
  run. reflexivity.
Qed.

Lemma wf_has_room2 (cap : option nat) (x y : StackElem) (l : list StackElem) :
  stack_wf (mkStack cap (x :: y :: l)) -> has_room cap (y :: l) /\ has_room cap l.
Proof. unfold stack_wf, has_room. cbn. destruct cap; [lia|auto]. Qed.

(** X1. For u64 operands, [+] fails with UINT64_OVERFLOW exactly when
    the sum exceeds [MAX_UINT64] and [-] fails with UINT64_UNDERFLOW
    exactly when the subtrahend exceeds the minuend; both operands have
    been popped by then.  Otherwise the exact sum, or difference, which
    is again a u64, replaces the operands, and the two opcodes undo each
    other: subtracting the second operand from the sum restores the
    first, and adding the subtrahend to the difference restores the
    minuend. *)
Theorem add_sub_contract (cap : option nat) (rest : list StackElem)
    (prev last : Z) :
  is_u64 prev -> is_u64 last ->
  stack_wf (mkStack cap (Uint64 last :: Uint64 prev :: rest)) ->
  let st := mkStack cap (Uint64 last :: Uint64 prev :: rest) in
  (prev + last > MAX_UINT64 ->
     Add.execute st = (Err (TealError UINT64_OVERFLOW), mkStack cap rest))
  /\ (prev + last <= MAX_UINT64 ->
     Add.execute st = (Ok tt, mkStack cap (Uint64 (prev + last) :: rest))
     /\ is_u64 (prev + last)
     /\ (Add.execute ;;; StackM.push (Uint64 last) ;;; Sub.execute) st
        = (Ok tt, mkStack cap (Uint64 prev :: rest)))
  /\ (prev < last ->
     Sub.execute st = (Err (TealError UINT64_UNDERFLOW), mkStack cap rest))
  /\ (last <= prev ->
     Sub.execute st = (Ok tt, mkStack cap (Uint64 (prev - last) :: rest))
     /\ is_u64 (prev - last)
     /\ (Sub.execute ;;; StackM.push (Uint64 last) ;;; Add.execute) st
        = (Ok tt, mkStack cap (Uint64 prev :: rest))).
Proof.
  intros Hp Hl Hwf st. subst st.
  destruct (wf_has_room2 _ _ _ _ Hwf) as [Hr1 Hr].
  assert (Hr1' : has_room cap (Uint64 prev :: rest))
    by (unfold has_room in *; destruct cap; cbn in *; [lia|trivial]).
  unfold is_u64 in *. split; [|split; [|split]]; intros H.
  - unfold Add.execute. run.
    rewrite (bind_Err _ _ _ _ _ (checkOverflow_err _ _ H)). reflexivity.
  - split; [apply add_run; assumption|]. split; [lia|].
    rewrite (bind_Ok _ _ _ _ _ (add_run cap rest prev last Hr H)).
    rewrite push_bind
      by (unfold has_room in *; destruct cap; cbn in *; [lia|trivial]).
    rewrite sub_run by (assumption || lia).
    repeat f_equal. lia.
  - unfold Sub.execute. run.
    rewrite (bind_Err _ _ _ _ _ (checkUnderflow_err (prev - last) _ ltac:(lia))).
    reflexivity.
  - split; [apply sub_run; assumption|]. split; [lia|].
    rewrite (bind_Ok _ _ _ _ _ (sub_run cap rest prev last Hr H)).
    rewrite push_bind
      by (unfold has_room in *; destruct cap; cbn in *; [lia|trivial]).
    rewrite add_run by (assumption || lia).
    repeat f_equal. lia.
Qed.

Lemma add_sub_contract_witness :
  Add.execute (mkStack None [Uint64 1; Uint64 MAX_UINT64])
  = (Err (TealError UINT64_OVERFLOW), mkStack None [])
  /\ (Sub.execute ;;; StackM.push (Uint64 1) ;;; Add.execute)
       (mkStack None [Uint64 1; Uint64 MAX_UINT64])
     = (Ok tt, mkStack None [Uint64 MAX_UINT64]).
Proof.
  pose proof (add_sub_contract None [] MAX_UINT64 1
                ltac:(unfold is_u64, MAX_UINT64; lia)
                ltac:(unfold is_u64, MAX_UINT64; lia) I) as H.
  split.
  - apply (proj1 H). unfold MAX_UINT64. lia.
  - apply (proj2 (proj2 (proj2 (proj2 (proj2 H)) ltac:(unfold MAX_UINT64; lia)))).
Defined.


(** X2. [/] and [%] fail with ZERO_DIV exactly when the divisor is
    zero.  For u64 operands with a non-zero divisor they push the
    quotient [q] and the remainder [r] of the Euclidean division:
    [prev = q * last + r] with [0 <= r < last], and both are u64. *)
Theorem div_mod_euclid (cap : option nat) (rest : list StackElem) (prev last : Z) :
  is_u64 prev -> is_u64 last ->
  stack_wf (mkStack cap (Uint64 last :: Uint64 prev :: rest)) ->
  let st := mkStack cap (Uint64 last :: Uint64 prev :: rest) in
  (last = 0 ->
     Div.execute st = (Err (RuntimeError ZERO_DIV), mkStack cap rest)
     /\ Mod.execute st = (Err (RuntimeError ZERO_DIV), mkStack cap rest))
  /\ (last <> 0 ->
     exists q r,
       Div.execute st = (Ok tt, mkStack cap (Uint64 q :: rest))
       /\ Mod.execute st = (Ok tt, mkStack cap (Uint64 r :: rest))
       /\ prev = q * last + r /\ 0 <= r < last
       /\ is_u64 q /\ is_u64 r).
Proof.
  intros Hp Hl Hwf st. subst st.
  destruct (wf_has_room2 _ _ _ _ Hwf) as [_ Hr].
  unfold is_u64 in *. split.
  - intros ->. split; [unfold Div.execute|unfold Mod.execute]; run; reflexivity.
  - intros Hne. exists (Z.quot prev last), (Z.rem prev last).
    pose proof (Z.quot_rem' prev last) as Hqr.
    pose proof (Z.rem_bound_pos prev last ltac:(lia) ltac:(lia)) as Hrem.
    pose proof (Z.quot_pos prev last ltac:(lia) ltac:(lia)) as Hq.
    split; [|split; [|split; [|split; [|split]]]].
    + unfold Div.execute. run.
      destruct (Z.eqb_spec last 0); [contradiction|]. run. reflexivity.
    + unfold Mod.execute. run.
      destruct (Z.eqb_spec last 0); [contradiction|]. run. reflexivity.
    + lia.
    + exact Hrem.
    + split; [exact Hq|]. nia.
    + lia.
Qed.

Lemma div_mod_euclid_witness :
  exists q r,
    Div.execute (mkStack None [Uint64 7; Uint64 40])
    = (Ok tt, mkStack None [Uint64 q])
    /\ Mod.execute (mkStack None [Uint64 7; Uint64 40])
       = (Ok tt, mkStack None [Uint64 r])
    /\ 40 = q * 7 + r /\ 0 <= r < 7 /\ is_u64 q /\ is_u64 r.
Proof.
  apply (proj2 (div_mod_euclid None [] 40 7
                  ltac:(unfold is_u64, MAX_UINT64; lia)
                  ltac:(unfold is_u64, MAX_UINT64; lia) I)).
  lia.
Defined.

Lemma mulw_run (cap : option nat) (rest : list StackElem) (a b : Z) :
  is_u64 a -> is_u64 b ->
  stack_wf (mkStack cap (Uint64 a :: Uint64 b :: rest)) ->
  Mulw.execute (mkStack cap (Uint64 a :: Uint64 b :: rest))
  = (Ok tt, mkStack cap (Uint64 ((a * b) mod 2 ^ 64)
                           :: Uint64 ((a * b) / 2 ^ 64) :: rest)).
Proof.
  intros Ha Hb Hwf. unfold is_u64, MAX_UINT64 in Ha, Hb.
  unfold Mulw.execute. run.
  rewrite MAX_UINT64_ones, Z.land_ones, Z.shiftr_div_pow2 by lia.
  pose proof (Z.mod_pos_bound (a * b) (2 ^ 64) ltac:(lia)) as Hm.
  assert (Hh : 0 <= a * b / 2 ^ 64 < 2 ^ 64).
  { split; [apply Z.div_pos; nia|apply Z.div_lt_upper_bound; nia]. }
  rewrite (bind_Ok _ _ _ _ _
             (checkOverflow_ok ((a * b) mod 2 ^ 64) _ ltac:(unfold MAX_UINT64; lia))).
  rewrite (bind_Ok _ _ _ _ _
             (checkOverflow_ok (a * b / 2 ^ 64) _ ltac:(unfold MAX_UINT64; lia))).
  run. reflexivity.
Qed.

(** X3. [*] and [mulw] agree: for u64 operands [*] succeeds exactly when
    the high word that [mulw] pushes is zero, and the product it pushes
    is then the low word of [mulw]; when the high word is not zero [*]
    fails with UINT64_OVERFLOW, while [mulw] still splits the product. *)
Theorem mul_agrees_with_mulw (cap : option nat) (rest : list StackElem) (a b : Z) :
  is_u64 a -> is_u64 b ->
  stack_wf (mkStack cap (Uint64 a :: Uint64 b :: rest)) ->
  let st := mkStack cap (Uint64 a :: Uint64 b :: rest) in
  exists low high,
    Mulw.execute st = (Ok tt, mkStack cap (Uint64 low :: Uint64 high :: rest))
    /\ a * b = high * 2 ^ 64 + low /\ 0 <= low < 2 ^ 64
    /\ (high = 0 ->
        Mul.execute st = (Ok tt, mkStack cap (Uint64 low :: rest)))
    /\ (high <> 0 ->
        Mul.execute st = (Err (TealError UINT64_OVERFLOW), mkStack cap rest)).
Proof.
  intros Ha Hb Hwf st. subst st.
  destruct (wf_has_room2 _ _ _ _ Hwf) as [_ Hr].
  exists ((a * b) mod 2 ^ 64), ((a * b) / 2 ^ 64).
  pose proof (Z.div_mod (a * b) (2 ^ 64) ltac:(lia)) as Hdm.
  pose proof (Z.mod_pos_bound (a * b) (2 ^ 64) ltac:(lia)) as Hm.
  unfold is_u64, MAX_UINT64 in Ha, Hb.
  assert (Hh : 0 <= a * b / 2 ^ 64) by (apply Z.div_pos; nia).
  split; [apply mulw_run; unfold is_u64, MAX_UINT64; tauto || assumption|].
  split; [lia|]. split; [exact Hm|]. split; intros Hhigh.
  - unfold Mul.execute. run.
    rewrite (bind_Ok _ _ _ _ _
               (checkOverflow_ok (b * a) _ ltac:(unfold MAX_UINT64; lia))).
    run. repeat f_equal. lia.
  - unfold Mul.execute. run.
    rewrite (bind_Err _ _ _ _ _
               (checkOverflow_err (b * a) _ ltac:(unfold MAX_UINT64; nia))).
    reflexivity.
Qed.

Lemma mul_agrees_with_mulw_witness :
  exists low high,
    Mulw.execute (mkStack None [Uint64 (2 ^ 32); Uint64 (2 ^ 32)])
    = (Ok tt, mkStack None [Uint64 low; Uint64 high])
    /\ 2 ^ 32 * 2 ^ 32 = high * 2 ^ 64 + low /\ 0 <= low < 2 ^ 64
    /\ (high = 0 ->
        Mul.execute (mkStack None [Uint64 (2 ^ 32); Uint64 (2 ^ 32)])
        = (Ok tt, mkStack None [Uint64 low]))
    /\ (high <> 0 ->
        Mul.execute (mkStack None [Uint64 (2 ^ 32); Uint64 (2 ^ 32)])
        = (Err (TealError UINT64_OVERFLOW), mkStack None [])).
Proof.
  apply (mul_agrees_with_mulw None [] (2 ^ 32) (2 ^ 32)
           ltac:(unfold is_u64, MAX_UINT64; lia)
           ltac:(unfold is_u64, MAX_UINT64; lia) I).
Defined.

(** X4. [~] pushes [-x - 1]: for a u64 operand the result is negative,
    so it is not a u64, and applying [~] twice restores the operand. *)
Theorem bitwise_not_leaves_u64 (cap : option nat) (rest : list StackElem) (x : Z) :
  is_u64 x ->
  stack_wf (mkStack cap (Uint64 x :: rest)) ->
  BitwiseNot.execute (mkStack cap (Uint64 x :: rest))
  = (Ok tt, mkStack cap (Uint64 (- x - 1) :: rest))
  /\ ~ is_u64 (- x - 1)
  /\ (BitwiseNot.execute ;;; BitwiseNot.execute) (mkStack cap (Uint64 x :: rest))
     = (Ok tt, mkStack cap (Uint64 x :: rest)).
Proof.
  intros Hx Hwf. pose proof (wf_has_room _ _ _ Hwf) as Hr.
  assert (Hrun : forall y, BitwiseNot.execute (mkStack cap (Uint64 y :: rest))
                           = (Ok tt, mkStack cap (Uint64 (- y - 1) :: rest))).
  { intros y. unfold BitwiseNot.execute. run.
    unfold Z.lnot. repeat f_equal; lia. }
  split; [apply Hrun|]. split.
  - unfold is_u64 in *. lia.
  - rewrite (bind_Ok _ _ _ _ _ (Hrun x)), Hrun. repeat f_equal; lia.
Qed.

Lemma bitwise_not_leaves_u64_witness :
  BitwiseNot.execute (mkStack None [Uint64 10])
  = (Ok tt, mkStack None [Uint64 (- 10 - 1)])
  /\ ~ is_u64 (- 10 - 1)
  /\ (BitwiseNot.execute ;;; BitwiseNot.execute) (mkStack None [Uint64 10])
     = (Ok tt, mkStack None [Uint64 10]).
Proof.
  apply (bitwise_not_leaves_u64 None [] 10
           ltac:(unfold is_u64, MAX_UINT64; lia) I).
Defined.


(** ** The u64 range as an invariant of the stack *)

Lemma bind_inv {S A B} (c : M S A) (k : A -> M S B) (s s' : S) (b : B) :
  bind c k s = (Ok b, s') ->
  exists a s1, c s = (Ok a, s1) /\ k a s1 = (Ok b, s').
Proof.
  unfold bind. destruct (c s) as [[a|e] s1]; [eauto|discriminate].
Qed.

Lemma ret_inv {S A} (a b : A) (s s' : S) :
  ret a s = (Ok b, s') -> a = b /\ s = s'.
Proof. now intros [= <- <-]. Qed.

Lemma push_inv (x : StackElem) (s s' : Stack) (u : unit) :
  StackM.push x s = (Ok u, s') -> s' = mkStack (capacity s) (x :: items s).
Proof.
  unfold StackM.push. destruct (capacity s) as [c|].
  - destruct (List.length (items s) =? c)%nat; [discriminate|]. now intros [= _ <-].
  - now intros [= _ <-].
Qed.

Lemma pop_inv (x : StackElem) (s s' : Stack) :
  StackM.pop s = (Ok x, s') ->
  items s = x :: items s' /\ capacity s' = capacity s.
Proof.
  unfold StackM.pop. destruct (items s) as [|y l]; [discriminate|].
  intros [= <- <-]. auto.
Qed.

Lemma assertMinStackLen_inv (n : nat) (s s' : Stack) (u : unit) :
  Op.assertMinStackLen n s = (Ok u, s') -> s' = s /\ (n <= StackM.length s)%nat.
Proof.
  unfold Op.assertMinStackLen.
  destruct (Nat.ltb_spec (StackM.length s) n); [discriminate|].
  intros [= _ <-]. auto.
Qed.

Lemma assertBigInt_inv {S} (a : StackElem) (n : Z) (s s' : S) :
  Op.assertBigInt a s = (Ok n, s') -> a = Uint64 n /\ s' = s.
Proof. destruct a; cbn; [now intros [= <- <-]|discriminate]. Qed.

Lemma assertBytes_inv {S} (a : StackElem) (b : list byte) (s s' : S) :
  Op.assertBytes a s = (Ok b, s') -> a = Bytes b /\ s' = s.
Proof. destruct a; cbn; [discriminate|now intros [= <- <-]]. Qed.

Lemma checkOverflow_inv {S} (x : Z) (s s' : S) (u : unit) :
  Op.checkOverflow x s = (Ok u, s') -> x <= MAX_UINT64 /\ s' = s.
Proof.
  unfold Op.checkOverflow. destruct (Z.gtb_spec x MAX_UINT64); [discriminate|].
  intros [= _ <-]. split; [lia|reflexivity].
Qed.

Lemma checkUnderflow_inv {S} (x : Z) (s s' : S) (u : unit) :
  Op.checkUnderflow x s = (Ok u, s') -> 0 <= x /\ s' = s.
Proof.
  unfold Op.checkUnderflow, MIN_UINT64. destruct (Z.ltb_spec x 0); [discriminate|].
  intros [= _ <-]. split; [lia|reflexivity].
Qed.

Lemma pop_range (x : StackElem) (s s' : Stack) :
  StackM.pop s = (Ok x, s') -> stack_in_range s ->
  elem_in_range x /\ stack_in_range s'.
Proof.
  intros H R. apply pop_inv in H as [Hi _]. unfold stack_in_range in *.
  rewrite Hi in R. now inversion R.
Qed.

Lemma push_range (x : StackElem) (s s' : Stack) (u : unit) :
  StackM.push x s = (Ok u, s') -> stack_in_range s -> elem_in_range x ->
  stack_in_range s'.
Proof.
  intros H R Hx. apply push_inv in H as ->. unfold stack_in_range in *.
  cbn. now constructor.
Qed.

Lemma u64_land_ones (x : Z) : is_u64 x <-> Z.land x (Z.ones 64) = x.
Proof.
  rewrite Z.land_ones by lia. unfold is_u64, MAX_UINT64. split.
  - intros H. apply Z.mod_small. lia.
  - intros H. pose proof (Z.mod_pos_bound x (2 ^ 64) ltac:(lia)). lia.
Qed.

Lemma u64_lor (a b : Z) : is_u64 a -> is_u64 b -> is_u64 (Z.lor a b).
Proof.
  rewrite !u64_land_ones. intros Ha Hb.
  rewrite Z.land_lor_distr_l, Ha, Hb. reflexivity.
Qed.

Lemma u64_land (a b : Z) : is_u64 a -> is_u64 b -> is_u64 (Z.land a b).
Proof.
  rewrite !u64_land_ones. intros Ha Hb.
  rewrite <- Z.land_assoc, Hb. reflexivity.
Qed.

Lemma u64_lxor (a b : Z) : is_u64 a -> is_u64 b -> is_u64 (Z.lxor a b).
Proof.
  rewrite !u64_land_ones. intros Ha Hb.
  apply Z.bits_inj'. intros n Hn. rewrite Z.land_spec, Z.lxor_spec.
  assert (Ha' : Z.testbit a n = Z.testbit a n && Z.testbit (Z.ones 64) n)
    by (rewrite <- Z.land_spec, Ha; reflexivity).
  assert (Hb' : Z.testbit b n = Z.testbit b n && Z.testbit (Z.ones 64) n)
    by (rewrite <- Z.land_spec, Hb; reflexivity).
  destruct (Z.testbit (Z.ones 64) n).
  - now rewrite andb_true_r.
  - rewrite andb_false_r in *. now rewrite Ha', Hb'.
Qed.

Lemma u64_bool (c : bool) : is_u64 (if c then 1 else 0).
Proof. unfold is_u64, MAX_UINT64. destruct c; lia. Qed.

Lemma u64_quot (a b : Z) : is_u64 a -> is_u64 b -> b <> 0 -> is_u64 (Z.quot a b).
Proof.
  unfold is_u64. intros Ha Hb Hne.
  pose proof (Z.quot_rem' a b) as Hqr.
  pose proof (Z.rem_bound_pos a b ltac:(lia) ltac:(lia)) as Hrem.
  pose proof (Z.quot_pos a b ltac:(lia) ltac:(lia)) as Hq.
  split; [exact Hq|nia].
Qed.

Lemma u64_rem (a b : Z) : is_u64 a -> is_u64 b -> b <> 0 -> is_u64 (Z.rem a b).
Proof.
  unfold is_u64. intros Ha Hb Hne.
  pose proof (Z.rem_bound_pos a b ltac:(lia) ltac:(lia)) as Hrem. lia.
Qed.

Lemma u64_mul_low (a b : Z) : is_u64 (Z.land (a * b) MAX_UINT64).
Proof.
  rewrite MAX_UINT64_ones, Z.land_ones by lia. unfold is_u64, MAX_UINT64.
  pose proof (Z.mod_pos_bound (a * b) (2 ^ 64) ltac:(lia)). lia.
Qed.

Lemma u64_mul_high (a b : Z) : is_u64 a -> is_u64 b -> is_u64 (Z.shiftr (a * b) 64).
Proof.
  unfold is_u64, MAX_UINT64. intros Ha Hb. rewrite Z.shiftr_div_pow2 by lia. split.
  - apply Z.div_pos; nia.
  - assert (a * b / 2 ^ 64 < 2 ^ 64); [|lia]. apply Z.div_lt_upper_bound; nia.
Qed.

Lemma u64_decoded (data : list byte) :
  (List.length data <= 8)%nat ->
  is_u64 (be_value (repeat x00 (8 - List.length data) ++ data)).
Proof.
  intros Hlen.
  pose proof (be_value_range (repeat x00 (8 - List.length data) ++ data)) as Hr.
  rewrite length_app, repeat_length in Hr.
  replace (8 - List.length data + List.length data)%nat with 8%nat in Hr by lia.
  unfold is_u64, MAX_UINT64. cbn in Hr. lia.
Qed.

(** The inversion of a successful run of straight-line stack code: each
    pop yields an element in range, and each push asks for one. *)
Ltac bool_to_prop :=
  rewrite ?Z.gtb_ltb, ?Z.geb_leb in *;
  rewrite ?Z.eqb_eq, ?Z.eqb_neq, ?Z.ltb_lt, ?Z.ltb_ge, ?Z.leb_le, ?Z.leb_gt in *.

Ltac range_solve :=
  cbn [elem_in_range] in *;
  first
    [ assumption
    | exact I
    | apply u64_bool
    | apply u64_lor; assumption
    | apply u64_land; assumption
    | apply u64_lxor; assumption
    | apply u64_mul_low
    | apply u64_mul_high; assumption
    | bool_to_prop;
      first [ apply u64_quot; assumption
            | apply u64_rem; assumption
            | unfold is_u64, MAX_UINT64 in *; lia ] ].

Ltac range_inv :=
  repeat match goal with
  | H : bind _ _ _ = (Ok _, _) |- _ =>
      apply bind_inv in H; destruct H as (? & ? & ? & H)
  | H : Op.assertMinStackLen _ _ = (Ok _, _) |- _ =>
      apply assertMinStackLen_inv in H; destruct H as [-> _]
  | H : StackM.pop ?s = (Ok _, _), R : stack_in_range ?s |- _ =>
      destruct (pop_range _ _ _ H R) as [? ?]; clear H R
  | H : Op.assertBigInt _ _ = (Ok _, _) |- _ =>
      apply assertBigInt_inv in H; destruct H as [-> ->]
  | H : Op.assertBytes _ _ = (Ok _, _) |- _ =>
      apply assertBytes_inv in H; destruct H as [-> ->]
  | H : Op.checkOverflow _ _ = (Ok _, _) |- _ =>
      apply checkOverflow_inv in H; destruct H as [? ->]
  | H : Op.checkUnderflow _ _ = (Ok _, _) |- _ =>
      apply checkUnderflow_inv in H; destruct H as [? ->]
  | H : ret _ _ = (Ok _, _) |- _ =>
      apply ret_inv in H; destruct H as [? ?]; subst
  | H : throw _ _ = (Ok _, _) |- _ => discriminate H
  | H : (if ?c then _ else _) _ = (Ok _, _) |- _ => destruct c eqn:?
  | H : StackM.push ?x ?s = (Ok _, ?s'), R : stack_in_range ?s |- _ =>
      let R' := fresh "R" in
      assert (R' : stack_in_range s')
        by (apply (push_range _ _ _ _ H R); range_solve);
      clear H R
  end.

(** X5. The u64 range is an invariant of the arithmetic, logic and
    stack-shuffling opcodes and of [assert] ([~] excepted): when every
    integer on the stack is a u64 and one of these opcodes succeeds,
    every integer on the resulting stack is a u64. *)
Theorem ranged_opcodes_keep_u64 (op : M Stack unit) (s s' : Stack) :
  In op ranged_opcodes ->
  stack_in_range s ->
  op s = (Ok tt, s') ->
  stack_in_range s'.
Proof.
  intros Hin R Hrun. unfold ranged_opcodes in Hin. cbn [In] in Hin.
  repeat (destruct Hin as [<-|Hin]); [..|contradiction].
  - unfold Add.execute in Hrun. range_inv. assumption.
  - unfold Sub.execute in Hrun. range_inv. assumption.
  - unfold Mul.execute in Hrun. range_inv. assumption.
  - unfold Div.execute in Hrun. range_inv. assumption.
  - unfold Mod.execute in Hrun. range_inv. assumption.
  - unfold Addw.execute in Hrun. range_inv; assumption.
  - unfold Mulw.execute in Hrun. range_inv. assumption.
  - unfold BitwiseOr.execute in Hrun. range_inv. assumption.
  - unfold BitwiseAnd.execute in Hrun. range_inv. assumption.
  - unfold BitwiseXor.execute in Hrun. range_inv. assumption.
  - unfold LessThan.execute in Hrun. range_inv; assumption.
  - unfold GreaterThan.execute in Hrun. range_inv; assumption.
  - unfold LessThanEqualTo.execute in Hrun. range_inv; assumption.
  - unfold GreaterThanEqualTo.execute in Hrun. range_inv; assumption.
  - unfold And.execute in Hrun. range_inv; assumption.
  - unfold Or.execute in Hrun. range_inv; assumption.
  - unfold Not.execute in Hrun. range_inv; assumption.
  - unfold Btoi.execute, decodeUint64 in Hrun. range_inv.
    apply orb_false_iff in Heqb as [_ Hlen]. apply Nat.ltb_ge in Hlen.
    apply (push_range _ _ _ _ Hrun); [assumption|]. now apply u64_decoded.
  - unfold Itob.execute, encodeUint64 in Hrun. range_inv. assumption.
  - unfold Pop.execute in Hrun. range_inv. assumption.
  - unfold Dup.execute in Hrun. range_inv. assumption.
  - unfold Dup2.execute in Hrun. range_inv. assumption.
  - unfold Swap.execute in Hrun. range_inv. assumption.
  - unfold Select.execute in Hrun. range_inv; assumption.
  - unfold Assert.execute in Hrun. range_inv; assumption.
Qed.


Lemma ranged_opcodes_keep_u64_witness :
  stack_in_range (mkStack None [Uint64 5; Uint64 9]).
Proof.
  apply (ranged_opcodes_keep_u64 Add.execute
           (mkStack None [Uint64 2; Uint64 3; Uint64 9])).
  - cbn. auto.
  - repeat constructor; cbn; unfold is_u64, MAX_UINT64; lia.
  - reflexivity.
Defined.

(** ** Comparisons and the shape of the stack *)

Lemma bind_run_eq {S A B} (c c' : M S A) (k : A -> M S B) (s s' : S) :
  c s = c' s' -> bind c k s = bind c' k s'.
Proof. unfold bind. now intros ->. Qed.

(** Whether a push succeeds does not depend on the element pushed. *)
Lemma push_cases (s : Stack) :
  (forall x, StackM.push x s = (Ok tt, mkStack (capacity s) (x :: items s)))
  \/ (exists e, forall x, StackM.push x s = (Err e, s)).
Proof.
  unfold StackM.push. destruct (capacity s) as [c|]; [|left; reflexivity].
  destruct (List.length (items s) =? c)%nat; [right; eauto|left; reflexivity].
Qed.

(** What a comparison does once its test has answered [c]. *)
Lemma push_flag_then_not (c : bool) (s : Stack) :
  ((if c then StackM.push (Uint64 1) else StackM.push (Uint64 0)) ;;; Not.execute) s
  = (if negb c then StackM.push (Uint64 1) else StackM.push (Uint64 0)) s.
Proof.
  destruct s as [cap l].
  destruct (push_cases (mkStack cap l)) as [Hok|[e Herr]].
  - destruct c; cbn [negb]; rewrite (bind_Ok _ _ _ _ _ (Hok _));
      unfold Not.execute, Op.assertMinStackLen;
      cbn [bind StackM.length items capacity List.length Nat.ltb Nat.leb
           StackM.pop Op.assertBigInt ret Z.eqb]; reflexivity.
  - destruct c; cbn [negb]; rewrite (bind_Err _ _ _ _ _ (Herr _)), Herr;
      reflexivity.
Qed.

(** X6. On every stack, [<] followed by [!] is [>=], and [>] followed
    by [!] is [<=]: the same result on the same stack, or the same error
    with the same stack left behind. *)
Theorem comparison_negation (s : Stack) :
  (LessThan.execute ;;; Not.execute) s = GreaterThanEqualTo.execute s
  /\ (GreaterThan.execute ;;; Not.execute) s = LessThanEqualTo.execute s.
Proof.
  destruct s as [cap l].
  destruct l as [|[a|ba] [|[b|bb] l]]; try (split; reflexivity).
  split.
  - rewrite (bind_run_eq LessThan.execute
               (if b <? a then StackM.push (Uint64 1) else StackM.push (Uint64 0))
               _ (mkStack cap (Uint64 a :: Uint64 b :: l)) (mkStack cap l) eq_refl).
    rewrite push_flag_then_not, <- Z.leb_antisym, <- Z.geb_leb. reflexivity.
  - rewrite (bind_run_eq GreaterThan.execute
               (if b >? a then StackM.push (Uint64 1) else StackM.push (Uint64 0))
               _ (mkStack cap (Uint64 a :: Uint64 b :: l)) (mkStack cap l) eq_refl).
    rewrite push_flag_then_not, Z.gtb_ltb, <- Z.leb_antisym. reflexivity.
Qed.

(** X7. [swap] is an involution on a stack of at least two elements, it
    fails with ASSERT_STACK_LENGTH on a shorter one, and a comparison of
    swapped integers is the converse comparison: [swap] followed by [<]
    is [>]. *)
Theorem swap_involution (cap : option nat) (l : list StackElem) :
  stack_wf (mkStack cap l) ->
  ((List.length l < 2)%nat ->
     Swap.execute (mkStack cap l) = (Err (TealError ASSERT_STACK_LENGTH), mkStack cap l))
  /\ ((2 <= List.length l)%nat ->
     (Swap.execute ;;; Swap.execute) (mkStack cap l) = (Ok tt, mkStack cap l))
  /\ (forall a b rest, l = Uint64 a :: Uint64 b :: rest ->
     (Swap.execute ;;; LessThan.execute) (mkStack cap l)
     = GreaterThan.execute (mkStack cap l)).
Proof.
  intros Hwf.
  assert (Hswap : forall u v rest, l = u :: v :: rest ->
                    Swap.execute (mkStack cap (u :: v :: rest))
                    = (Ok tt, mkStack cap (v :: u :: rest))).
  { intros u v rest ->. destruct (wf_has_room2 _ _ _ _ Hwf) as [Hr1 Hr].
    unfold Swap.execute. run. reflexivity. }
  split; [|split].
  - intros Hlen. destruct l as [|x [|y l]]; try reflexivity. cbn in Hlen. lia.
  - intros Hlen. destruct l as [|x [|y l]]; try (cbn in Hlen; lia).
    destruct (wf_has_room2 _ _ _ _ Hwf) as [Hr1 Hr].
    rewrite (bind_Ok _ _ _ _ _ (Hswap x y l eq_refl)).
    unfold Swap.execute. run. reflexivity.
  - intros a b rest ->.
    destruct (wf_has_room2 _ _ _ _ Hwf) as [Hr1 Hr].
    rewrite (bind_Ok _ _ _ _ _ (Hswap _ _ rest eq_refl)).
    unfold LessThan.execute, GreaterThan.execute.
    run. rewrite Z.gtb_ltb. reflexivity.
Qed.

Lemma swap_involution_witness :
  (Swap.execute ;;; Swap.execute) (mkStack None [Uint64 1; Bytes [x02]])
  = (Ok tt, mkStack None [Uint64 1; Bytes [x02]]).
Proof.
  apply (proj1 (proj2 (swap_involution None [Uint64 1; Bytes [x02]] I))). cbn. lia.
Defined.


(** ** dig *)

Lemma pop_to_temp_run (depth : nat) :
  forall (tcap : option nat) (ti : list StackElem) (cap : option nat)
         (l : list StackElem) (x : StackElem),
    l !! depth = Some x ->
    match tcap with
    | Some c => (List.length ti + depth < c)%nat
    | None => True
    end ->
    Dig.pop_to_temp depth (mkStack tcap ti) (mkStack cap l)
    = (Ok (x, mkStack tcap (rev (take (Datatypes.S depth) l) ++ ti)),
       mkStack cap (drop (Datatypes.S depth) l)).
Proof.
  induction depth as [|k IH]; intros tcap ti cap l x Hx Hroom.
  - destruct l as [|y l]; [discriminate|]. injection Hx as ->.
    cbn [Dig.pop_to_temp bind StackM.pop items capacity].
    unfold on_temp. rewrite push_ok
      by (unfold has_room; destruct tcap; [lia|trivial]).
    reflexivity.
  - destruct l as [|y l]; [discriminate|]. cbn in Hx.
    cbn [Dig.pop_to_temp bind StackM.pop items capacity].
    unfold on_temp. rewrite push_ok
      by (unfold has_room; destruct tcap; [lia|trivial]).
    cbn [bind ret Datatypes.snd].
    rewrite (IH tcap (y :: ti) cap l x Hx)
      by (destruct tcap; cbn [List.length]; [lia|trivial]).
    cbn [take drop rev]. rewrite <- app_assoc. reflexivity.
Qed.

Lemma push_back_run (fuel : nat) :
  forall (tcap : option nat) (ti : list StackElem) (cap : option nat)
         (l : list StackElem),
    (List.length ti <= fuel)%nat ->
    match cap with
    | Some c => (List.length l + List.length ti <= c)%nat
    | None => True
    end ->
    Dig.push_back fuel (mkStack tcap ti) (mkStack cap l)
    = (Ok tt, mkStack cap (rev ti ++ l)).
Proof.
  induction fuel as [|k IH]; intros tcap ti cap l Hfuel Hroom.
  - destruct ti; [reflexivity|cbn in Hfuel; lia].
  - destruct ti as [|y ti]; [reflexivity|].
    cbn [Dig.push_back StackM.length items List.length Nat.eqb].
    unfold on_temp. cbn [bind StackM.pop items capacity fst Datatypes.snd].
    rewrite push_bind
      by (unfold has_room; destruct cap; cbn [List.length] in *; [lia|trivial]).
    rewrite IH; cbn [List.length] in *; [|lia|destruct cap; [lia|trivial]].
    cbn [rev]. rewrite <- app_assoc. reflexivity.
Qed.

Lemma dig_run (depth : nat) (cap : option nat) (l : list StackElem) (x : StackElem) :
  l !! depth = Some x -> has_room cap l ->
  Dig.execute depth (mkStack cap l) = (Ok tt, mkStack cap (x :: l)).
Proof.
  intros Hx Hroom. pose proof (lookup_lt_Some _ _ _ Hx) as Hlen.
  unfold Dig.execute.
  assert (Hmin : Op.assertMinStackLen (depth + 1) (mkStack cap l)
                 = (Ok tt, mkStack cap l)).
  { unfold Op.assertMinStackLen, StackM.length. cbn [items].
    destruct (Nat.ltb_spec (List.length l) (depth + 1)); [lia|reflexivity]. }
  rewrite (bind_Ok _ _ _ _ _ Hmin).
  rewrite (bind_Ok _ _ _ _ _
             (pop_to_temp_run depth (Some (depth + 1)%nat) [] cap l x Hx
                ltac:(cbn; lia))).
  cbn [fst Datatypes.snd StackM.length items]. rewrite app_nil_r.
  erewrite bind_Ok.
  2: { apply push_back_run; [apply le_n|].
       unfold has_room in Hroom. destruct cap; [|trivial].
       rewrite length_rev, length_take, length_drop. lia. }
  rewrite rev_involutive, take_drop.
  apply push_ok, Hroom.
Qed.

(** X8. [dig n] pushes a copy of the element [n] places below the top
    and leaves the stack underneath as it was; on a stack of at most [n]
    elements it fails with ASSERT_STACK_LENGTH and leaves the stack
    untouched.  [dig 0] is [dup], on every stack, and [dup2] is [dig 1]
    run twice when there is room for two more elements. *)
Theorem dig_pushes_nth (depth : nat) (cap : option nat) (l : list StackElem) :
  has_room cap l ->
  (forall x, l !! depth = Some x ->
     Dig.execute depth (mkStack cap l) = (Ok tt, mkStack cap (x :: l)))
  /\ (l !! depth = None ->
     Dig.execute depth (mkStack cap l)
     = (Err (TealError ASSERT_STACK_LENGTH), mkStack cap l))
  /\ (forall s, Dig.execute 0 s = Dup.execute s)
  /\ (forall a b rest, l = a :: b :: rest -> has_room cap (a :: l) ->
     (Dig.execute 1 ;;; Dig.execute 1) (mkStack cap l)
     = Dup2.execute (mkStack cap l)).
Proof.
  intros Hroom. split; [|split; [|split]].
  - intros x Hx. now apply dig_run.
  - intros Hnone. apply lookup_ge_None in Hnone.
    unfold Dig.execute, Op.assertMinStackLen, StackM.length, bind. cbn [items].
    destruct (Nat.ltb_spec (List.length l) (depth + 1)); [reflexivity|lia].
  - intros [cap0 l0]. destruct l0 as [|x l0]; [reflexivity|].
    unfold Dig.execute, Dup.execute.
    change (0 + 1)%nat with 1%nat.
    rewrite !(bind_Ok _ _ _ _ _
                (eq_refl : Op.assertMinStackLen 1 (mkStack cap0 (x :: l0))
                           = (Ok tt, mkStack cap0 (x :: l0)))).
    rewrite (bind_Ok _ _ _ _ _
               (pop_to_temp_run 0 (Some 1%nat) [] cap0 (x :: l0) x eq_refl
                  ltac:(cbn; lia))).
    transitivity (((StackM.push x ;;; ret tt) ;;; StackM.push x) (mkStack cap0 l0));
      [reflexivity|].
    transitivity ((StackM.push x ;;; StackM.push x) (mkStack cap0 l0));
      [|reflexivity].
    destruct (push_cases (mkStack cap0 l0)) as [Hok|[e Herr]].
    + rewrite bind_assoc, !(bind_Ok _ _ _ _ _ (Hok x)). reflexivity.
    + rewrite bind_assoc, !(bind_Err _ _ _ _ _ (Herr x)). reflexivity.
  - intros a b rest -> Hroom2.
    assert (Hr2 : has_room cap (b :: a :: b :: rest))
      by (unfold has_room in *; destruct cap; cbn in *; [lia|trivial]).
    rewrite (bind_Ok _ _ _ _ _ (dig_run 1 cap (a :: b :: rest) b eq_refl Hroom)).
    rewrite (dig_run 1 cap (b :: a :: b :: rest) a eq_refl Hr2).
    unfold Dup2.execute. run. reflexivity.
Qed.

Lemma dig_pushes_nth_witness :
  Dig.execute 2 (mkStack (Some 5%nat) [Uint64 1; Bytes [x02]; Uint64 3])
  = (Ok tt, mkStack (Some 5%nat) [Uint64 3; Uint64 1; Bytes [x02]; Uint64 3])
  /\ (Dig.execute 1 ;;; Dig.execute 1)
       (mkStack (Some 5%nat) [Uint64 1; Bytes [x02]; Uint64 3])
     = Dup2.execute (mkStack (Some 5%nat) [Uint64 1; Bytes [x02]; Uint64 3]).
Proof.
  pose proof (dig_pushes_nth 2 (Some 5%nat) [Uint64 1; Bytes [x02]; Uint64 3]
                ltac:(cbn; lia)) as H.
  split.
  - apply (proj1 H). reflexivity.
  - apply (proj2 (proj2 (proj2 H)) (Uint64 1) (Bytes [x02]) [Uint64 3] eq_refl).
    cbn. lia.
Defined.


(** ** concat *)

Lemma concat_run (m : Z) (cap : option nat) (rest : list StackElem)
    (a b : list byte) :
  has_room cap rest ->
  Z.of_nat (List.length a) + Z.of_nat (List.length b) <= m ->
  Concat.execute m (mkStack cap (Bytes a :: Bytes b :: rest))
  = (Ok tt, mkStack cap (Bytes (b ++ a) :: rest)).
Proof.
  intros Hr Hle. unfold Concat.execute. run.
  destruct (Z.gtb_spec (Z.of_nat (List.length a) + Z.of_nat (List.length b)) m);
    [lia|].
  run. reflexivity.
Qed.

(** X9. [concat] joins the two byte strings with the one pushed first
    in front, so the length of the result is the sum of the lengths, as
    [len] then reports; when that sum exceeds [MAX_CONCAT_SIZE] it fails
    with CONCAT_ERROR, both operands popped. *)
Theorem concat_length (m : Z) (cap : option nat) (rest : list StackElem)
    (a b : list byte) :
  stack_wf (mkStack cap (Bytes a :: Bytes b :: rest)) ->
  let st := mkStack cap (Bytes a :: Bytes b :: rest) in
  let n := Z.of_nat (List.length a) + Z.of_nat (List.length b) in
  (n > m ->
     Concat.execute m st = (Err (RuntimeError CONCAT_ERROR), mkStack cap rest))
  /\ (n <= m ->
     Concat.execute m st = (Ok tt, mkStack cap (Bytes (b ++ a) :: rest))
     /\ (Concat.execute m ;;; Len.execute) st
        = (Ok tt, mkStack cap (Uint64 n :: rest))).
Proof.
  intros Hwf st n. subst st n.
  destruct (wf_has_room2 _ _ _ _ Hwf) as [_ Hr]. split.
  - intros Hgt. unfold Concat.execute. run.
    destruct (Z.gtb_spec (Z.of_nat (List.length a) + Z.of_nat (List.length b)) m);
      [reflexivity|lia].
  - intros Hle. split; [now apply concat_run|].
    rewrite (bind_Ok _ _ _ _ _ (concat_run m cap rest a b Hr Hle)).
    unfold Len.execute. run. rewrite length_app. repeat f_equal. lia.
Qed.

Lemma concat_length_witness :
  (Concat.execute 4096 ;;; Len.execute)
    (mkStack None [Bytes [x01; x02]; Bytes [x03]])
  = (Ok tt, mkStack None [Uint64 (Z.of_nat 2 + Z.of_nat 1)]).
Proof.
  apply (proj2 (concat_length 4096 None [] [x01; x02] [x03] I)). cbn. lia.
Defined.

Lemma subString_run {S} (start end_ : Z) (s : list byte) (st : S) :
  0 <= start <= end_ -> end_ <= Z.of_nat (List.length s) ->
  Z.of_nat (List.length s) < 2 ^ 53 ->
  Op.subString start end_ s st = (Ok (Op.slice start end_ s), st).
Proof.
  intros H1 H2 H3. unfold Op.subString.
  destruct (Z.ltb_spec end_ start); [lia|].
  destruct (Z.gtb_spec start (Z.of_nat (List.length s))); [lia|].
  destruct (Z.gtb_spec end_ (Z.of_nat (List.length s))); [lia|].
  cbn [orb]. rewrite !toNumber_safe by lia. reflexivity.
Qed.

Lemma substring3_run (cap : option nat) (rest : list StackElem)
    (start end_ : Z) (s : list byte) :
  has_room cap rest ->
  0 <= start <= end_ -> end_ <= Z.of_nat (List.length s) ->
  Z.of_nat (List.length s) < 2 ^ 53 ->
  Substring3.execute (mkStack cap (Bytes s :: Uint64 end_ :: Uint64 start :: rest))
  = (Ok tt, mkStack cap (Bytes (Op.slice start end_ s) :: rest)).
Proof.
  intros Hr H1 H2 H3. unfold Substring3.execute. run.
  rewrite (bind_Ok _ _ _ _ _ (subString_run start end_ s _ H1 H2 H3)).
  run. reflexivity.
Qed.

(** X10. [substring3] takes a concatenation apart again: from the
    result of [concat] the range from 0 to the length of the first
    string is the first string, and the range from there to the end is
    the second. *)
Theorem concat_substring3_split (m : Z) (cap : option nat)
    (rest : list StackElem) (a b : list byte) :
  let la := Z.of_nat (List.length a) in
  let lb := Z.of_nat (List.length b) in
  la + lb <= m -> la + lb < 2 ^ 53 ->
  (forall s e,
     stack_wf (mkStack cap (Bytes a :: Bytes b :: Uint64 e :: Uint64 s :: rest)) ->
     (s = 0 -> e = lb ->
        (Concat.execute m ;;; Substring3.execute)
          (mkStack cap (Bytes a :: Bytes b :: Uint64 e :: Uint64 s :: rest))
        = (Ok tt, mkStack cap (Bytes b :: rest)))
     /\ (s = lb -> e = lb + la ->
        (Concat.execute m ;;; Substring3.execute)
          (mkStack cap (Bytes a :: Bytes b :: Uint64 e :: Uint64 s :: rest))
        = (Ok tt, mkStack cap (Bytes a :: rest)))).
Proof.
  intros la lb Hm H53 s e Hwf.
  assert (Hr3 : has_room cap (Uint64 e :: Uint64 s :: rest))
    by (unfold stack_wf, has_room in *; destruct cap; cbn in *; [lia|trivial]).
  assert (Hr : has_room cap rest)
    by (unfold stack_wf, has_room in *; destruct cap; cbn in *; [lia|trivial]).
  assert (Hlen : Z.of_nat (List.length (b ++ a)) = lb + la)
    by (rewrite length_app; lia).
  rewrite (bind_Ok _ _ _ _ _
             (concat_run m cap _ a b Hr3 ltac:(subst la lb; lia))).
  split; intros -> ->.
  - rewrite substring3_run by (assumption || lia).
    repeat f_equal. unfold Op.slice. subst lb.
    rewrite Nat2Z.id. change (Z.to_nat 0) with 0%nat.
    rewrite Nat.sub_0_r, drop_0. apply take_app_length.
  - rewrite substring3_run by (assumption || lia).
    repeat f_equal. unfold Op.slice. subst la lb.
    rewrite Nat2Z.id. rewrite drop_app_length.
    apply firstn_all2. lia.
Qed.

Lemma concat_substring3_split_witness :
  (Concat.execute 4096 ;;; Substring3.execute)
    (mkStack None [Bytes [x01; x02]; Bytes [x03]; Uint64 (Z.of_nat 1); Uint64 0])
  = (Ok tt, mkStack None [Bytes [x03]]).
Proof.
  apply (proj1 (concat_substring3_split 4096 None [] [x01; x02] [x03]
                  ltac:(cbn; lia) ltac:(cbn; lia) 0 (Z.of_nat 1) I));
    reflexivity.
Defined.


(** ** Scratch space and constant blocks *)

Lemma checkIndexBound_ok {S A} (idx : Z) (arr : list A) (s : S) :
  0 <= idx < Z.of_nat (List.length arr) ->
  Op.checkIndexBound idx (Some arr) s = (Ok tt, s).
Proof.
  intros H. unfold Op.checkIndexBound.
  destruct (Z.geb_spec idx 0); [|lia].
  destruct (Z.ltb_spec idx (Z.of_nat (List.length arr))); [|lia]. reflexivity.
Qed.

Lemma checkIndexBound_err {S A} (idx : Z) (arr : list A) (s : S) :
  ~ (0 <= idx < Z.of_nat (List.length arr)) ->
  Op.checkIndexBound idx (Some arr) s = (Err (TealError INDEX_OUT_OF_BOUND), s).
Proof.
  intros H. unfold Op.checkIndexBound.
  destruct (Z.geb_spec idx 0); destruct (Z.ltb_spec idx (Z.of_nat (List.length arr)));
    try reflexivity. lia.
Qed.

(** X11. [store i] followed by [load i] leaves the stack as it was and
    the stored value in slot [i], with every other slot untouched; an
    index outside the scratch space fails with INDEX_OUT_OF_BOUND in
    both opcodes and changes nothing. *)
Theorem store_load_round_trip (index : Z) (cap : option nat) (x : StackElem)
    (rest : list StackElem) (bb : list (list byte)) (ib : list Z)
    (scr : list StackElem) :
  stack_wf (mkStack cap (x :: rest)) ->
  let m := mkMachine (mkStack cap (x :: rest)) bb ib scr in
  (0 <= index < Z.of_nat (List.length scr) ->
     (Store.execute index ;;; Load.execute index) m
     = (Ok tt, mkMachine (mkStack cap (x :: rest)) bb ib
                 (<[Z.to_nat index := x]> scr))
     /\ <[Z.to_nat index := x]> scr !! Z.to_nat index = Some x
     /\ (forall j, j <> Z.to_nat index ->
           <[Z.to_nat index := x]> scr !! j = scr !! j))
  /\ (~ (0 <= index < Z.of_nat (List.length scr)) ->
     Store.execute index m = (Err (TealError INDEX_OUT_OF_BOUND), m)
     /\ Load.execute index m = (Err (TealError INDEX_OUT_OF_BOUND), m)).
Proof.
  intros Hwf m. subst m. pose proof (wf_has_room _ _ _ Hwf) as Hr. split.
  - intros Hidx.
    assert (Hlook : <[Z.to_nat index := x]> scr !! Z.to_nat index = Some x)
      by (apply list_lookup_insert_eq; lia).
    split; [|split; [exact Hlook|]].
    + unfold Store.execute, Load.execute, on_m_stack, gets, modify, bind.
      cbn [scratch m_stack bytecblock intcblock].
      rewrite checkIndexBound_ok by assumption.
      cbn [Op.assertMinStackLen StackM.length items List.length Nat.ltb Nat.leb
           StackM.pop capacity m_stack bytecblock intcblock scratch].
      rewrite checkIndexBound_ok by (rewrite length_insert; assumption).
      rewrite Hlook. cbn [m_stack bytecblock intcblock scratch].
      rewrite push_ok by assumption. reflexivity.
    + intros j Hj. apply list_lookup_insert_ne. congruence.
  - intros Hidx. split.
    + unfold Store.execute, gets, bind. cbn [scratch].
      rewrite checkIndexBound_err by assumption. reflexivity.
    + unfold Load.execute, gets, bind. cbn [scratch].
      rewrite checkIndexBound_err by assumption. reflexivity.
Qed.

Lemma store_load_round_trip_witness :
  (Store.execute 1 ;;; Load.execute 1)
    (mkMachine (mkStack None [Bytes [x07]]) [] [] [Uint64 0; Uint64 0])
  = (Ok tt, mkMachine (mkStack None [Bytes [x07]]) [] []
              (<[Z.to_nat 1 := Bytes [x07]]> [Uint64 0; Uint64 0])).
Proof.
  apply (proj1 (store_load_round_trip 1 None (Bytes [x07]) [] [] []
                  [Uint64 0; Uint64 0] I)).
  cbn. lia.
Defined.






(** ** Fees *)





(** ** Asset holdings *)





(** *** Sums of holdings *)















(** ** Destroying assets and deleting applications *)

Lemma map_fold_zero (g : StoreAccount -> Z) (m : gmap string StoreAccount) :
  (forall k a, m !! k = Some a -> g a = 0) ->
  map_fold (fun _ a sum => g a + sum) 0 m = 0.
Proof.
  induction m as [|k a m Hk IH] using map_ind; intros Hall.
  - apply map_fold_empty.
  - rewrite map_fold_insert_L; [|intros; lia|assumption].
    rewrite (Hall k a) by apply lookup_insert_eq.
    rewrite IH; [reflexivity|].
    intros j b Hj. apply (Hall j). rewrite lookup_insert_ne; [exact Hj|].
    intros ->. congruence.
Qed.

Lemma getAssetAccount_state (id : Z) (c c' : Context) (r : Result StoreAccount) :
  Ctx.getAssetAccount id c = (r, c') -> c' = c.
Proof.
  unfold Ctx.getAssetAccount, bind, gets, Asserts.assertAccountDefined.
  destruct (assetDefs (state c) !! id) as [a|]; [|now intros [= _ <-]].
  destruct (accounts (state c) !! a); now intros [= _ <-].
Qed.

(** X16. After a successful [destroyAsset] no account of the context
    holds the asset any more, so its total holdings are zero; an asset
    that is not registered fails with ASSET_NOT_FOUND and leaves the
    context as it was. *)
Theorem destroyAsset_leaves_no_holding (ext : External) (assetId : Z)
    (c c' : Context) (r : Result unit) :
  Ctx.destroyAsset ext assetId c = (r, c') ->
  (assetDefs (state c) !! assetId = None ->
     r = Err (RuntimeError ASSET_NOT_FOUND) /\ c' = c)
  /\ (r = Ok tt ->
     (forall k a, accounts (state c') !! k = Some a -> assets a !! assetId = None)
     /\ total_asset assetId (state c') = 0).
Proof.
  unfold Ctx.destroyAsset. unfold bind at 1.
  destruct (Ctx.getAssetAccount assetId c) as [r0 c0] eqn:H0.
  pose proof (getAssetAccount_state _ _ _ _ H0) as ->.
  destruct r0 as [creatorAcc|e].
  2: { intros [= <- <-]. split; [|discriminate]. intros Hnone. split; [|reflexivity].
       revert H0. unfold Ctx.getAssetAccount, bind, gets. rewrite Hnone.
       now intros [= <-]. }
  assert (Hreg : assetDefs (state c) !! assetId <> None).
  { intros Hnone. revert H0. unfold Ctx.getAssetAccount, bind, gets.
    rewrite Hnone. discriminate. }
  unfold bind at 1. cbn [gets]. unfold bind at 1.
  destruct (on_account (default EmptyString (assetDefs (state c) !! assetId))
              (account_destroyAsset ext assetId) c) as [[[]|e] c1].
  2: { intros [= <- <-]. split; [intros; contradiction|discriminate]. }
  unfold modify. intros [= <- <-]. split; [intros; contradiction|]. intros _.
  assert (Hall : forall k a,
             accounts (state (set_state
               (set_accounts
                  ((fun value => set_assets (delete assetId (assets value)) value)
                     <$> accounts (state c1)) (state c1)) c1)) !! k = Some a ->
             assets a !! assetId = None).
  { intros k a. cbn [state set_state accounts set_accounts].
    rewrite lookup_fmap. destruct (accounts (state c1) !! k) as [b|]; [|discriminate].
    intros [= <-]. cbn [assets set_assets]. apply lookup_delete_eq. }
  split; [exact Hall|].
  unfold total_asset. apply map_fold_zero. intros k a Hk.
  unfold holding_of. now rewrite (Hall k a Hk).
Qed.

Lemma destroyAsset_leaves_no_holding_witness :
  total_asset AssetSample.gold
    (state (Datatypes.snd
       (Ctx.destroyAsset Sample.ext AssetSample.gold (AssetSample.context []))))
  = 0.
Proof.
  assert (H : Ctx.destroyAsset Sample.ext AssetSample.gold (AssetSample.context [])
              = (Ok tt, Datatypes.snd
                          (Ctx.destroyAsset Sample.ext AssetSample.gold
                             (AssetSample.context []))))
    by (apply pair_eta_fst; vm_compute; reflexivity).
  exact (proj2 (proj2 (destroyAsset_leaves_no_holding _ _ _ _ _ H) eq_refl)).
Defined.

(** X17. [deleteApp] removes the application from the registry of the
    context and nothing else from it, so that [getApp] no longer finds
    it; an application that is not registered fails with APP_NOT_FOUND
    and leaves the context as it was. *)
Theorem deleteApp_unregisters (ext : External) (appId : Z)
    (c c' : Context) (r : Result unit) :
  Ctx.deleteApp ext appId c = (r, c') ->
  (globalApps (state c) !! appId = None ->
     r = Err (RuntimeError APP_NOT_FOUND) /\ c' = c)
  /\ (r = Ok tt ->
     globalApps (state c') = delete appId (globalApps (state c))
     /\ Ctx.getApp appId c' = (Err (RuntimeError APP_NOT_FOUND), c')).
Proof.
  unfold Ctx.deleteApp. unfold bind at 1. cbn [gets].
  destruct (globalApps (state c) !! appId) as [a|] eqn:Hreg.
  2: { intros [= <- <-]. split; [auto|discriminate]. }
  cbn [Asserts.assertAddressDefined]. unfold bind at 1. cbn [ret].
  unfold bind at 1. cbn [gets].
  destruct (accounts (state c) !! a) as [acc|] eqn:Hacc.
  2: { cbn. intros [= <- <-]. split; [discriminate|discriminate]. }
  cbn [Asserts.assertAccountDefined]. unfold bind at 1. cbn [ret].
  unfold bind at 1. unfold on_account. rewrite Hacc.
  destruct (account_deleteApp ext appId acc) as [[[]|e] acc'].
  2: { intros [= <- <-]. split; discriminate. }
  unfold modify. intros [= <- <-]. split; [discriminate|]. intros _.
  cbn [state set_state globalApps set_globalApps put_account set_accounts].
  split; [reflexivity|].
  unfold Ctx.getApp, bind, gets.
  cbn [state set_state globalApps set_globalApps put_account set_accounts].
  rewrite lookup_delete_eq. reflexivity.
Qed.

Lemma deleteApp_unregisters_witness :
  Ctx.getApp 1 (Datatypes.snd (Ctx.deleteApp Sample.ext 1 (Sample.context [])))
  = (Err (RuntimeError APP_NOT_FOUND),
     Datatypes.snd (Ctx.deleteApp Sample.ext 1 (Sample.context []))).
Proof.
  assert (H : Ctx.deleteApp Sample.ext 1 (Sample.context [])
              = (Ok tt, Datatypes.snd (Ctx.deleteApp Sample.ext 1 (Sample.context []))))
    by (apply pair_eta_fst; vm_compute; reflexivity).
  exact (proj2 (proj2 (deleteApp_unregisters _ _ _ _ _ H) eq_refl)).
Defined.


(** ** Closing out and the roles of an asset *)

(** X18. After a successful [closeApp] of the sender, [app_opted_in]
    for account index 0 and that application pushes 0: the sender is no
    longer opted in.  The application itself stays registered. *)
Theorem closeApp_opts_out (sender : AccountAddress) (appId : Z) (c c' : Context)
    (cap : option nat) (rest : list StackElem) :
  Ctx.closeApp sender appId c = (Ok tt, c') ->
  snd (tx c) = sender ->
  0 <= appId < 2 ^ 53 ->
  has_room cap rest ->
  AppOptedIn.execute c' (mkStack cap (Uint64 appId :: Uint64 0 :: rest))
  = (Ok tt, mkStack cap (Uint64 0 :: rest))
  /\ globalApps (state c') = globalApps (state c).
Proof.
  intros Hclose Hsnd Hid Hroom.
  revert Hclose. unfold Ctx.closeApp. unfold bind at 1. rewrite getAccount_eq.
  destruct (accounts (state c) !! sender) as [acc|] eqn:Hacc; [|discriminate].
  unfold bind at 1.
  destruct (Ctx.getApp appId c) as [ra ca] eqn:Happ.
  pose proof (getApp_state _ _ _ _ Happ) as ->.
  destruct ra as [app|e]; [|discriminate].
  cbn [Asserts.assertAppDefined bind ret]. unfold on_account. rewrite Hacc.
  cbn [StoreAccountM.closeApp modify]. intros [= <-].
  split; [|reflexivity].
  unfold AppOptedIn.execute. run.
  unfold InterpreterM.getAccount. cbn [Z.eqb].
  cbn [tx put_account set_state]. rewrite Hsnd, lookup_put_account.
  case_decide; [|contradiction].
  cbn [Asserts.assertAccountDefined bind ret appsLocalState set_appsLocalState].
  rewrite toNumber_safe by assumption. rewrite lookup_delete_eq.
  apply push_ok, Hroom.
Qed.

Lemma closeApp_opts_out_witness :
  AppOptedIn.execute
    (Datatypes.snd (Ctx.closeApp "alice" 1 (Sample.context [Sample.clear "alice" 1])))
    (mkStack None [Uint64 1; Uint64 0])
  = (Ok tt, mkStack None [Uint64 0]).
Proof.
  assert (H : Ctx.closeApp "alice" 1 (Sample.context [Sample.clear "alice" 1])
              = (Ok tt, Datatypes.snd
                          (Ctx.closeApp "alice" 1
                             (Sample.context [Sample.clear "alice" 1]))))
    by (apply pair_eta_fst; vm_compute; reflexivity).
  exact (proj1 (closeApp_opts_out "alice" 1 _ _ None [] H eq_refl
                  ltac:(lia) I)).
Defined.

Lemma getAssetDef_state (id : Z) (c c' : Context) (r : Result AssetDef) :
  Ctx.getAssetDef id c = (r, c') -> c' = c.
Proof.
  unfold Ctx.getAssetDef. unfold bind at 1.
  destruct (Ctx.getAssetAccount id c) as [r0 c0] eqn:H0.
  pose proof (getAssetAccount_state _ _ _ _ H0) as ->.
  destruct r0 as [acc|e]; [|now intros [= _ <-]].
  unfold Asserts.assertAssetDefined.
  destruct (StoreAccountM.getAssetDef acc id); now intros [= _ <-].
Qed.





(** ** The store of the runtime *)

Lemma on_store_run {A} (c : M State A) (rt : Runtime) :
  runtime_wf rt ->
  exists rt',
    on_store c rt = (fst (c (store_state rt)), rt')
    /\ store_state rt' = Datatypes.snd (c (store_state rt))
    /\ runtime_wf rt' /\ store rt' = store rt /\ ctx rt' = ctx rt
    /\ programMap rt' = programMap rt
    /\ (forall j, j <> store rt -> heap rt' !! j = heap rt !! j).
Proof.
  intros Hwf. unfold on_store. destruct (c (store_state rt)) as [r s'].
  eexists. split; [reflexivity|]. unfold store_state, deref, runtime_wf in *.
  cbn [heap store set_heap ctx programMap fst Datatypes.snd].
  rewrite length_insert. rewrite list_lookup_insert_eq by assumption.
  repeat split; auto. intros j Hj. apply list_lookup_insert_ne. congruence.
Qed.








(** X22. The runtime's [deleteApp] removes the application from the
    registry of the store and from the program map, so that afterwards
    both [getApp] and [getProgram] fail with APP_NOT_FOUND; an
    application that is not registered fails with APP_NOT_FOUND and
    changes nothing. *)
Theorem runtime_deleteApp_forgets (ext : External) (appId : Z)
    (rt rt' : Runtime) (r : Result unit) :
  runtime_wf rt ->
  Runtime.deleteApp ext appId rt = (r, rt') ->
  (globalApps (store_state rt) !! appId = None ->
     r = Err (TealError APP_NOT_FOUND) /\ rt' = rt)
  /\ (r = Ok tt ->
     fst (Runtime.getApp appId rt') = Err (TealError APP_NOT_FOUND)
     /\ fst (Runtime.getProgram appId rt') = Err (TealError APP_NOT_FOUND)
     /\ globalApps (store_state rt') = delete appId (globalApps (store_state rt))
     /\ programMap rt' = delete appId (programMap rt)).
Proof.
  intros Hwf. unfold Runtime.deleteApp. unfold bind at 1. cbn [gets].
  destruct (globalApps (store_state rt) !! appId) as [a|] eqn:Hreg.
  2: { intros [= <- <-]. split; [auto|discriminate]. }
  unfold bind at 1. cbn [gets].
  destruct (accounts (store_state rt) !! a) as [acc|] eqn:Hacc.
  2: { cbn. intros [= <- <-]. split; discriminate. }
  cbn [Asserts.assertAccountDefined]. unfold bind at 1. cbn [ret].
  destruct (on_store_run (on_state_account a (account_deleteApp ext appId)) rt Hwf)
    as (rt1 & Hrun1 & Hs1 & Hwf1 & _ & _ & Hpm1 & _).
  unfold bind at 1. rewrite Hrun1.
  unfold on_state_account in Hs1 |- *. rewrite Hacc in Hs1 |- *.
  destruct (account_deleteApp ext appId acc) as [[[]|e] acc'];
    cbn [fst Datatypes.snd] in *.
  2: { intros [= <- <-]. split; discriminate. }
  destruct (on_store_run
              (modify (fun s => set_globalApps (delete appId (globalApps s)) s))
              rt1 Hwf1) as (rt2 & Hrun2 & Hs2 & Hwf2 & _ & _ & Hpm2 & _).
  unfold bind at 1. rewrite Hrun2. cbn [modify fst Datatypes.snd] in *.
  intros [= <- <-]. split; [discriminate|]. intros _.
  assert (Hga : globalApps (store_state
                  (set_programMap (delete appId (programMap rt2)) rt2))
                = delete appId (globalApps (store_state rt))).
  { change (store_state (set_programMap (delete appId (programMap rt2)) rt2))
      with (store_state rt2).
    rewrite Hs2, Hs1. reflexivity. }
  split; [|split; [|split]].
  - unfold Runtime.getApp, bind, gets. cbv beta. rewrite Hga, lookup_delete_eq.
    reflexivity.
  - unfold Runtime.getProgram, bind, gets. cbn [programMap set_programMap].
    rewrite lookup_delete_eq. reflexivity.
  - exact Hga.
  - cbn [programMap set_programMap]. congruence.
Qed.

Lemma runtime_deleteApp_forgets_witness :
  fst (Runtime.getApp 1 (Datatypes.snd (Runtime.deleteApp Sample.ext 1 Sample.runtime)))
  = Err (TealError APP_NOT_FOUND).
Proof.
  assert (H : Runtime.deleteApp Sample.ext 1 Sample.runtime
              = (Ok tt, Datatypes.snd (Runtime.deleteApp Sample.ext 1 Sample.runtime)))
    by (apply pair_eta_fst; vm_compute; reflexivity).
  exact (proj1 (proj2 (runtime_deleteApp_forgets Sample.ext 1 Sample.runtime _ _
                         ltac:(unfold runtime_wf, Sample.runtime; cbn; lia) H)
                  eq_refl)).
Defined.

(** X23. A group that [executeTx] rejects while it builds the context or
    runs the programs (a group of more than 16 transactions, a bad
    signature, a missing program, a program that fails) leaves the store
    untouched: every accessor of the runtime answers as it did before
    the call.  A group of more than 16 transactions is rejected in this
    way before anything is built, the whole runtime being left as it
    was. *)
Theorem executeTx_program_failure_is_atomic (ext : External)
    (txnParams : ExecParams + list ExecParams) (args : option (list (list byte)))
    (rt rt' : Runtime) (e : Error) :
  runtime_wf rt ->
  Runtime.executeTx_programs ext txnParams args rt = (Err e, rt') ->
  Runtime.executeTx ext txnParams args rt = (Err e, rt')
  /\ (forall address, balance_of rt' address = balance_of rt address)
  /\ (forall appId, fst (Runtime.getApp appId rt') = fst (Runtime.getApp appId rt))
  /\ (forall appId key,
        fst (Runtime.getGlobalState appId key rt')
        = fst (Runtime.getGlobalState appId key rt))
  /\ (forall appId accountAddr key,
        fst (Runtime.getLocalState appId accountAddr key rt')
        = fst (Runtime.getLocalState appId accountAddr key rt))
  /\ (forall group, txnParams = inr group -> (16 < List.length group)%nat ->
        e = JsError "Maximum size of an atomic transfer group is 16" /\ rt' = rt).
Proof.
  intros Hwf Hp.
  destruct (executeTx_rejected_before_commit ext txnParams args rt rt' e Hwf Hp)
    as [Hrun Hstore].
  destruct (accessors_read_store rt' rt Hstore) as (Hacc & Happ & Hglob & Hloc).
  split; [exact Hrun|].
  split; [|split; [exact Happ|split; [exact Hglob|split; [exact Hloc|]]]].
  - intros address. unfold balance_of. rewrite (Hacc address). reflexivity.
  - intros group -> Hlen. revert Hp.
    unfold Runtime.executeTx_programs, Runtime.createTxnContext.
    destruct (Nat.ltb_spec 16 (List.length group)); [|lia].
    cbn. intros [= <- <-]. auto.
Qed.

Lemma executeTx_program_failure_is_atomic_witness :
  balance_of
    (Datatypes.snd
       (Runtime.executeTx_programs Sample.ext
          (inr [Sample.pay "alice" "bob" 100 None;
                mkExecParams (TransferAlgo "bob" 100) LogicSignature
                  (mkAccount "alice") None (mkTxParams (Some 1000) None)])
          None Sample.runtime))
    "alice"
  = balance_of Sample.runtime "alice".
Proof.
  assert (H : Runtime.executeTx_programs Sample.ext
                (inr [Sample.pay "alice" "bob" 100 None;
                      mkExecParams (TransferAlgo "bob" 100) LogicSignature
                        (mkAccount "alice") None (mkTxParams (Some 1000) None)])
                None Sample.runtime
              = (Err (TealError LOGIC_SIGNATURE_NOT_FOUND),
                 Datatypes.snd
                   (Runtime.executeTx_programs Sample.ext
                      (inr [Sample.pay "alice" "bob" 100 None;
                            mkExecParams (TransferAlgo "bob" 100) LogicSignature
                              (mkAccount "alice") None (mkTxParams (Some 1000) None)])
                      None Sample.runtime)))
    by (apply pair_eta_fst; vm_compute; reflexivity).
  exact (proj1 (proj2 (executeTx_program_failure_is_atomic Sample.ext _ None
                         Sample.runtime _ _
                         ltac:(unfold runtime_wf, Sample.runtime; cbn; lia) H))
           "alice").
Defined.


(** ** The array-based account of algorand-js *)

Lemma find_app_In (appId : Z) (l : list AlgorandJs.AppLocalState) :
  is_Some (find (fun cfg => AlgorandJs.local_id cfg =? appId) l)
  <-> In appId (map AlgorandJs.local_id l).
Proof.
  induction l as [|x l IH]; cbn.
  - split; [intros [? ?]; discriminate|contradiction].
  - destruct (Z.eqb_spec (AlgorandJs.local_id x) appId) as [Heq|Hne].
    + split; [auto|eauto].
    + rewrite IH. split; [auto|intros [?|?]; [contradiction|assumption]].
Qed.

(** [optInToApp] fails exactly when the account has not opted in and
    already holds 10 local states; after a success the account has opted
    in, and a second call changes nothing. *)
Lemma optInToApp_cases (appId : Z) (appParams : AlgorandJs.SSCParams)
    (this this' : AlgorandJs.StoreAccountImpl) (r : Result unit) :
  let ids a := map AlgorandJs.local_id (AlgorandJs.appsLocalState a) in
  (List.length (ids this) <= 10)%nat ->
  NoDup (ids this) ->
  AlgorandJs.optInToApp appId appParams this = (r, this') ->
  (List.length (ids this') <= 10)%nat
  /\ NoDup (ids this')
  /\ (r <> Ok tt <-> ~ In appId (ids this) /\ List.length (ids this) = 10%nat)
  /\ (r <> Ok tt -> this' = this)
  /\ (r = Ok tt ->
      In appId (ids this')
      /\ forall appParams',
           AlgorandJs.optInToApp appId appParams' this' = (Ok tt, this')).
Proof.
  intros ids Hlen Hnd. subst ids. cbv beta in *. unfold AlgorandJs.optInToApp.
  rewrite length_map in Hlen.
  pose proof (find_app_In appId (AlgorandJs.appsLocalState this)) as Hfind.
  destruct (find (fun cfg => AlgorandJs.local_id cfg =? appId)
              (AlgorandJs.appsLocalState this)) as [ls|] eqn:Hf.
  - assert (Hin : In appId (map AlgorandJs.local_id (AlgorandJs.appsLocalState this)))
      by (apply Hfind; eauto).
    intros [= <- <-]. rewrite length_map.
    split; [exact Hlen|]. split; [exact Hnd|]. split; [|split].
    + split; [intros H; congruence|intros [H _]; contradiction].
    + intros H. congruence.
    + intros _. split; [exact Hin|]. intros appParams'. rewrite Hf. reflexivity.
  - assert (Hnin : ~ In appId (map AlgorandJs.local_id (AlgorandJs.appsLocalState this))).
    { intros Hin. apply Hfind in Hin as [? ?]. discriminate. }
    destruct (Nat.eqb_spec (List.length (AlgorandJs.appsLocalState this)) 10)
      as [Hten|Hless].
    + intros [= <- <-]. rewrite length_map.
      split; [exact Hlen|]. split; [exact Hnd|]. split; [|split].
      * split; [auto|discriminate].
      * reflexivity.
      * discriminate.
    + intros [= <- <-]. cbn [AlgorandJs.appsLocalState].
      rewrite !length_map, length_app, map_app.
      cbn [List.length map AlgorandJs.local_id].
      split; [lia|]. split; [|split; [|split]].
      * apply NoDup_app. split; [exact Hnd|]. split.
        -- intros x Hx Hin. apply list_elem_of_singleton in Hin. subst x.
           apply list_elem_of_In in Hx. contradiction.
        -- apply NoDup_singleton.
      * split; [intros H; congruence|intros [_ H]; congruence].
      * intros H. congruence.
      * intros _. split; [apply in_or_app; right; left; reflexivity|].
        intros appParams'. cbn [AlgorandJs.appsLocalState].
        assert (Hsome : is_Some (find (fun cfg => AlgorandJs.local_id cfg =? appId)
                          (AlgorandJs.appsLocalState this
                           ++ [AlgorandJs.mkAppLocalState appId []
                                 (AlgorandJs.local_state_schema appParams)]))).
        { apply find_app_In. rewrite map_app. apply in_or_app. right. left.
          reflexivity. }
        destruct Hsome as [x ->]. reflexivity.
Qed.

(** [createApp] fails exactly when the account already has 10
    applications, and otherwise appends one without looking for the
    identifier among the existing ones. *)
Lemma createApp_cases (appId : Z) (params : AlgorandJs.SSCDeploymentFlags)
    (this this' : AlgorandJs.StoreAccountImpl) (r : Result AlgorandJs.CreatedApp) :
  (List.length (AlgorandJs.createdApps this) <= 10)%nat ->
  AlgorandJs.createApp appId params this = (r, this') ->
  (List.length (AlgorandJs.createdApps this') <= 10)%nat
  /\ ((exists e, r = Err e) <-> List.length (AlgorandJs.createdApps this) = 10%nat)
  /\ ((exists e, r = Err e) -> this' = this)
  /\ (forall app, r = Ok app ->
        AlgorandJs.createdApps this' = AlgorandJs.createdApps this ++ [app]
        /\ AlgorandJs.created_id app = appId
        /\ AlgorandJs.creator (AlgorandJs.created_params app)
           = addr (AlgorandJs.sender params)
        /\ AlgorandJs.global_state (AlgorandJs.created_params app) = []
        /\ AlgorandJs.appsLocalState this' = AlgorandJs.appsLocalState this
        /\ AlgorandJs.amount this' = AlgorandJs.amount this
        /\ ((List.length (AlgorandJs.createdApps this') < 10)%nat ->
            exists app' this'',
              AlgorandJs.createApp appId params this' = (Ok app', this'')
              /\ count_occ Z.eq_dec
                   (map AlgorandJs.created_id (AlgorandJs.createdApps this'')) appId
                 = Datatypes.S (Datatypes.S
                     (count_occ Z.eq_dec
                        (map AlgorandJs.created_id (AlgorandJs.createdApps this))
                        appId)))).
Proof.
  intros Hlen. unfold AlgorandJs.createApp.
  destruct (Nat.eqb_spec (List.length (AlgorandJs.createdApps this)) 10) as [Hten|Hless].
  - intros [= <- <-]. split; [exact Hlen|]. split; [|split].
    + split; [auto|eauto].
    + reflexivity.
    + discriminate.
  - intros [= <- <-]. cbn [AlgorandJs.createdApps AlgorandJs.appsLocalState
                           AlgorandJs.amount].
    rewrite length_app. cbn [List.length].
    split; [lia|]. split; [|split].
    + split; [intros [e He]; discriminate|intros H; contradiction].
    + intros [e He]. discriminate.
    + intros app [= <-]. cbn. repeat split; try reflexivity.
      intros Hroom.
      destruct (Nat.eqb_spec (List.length (AlgorandJs.createdApps this) + 1) 10);
        [lia|].
      eexists _, _. split; [reflexivity|].
      cbn [AlgorandJs.createdApps]. rewrite !map_app, !count_occ_app. cbn.
      destruct (Z.eq_dec appId appId); [lia|contradiction].
Qed.

(** X24. [createApp] and [optInToApp] keep an account within the limits
    of 10 created applications and 10 local states.  [createApp] fails
    exactly when the account already has 10 applications, leaving it as
    it was, and otherwise appends an application with the given
    identifier, the sender as creator, an empty global state and the
    schemas of the flags; it does not look for the identifier among the
    existing applications, so creating an identifier again succeeds.
    [optInToApp] never opts in twice: it fails exactly when the account
    has not opted in and already holds 10 local states, leaving the
    account as it was; after a success the account has opted in, the
    identifiers of its local states are still pairwise distinct, and a
    second call changes nothing. *)
Theorem account_application_limits (appId : Z) (this : AlgorandJs.StoreAccountImpl) :
  let ids a := map AlgorandJs.local_id (AlgorandJs.appsLocalState a) in
  (List.length (AlgorandJs.createdApps this) <= 10)%nat ->
  (List.length (ids this) <= 10)%nat ->
  NoDup (ids this) ->
  (forall params r this',
      AlgorandJs.createApp appId params this = (r, this') ->
      (List.length (AlgorandJs.createdApps this') <= 10)%nat
      /\ ((exists e, r = Err e) <-> List.length (AlgorandJs.createdApps this) = 10%nat)
      /\ ((exists e, r = Err e) -> this' = this)
      /\ (forall app, r = Ok app ->
            AlgorandJs.createdApps this' = AlgorandJs.createdApps this ++ [app]
            /\ AlgorandJs.created_id app = appId
            /\ AlgorandJs.creator (AlgorandJs.created_params app)
               = addr (AlgorandJs.sender params)
            /\ AlgorandJs.global_state (AlgorandJs.created_params app) = []
            /\ AlgorandJs.appsLocalState this' = AlgorandJs.appsLocalState this
            /\ AlgorandJs.amount this' = AlgorandJs.amount this
            /\ ((List.length (AlgorandJs.createdApps this') < 10)%nat ->
                exists app' this'',
                  AlgorandJs.createApp appId params this' = (Ok app', this'')
                  /\ count_occ Z.eq_dec
                       (map AlgorandJs.created_id (AlgorandJs.createdApps this'')) appId
                     = Datatypes.S (Datatypes.S
                         (count_occ Z.eq_dec
                            (map AlgorandJs.created_id (AlgorandJs.createdApps this))
                            appId)))))
  /\ (forall appParams r this',
        AlgorandJs.optInToApp appId appParams this = (r, this') ->
        (List.length (ids this') <= 10)%nat
        /\ NoDup (ids this')
        /\ (r <> Ok tt <-> ~ In appId (ids this) /\ List.length (ids this) = 10%nat)
        /\ (r <> Ok tt -> this' = this)
        /\ (r = Ok tt ->
            In appId (ids this')
            /\ forall appParams',
                 AlgorandJs.optInToApp appId appParams' this' = (Ok tt, this'))).
Proof.
  intros ids Hcreated Hlocal Hnd. split.
  - intros params r this' Hrun. exact (createApp_cases _ _ _ _ _ Hcreated Hrun).
  - intros appParams r this' Hrun.
    exact (optInToApp_cases _ _ _ _ _ Hlocal Hnd Hrun).
Qed.

Lemma account_application_limits_witness :
  (exists e,
     fst (AlgorandJs.createApp 11
            (AlgorandJs.mkSSCDeploymentFlags (mkAccount "alice") 1 1 1 1)
            (AlgorandJs.mkStoreAccountImpl "alice" 100 []
               (map (fun i => AlgorandJs.mkCreatedApp i
                                (AlgorandJs.mkSSCParams EmptyString EmptyString "alice" []
                                   (mkSchema 1 1) (mkSchema 1 1)))
                  [1; 2; 3; 4; 5; 6; 7; 8; 9; 10])))
     = Err e)
  /\ In 11 (map AlgorandJs.local_id
              (AlgorandJs.appsLocalState
                 (Datatypes.snd
                    (AlgorandJs.optInToApp 11
                       (AlgorandJs.mkSSCParams EmptyString EmptyString "alice" []
                          (mkSchema 1 1) (mkSchema 1 1))
                       (AlgorandJs.mkStoreAccountImpl "alice" 100 []
                          (map (fun i => AlgorandJs.mkCreatedApp i
                                           (AlgorandJs.mkSSCParams EmptyString EmptyString
                                              "alice" [] (mkSchema 1 1) (mkSchema 1 1)))
                             [1; 2; 3; 4; 5; 6; 7; 8; 9; 10])))))).
Proof.
  pose proof (account_application_limits 11
                (AlgorandJs.mkStoreAccountImpl "alice" 100 []
                   (map (fun i => AlgorandJs.mkCreatedApp i
                                    (AlgorandJs.mkSSCParams EmptyString EmptyString "alice" []
                                       (mkSchema 1 1) (mkSchema 1 1)))
                      [1; 2; 3; 4; 5; 6; 7; 8; 9; 10]))
                ltac:(cbn; lia) ltac:(cbn; lia) NoDup_nil_2) as [Hc Ho].
  split.
  - exact (proj2 (proj1 (proj2 (Hc _ _ _ (surjective_pairing _)))) eq_refl).
  - refine (proj1 (proj2 (proj2 (proj2 (proj2
              (Ho (AlgorandJs.mkSSCParams EmptyString EmptyString "alice" []
                     (mkSchema 1 1) (mkSchema 1 1))
                  (Ok tt) _ _)))) eq_refl)).
    apply pair_eta_fst. reflexivity.
Defined.


(** ** The balances of the older runtime *)












(** ** Opcodes that read the world state *)

(** The interpreter's accessors answer from the context alone: they
    neither read nor change the state they run in. *)
Lemma interpreter_getAccount_pure (ctx : Context) (accountIndex : Z) :
  exists r : Result StoreAccount,
    forall S (s : S), @InterpreterM.getAccount S ctx accountIndex s = (r, s).
Proof.
  unfold InterpreterM.getAccount, Asserts.assertAccountDefined, Op.checkIndexBound.
  destruct (accountIndex =? 0).
  - destruct (accounts (state ctx) !! snd (tx ctx)); eexists; intros; reflexivity.
  - unfold bind. destruct (apat (tx ctx)) as [l|]; [|eexists; intros; reflexivity].
    destruct (negb _); [eexists; intros; reflexivity|].
    cbn [ret throw].
    destruct (match l !! Z.to_nat (toNumber (accountIndex - 1)) with
              | Some a => accounts (state ctx) !! a
              | None => None
              end); eexists; intros; reflexivity.
Qed.

Lemma interpreter_getGlobalState_pure (ctx : Context) (appId : option Z)
    (key : list byte) :
  exists r : Result (option StackElem),
    forall S (s : S), @InterpreterM.getGlobalState S ctx appId key s = (r, s).
Proof.
  unfold InterpreterM.getGlobalState, StoreAccountM.getGlobalState,
    Asserts.assertAccountDefined, Asserts.assertAppDefined, bind.
  destruct appId as [id|]; [|eexists; intros; reflexivity].
  destruct (globalApps (state ctx) !! id) as [a|]; [|eexists; intros; reflexivity].
  destruct (accounts (state ctx) !! a) as [acc|]; [|eexists; intros; reflexivity].
  cbn [ret throw]. destruct (StoreAccountM.getApp acc id);
    eexists; intros; reflexivity.
Qed.

(** What [app_local_get] and [app_global_get] push once the lookup has
    answered [val], and what the [_ex] opcodes followed by [pop] leave. *)
Lemma get_pushes_value_of_ex (cap : option nat) (rest : list StackElem)
    (x y : StackElem) (val : option StackElem) :
  stack_wf (mkStack cap (x :: y :: rest)) ->
  bind (match val with
        | Some v =>
            if truthy v then StackM.push v ;;; StackM.push (Uint64 1)
            else StackM.push (Uint64 0) ;;; StackM.push (Uint64 0)
        | None => StackM.push (Uint64 0) ;;; StackM.push (Uint64 0)
        end) (fun _ => Pop.execute) (mkStack cap rest)
  = match val with
    | Some v => if truthy v then StackM.push v else StackM.push (Uint64 0)
    | None => StackM.push (Uint64 0)
    end (mkStack cap rest).
Proof.
  intros Hwf.
  assert (Hpair : forall v f,
             bind (StackM.push v ;;; StackM.push f) (fun _ => Pop.execute)
               (mkStack cap rest)
             = StackM.push v (mkStack cap rest)).
  { intros v f. rewrite (bind_Ok _ _ _ _ _ (push_flag_pair cap rest x y x v f Hwf)).
    unfold Pop.execute. run. reflexivity. }
  destruct val as [w|]; [destruct (truthy w)|]; apply Hpair.
Qed.

(** X26. [app_local_get] behaves as [app_local_get_ex] given the id of
    the current application and followed by [pop], and [app_global_get]
    behaves as [app_global_get_ex] at index 0 followed by [pop] when the
    transaction names its application: the same value on the same stack,
    or the same error with the same stack left behind. *)
Theorem get_is_get_ex_then_pop (ctx : Context) (cap : option nat)
    (rest : list StackElem) (key : list byte) :
  (forall appID accountIndex : Z,
      stack_wf (mkStack cap (Bytes key :: Uint64 appID :: Uint64 accountIndex :: rest)) ->
      toNumber appID = default 0 (apid (tx ctx)) ->
      (AppLocalGetEx.execute ctx ;;; Pop.execute)
        (mkStack cap (Bytes key :: Uint64 appID :: Uint64 accountIndex :: rest))
      = AppLocalGet.execute ctx (mkStack cap (Bytes key :: Uint64 accountIndex :: rest)))
  /\ (stack_wf (mkStack cap (Bytes key :: Uint64 0 :: rest)) ->
      is_Some (apid (tx ctx)) ->
      (AppGlobalGetEx.execute ctx ;;; Pop.execute)
        (mkStack cap (Bytes key :: Uint64 0 :: rest))
      = AppGlobalGet.execute ctx (mkStack cap (Bytes key :: rest))).
Proof.
  split.
  - intros appID accountIndex Hwf Hid.
    assert (Hwf2 : stack_wf (mkStack cap (Bytes key :: Uint64 appID :: rest))).
    { unfold stack_wf in *. destruct cap; cbn in *; [lia|trivial]. }
    destruct (interpreter_getAccount_pure ctx accountIndex) as [[account|e] Hr].
    + assert (HEx : AppLocalGetEx.execute ctx
                      (mkStack cap (Bytes key :: Uint64 appID :: Uint64 accountIndex :: rest))
                    = match StoreAccountM.getLocalState account (toNumber appID) key with
                      | Some v =>
                          if truthy v then StackM.push v ;;; StackM.push (Uint64 1)
                          else StackM.push (Uint64 0) ;;; StackM.push (Uint64 0)
                      | None => StackM.push (Uint64 0) ;;; StackM.push (Uint64 0)
                      end (mkStack cap rest)).
      { unfold AppLocalGetEx.execute. run.
        rewrite (bind_Ok _ _ _ _ _ (Hr _ _)). reflexivity. }
      rewrite (bind_run_eq _ _ _ _ _ HEx).
      rewrite (get_pushes_value_of_ex cap rest (Bytes key) (Uint64 appID)) by exact Hwf2.
      unfold AppLocalGet.execute. run.
      rewrite (bind_Ok _ _ _ _ _ (Hr _ _)), Hid. reflexivity.
    + assert (HEx : AppLocalGetEx.execute ctx
                      (mkStack cap (Bytes key :: Uint64 appID :: Uint64 accountIndex :: rest))
                    = (Err e, mkStack cap rest)).
      { unfold AppLocalGetEx.execute. run.
        rewrite (bind_Err _ _ _ _ _ (Hr _ _)). reflexivity. }
      rewrite (bind_Err _ _ _ _ _ HEx).
      unfold AppLocalGet.execute. run.
      rewrite (bind_Err _ _ _ _ _ (Hr _ _)). reflexivity.
  - intros Hwf [id Hid].
    destruct (interpreter_getGlobalState_pure ctx (Some id) key) as [[val|e] Hr].
    + assert (HEx : AppGlobalGetEx.execute ctx (mkStack cap (Bytes key :: Uint64 0 :: rest))
                    = match val with
                      | Some v =>
                          if truthy v then StackM.push v ;;; StackM.push (Uint64 1)
                          else StackM.push (Uint64 0) ;;; StackM.push (Uint64 0)
                      | None => StackM.push (Uint64 0) ;;; StackM.push (Uint64 0)
                      end (mkStack cap rest)).
      { unfold AppGlobalGetEx.execute. run. cbn [Z.eqb bind ret]. rewrite Hid.
        rewrite (bind_Ok _ _ _ _ _ (Hr _ _)). reflexivity. }
      rewrite (bind_run_eq _ _ _ _ _ HEx).
      rewrite (get_pushes_value_of_ex cap rest (Bytes key) (Uint64 0)) by exact Hwf.
      unfold AppGlobalGet.execute. run. rewrite Hid. cbn [default].
      rewrite (bind_Ok _ _ _ _ _ (Hr _ _)). reflexivity.
    + assert (HEx : AppGlobalGetEx.execute ctx (mkStack cap (Bytes key :: Uint64 0 :: rest))
                    = (Err e, mkStack cap rest)).
      { unfold AppGlobalGetEx.execute. run. cbn [Z.eqb bind ret]. rewrite Hid.
        rewrite (bind_Err _ _ _ _ _ (Hr _ _)). reflexivity. }
      rewrite (bind_Err _ _ _ _ _ HEx).
      unfold AppGlobalGet.execute. run. rewrite Hid. cbn [default].
      rewrite (bind_Err _ _ _ _ _ (Hr _ _)). reflexivity.
Qed.

Lemma get_is_get_ex_then_pop_witness :
  (AppLocalGetEx.execute (Sample.context [Sample.clear "alice" 1]) ;;; Pop.execute)
    (mkStack None [Bytes Sample.key_k; Uint64 1; Uint64 0])
  = AppLocalGet.execute (Sample.context [Sample.clear "alice" 1])
      (mkStack None [Bytes Sample.key_k; Uint64 0])
  /\ (AppGlobalGetEx.execute (Sample.context [Sample.clear "alice" 1]) ;;; Pop.execute)
       (mkStack None [Bytes Sample.key_k; Uint64 0])
     = AppGlobalGet.execute (Sample.context [Sample.clear "alice" 1])
         (mkStack None [Bytes Sample.key_k]).
Proof.
  pose proof (get_is_get_ex_then_pop (Sample.context [Sample.clear "alice" 1])
                None [] Sample.key_k) as [H1 H2].
  split.
  - apply (H1 1 0 I eq_refl).
  - apply (H2 I (ex_intro _ 1 eq_refl)).
Defined.

(** X27. [asset_holding_get] pushes the requested field of the holding
    and the flag 1 on top of it when the account has opted into the
    asset, a holding of zero units included; it pushes 0 and the flag 0
    when the account has not opted in, whatever the field is, so that an
    unknown field is reported (INVALID_FIELD_TYPE) only for an account
    that has opted in.  An account that cannot be resolved fails the
    opcode with the error of the lookup, both operands popped. *)
Theorem asset_holding_get_contract (field : string) (ctx : Context)
    (cap : option nat) (rest : list StackElem) (assetId accountIndex : Z) :
  stack_wf (mkStack cap (Uint64 assetId :: Uint64 accountIndex :: rest)) ->
  let run := GetAssetHolding.execute field ctx
               (mkStack cap (Uint64 assetId :: Uint64 accountIndex :: rest)) in
  (forall e, InterpreterM.getAccount ctx accountIndex (mkStack cap rest)
             = (Err e, mkStack cap rest) ->
     run = (Err e, mkStack cap rest))
  /\ (forall account,
        InterpreterM.getAccount ctx accountIndex (mkStack cap rest)
        = (Ok account, mkStack cap rest) ->
        match assets account !! toNumber assetId with
        | None => run = (Ok tt, mkStack cap (Uint64 0 :: Uint64 0 :: rest))
        | Some h =>
            (field = "AssetBalance" ->
               run = (Ok tt, mkStack cap (Uint64 1 :: Uint64 (holding_amount h) :: rest)))
            /\ (field = "AssetFrozen" ->
               run = (Ok tt, mkStack cap (Uint64 1
                                            :: Uint64 (if is_frozen h then 1 else 0)
                                            :: rest)))
            /\ (field <> "AssetBalance" -> field <> "AssetFrozen" ->
               run = (Err (RuntimeError INVALID_FIELD_TYPE), mkStack cap rest))
        end).
Proof.
  intros Hwf run. subst run. split.
  - intros e Hacc. unfold GetAssetHolding.execute. run.
    rewrite (bind_Err _ _ _ _ _ Hacc). reflexivity.
  - intros account Hacc. unfold GetAssetHolding.execute. run.
    rewrite (bind_Ok _ _ _ _ _ Hacc).
    destruct (assets account !! toNumber assetId) as [h|].
    + split; [|split].
      * intros ->. cbn [String.eqb Ascii.eqb Bool.eqb andb bind ret]. run. reflexivity.
      * intros ->. cbn [String.eqb Ascii.eqb Bool.eqb andb bind ret]. run. reflexivity.
      * intros H1 H2.
        destruct (String.eqb_spec field "AssetBalance"); [contradiction|].
        destruct (String.eqb_spec field "AssetFrozen"); [contradiction|].
        reflexivity.
    + run. reflexivity.
Qed.

Lemma asset_holding_get_contract_witness :
  GetAssetHolding.execute "AssetBalance"
    (AssetSample.context [AssetSample.send "carol" "bob" 0 None])
    (mkStack None [Uint64 AssetSample.gold; Uint64 0])
  = (Ok tt, mkStack None [Uint64 1; Uint64 0]).
Proof.
  exact (proj1 (proj2 (asset_holding_get_contract "AssetBalance"
                         (AssetSample.context [AssetSample.send "carol" "bob" 0 None])
                         None [] AssetSample.gold 0 I)
                 AssetSample.carol eq_refl) eq_refl).
Defined.


(** The account that index [accountIndex] selects in a context: index 0
    is the sender of the current transaction, index [i + 1] entry [i]
    of its Accounts array. *)
Lemma interpreter_getAccount_sender {S} (ctx : Context) (a : StoreAccount) (s : S) :
  accounts (state ctx) !! snd (tx ctx) = Some a ->
  InterpreterM.getAccount ctx 0 s = (Ok a, s).
Proof. intros H. unfold InterpreterM.getAccount. cbn [Z.eqb]. rewrite H. reflexivity. Qed.

Lemma interpreter_getAccount_indexed {S} (ctx : Context) (l : list AccountAddress)
    (i : nat) (k : AccountAddress) (a : StoreAccount) (s : S) :
  apat (tx ctx) = Some l -> l !! i = Some k -> Z.of_nat i < 2 ^ 53 ->
  accounts (state ctx) !! k = Some a ->
  InterpreterM.getAccount ctx (Z.of_nat i + 1) s = (Ok a, s).
Proof.
  intros Hl Hi Hsafe Ha. unfold InterpreterM.getAccount.
  destruct (Z.eqb_spec (Z.of_nat i + 1) 0); [lia|].
  replace (Z.of_nat i + 1 - 1) with (Z.of_nat i) by lia.
  rewrite toNumber_safe by lia. rewrite Hl.
  pose proof (lookup_lt_Some _ _ _ Hi) as Hlt.
  rewrite (bind_Ok _ _ _ _ _ (checkIndexBound_ok (Z.of_nat i) l s ltac:(lia))).
  rewrite Nat2Z.id, Hi, Ha. reflexivity.
Qed.

(** X28. [balance] and [min_balance] read the account that the index on
    top of the stack selects, index 0 being the sender of the current
    transaction and index [i + 1] entry [i] of its Accounts array, and
    replace the index by the balance and by the minimum balance of that
    account.  Once [deductFee] has taken the fee of the sender, the
    balance that index 0 reads is at least the minimum balance that it
    reads. *)
Theorem balance_reads_indexed_account (ctx : Context) (cap : option nat)
    (rest : list StackElem) :
  has_room cap rest ->
  (forall a, accounts (state ctx) !! snd (tx ctx) = Some a ->
     Balance.execute ctx (mkStack cap (Uint64 0 :: rest))
     = (Ok tt, mkStack cap (Uint64 (amount a) :: rest))
     /\ MinBalance.execute ctx (mkStack cap (Uint64 0 :: rest))
        = (Ok tt, mkStack cap (Uint64 (minBalance a) :: rest)))
  /\ (forall l i k a,
        apat (tx ctx) = Some l -> l !! i = Some k -> Z.of_nat i < 2 ^ 53 ->
        accounts (state ctx) !! k = Some a ->
        Balance.execute ctx (mkStack cap (Uint64 (Z.of_nat i + 1) :: rest))
        = (Ok tt, mkStack cap (Uint64 (amount a) :: rest))
        /\ MinBalance.execute ctx (mkStack cap (Uint64 (Z.of_nat i + 1) :: rest))
           = (Ok tt, mkStack cap (Uint64 (minBalance a) :: rest)))
  /\ (forall idx before,
        Ctx.deductFee (snd (tx ctx)) idx before = (Ok tt, ctx) ->
        exists b m,
          Balance.execute ctx (mkStack cap (Uint64 0 :: rest))
          = (Ok tt, mkStack cap (Uint64 b :: rest))
          /\ MinBalance.execute ctx (mkStack cap (Uint64 0 :: rest))
             = (Ok tt, mkStack cap (Uint64 m :: rest))
          /\ m <= b).
Proof.
  intros Hroom.
  assert (Hread : forall accountIndex a,
             (forall s : Stack, InterpreterM.getAccount ctx accountIndex s = (Ok a, s)) ->
             Balance.execute ctx (mkStack cap (Uint64 accountIndex :: rest))
             = (Ok tt, mkStack cap (Uint64 (amount a) :: rest))
             /\ MinBalance.execute ctx (mkStack cap (Uint64 accountIndex :: rest))
                = (Ok tt, mkStack cap (Uint64 (minBalance a) :: rest))).
  { intros accountIndex a Hacc. unfold Balance.execute, MinBalance.execute. run.
    rewrite !(bind_Ok _ _ _ _ _ (Hacc _)). run. split; reflexivity. }
  split; [|split].
  - intros a Ha. apply Hread. intros s. now apply interpreter_getAccount_sender.
  - intros l i k a Hl Hi Hsafe Ha. apply Hread. intros s.
    now apply (interpreter_getAccount_indexed ctx l i k).
  - intros idx before Hfee. rewrite deductFee_eq in Hfee.
    destruct (accounts (state before) !! snd (tx ctx)) as [acc|] eqn:Hacc;
      [|discriminate].
    destruct (gtxs before !! idx) as [txn|]; [|discriminate].
    destruct (Z.ltb_spec (num_sub (amount acc) (fee txn)) (minBalance acc)) as [Hlt|Hge];
      [discriminate|].
    injection Hfee as Hctx.
    pose proof (lookup_put_account before (snd (tx ctx)) (snd (tx ctx))
                  (set_amount (num_sub (amount acc) (fee txn)) acc)) as Ha.
    rewrite Hctx in Ha. rewrite decide_True in Ha by reflexivity.
    exists (num_sub (amount acc) (fee txn)), (minBalance acc).
    destruct (Hread 0 _ (fun s => interpreter_getAccount_sender ctx _ s Ha)) as [Hb Hm].
    split; [exact Hb|]. split; [exact Hm|]. exact Hge.
Qed.

Lemma balance_reads_indexed_account_witness :
  Balance.execute (Sample.context Sample.pay_group) (mkStack None [Uint64 0])
  = (Ok tt, mkStack None [Uint64 20000])
  /\ MinBalance.execute (Sample.context Sample.pay_group) (mkStack None [Uint64 0])
     = (Ok tt, mkStack None [Uint64 10000]).
Proof.
  exact (proj1 (balance_reads_indexed_account (Sample.context Sample.pay_group)
                  None [] I) Sample.alice eq_refl).
Defined.

(** ** Groups of payments *)






(** ** Building a runtime *)

Lemma on_store_bind {A B} (c : M State A) (k : A -> M State B) (rt : Runtime) :
  runtime_wf rt ->
  bind (on_store c) (fun a => on_store (k a)) rt = on_store (bind c k) rt.
Proof.
  intros Hwf. unfold bind, on_store.
  destruct (c (store_state rt)) as [[a|e] s1] eqn:Hc; [|reflexivity].
  unfold store_state, deref, runtime_wf in *. cbn [heap store set_heap].
  rewrite list_lookup_insert_eq by assumption. cbn [default from_option id].
  destruct (k a s1) as [r s2]. unfold set_heap. cbn [heap store ctx appCounter programMap].
  rewrite list_insert_insert_eq. reflexivity.
Qed.

Lemma on_store_wf {A} (c : M State A) (rt : Runtime) :
  runtime_wf rt -> runtime_wf (Datatypes.snd (on_store c rt)).
Proof.
  unfold runtime_wf, on_store. destruct (c (store_state rt)) as [r s].
  cbn. now rewrite length_insert.
Qed.

Lemma for_of_on_store {A} (f : A -> M State unit) (l : list A) :
  forall rt, runtime_wf rt ->
    for_of (fun x => on_store (f x)) l rt = on_store (for_of f l) rt.
Proof.
  induction l as [|x l IH]; intros rt Hwf.
  - cbn [for_of]. unfold on_store, ret, set_heap, store_state, deref, runtime_wf in *.
    destruct (lookup_lt_is_Some_2 (heap rt) (store rt) Hwf) as [s Hs].
    rewrite Hs. cbn [default from_option id]. rewrite list_insert_id by assumption.
    destruct rt; reflexivity.
  - cbn [for_of]. rewrite <- on_store_bind by assumption.
    unfold bind. pose proof (on_store_wf (f x) rt Hwf) as Hwf1.
    destruct (on_store (f x) rt) as [[[]|e] rt1]; [|reflexivity].
    apply IH, Hwf1.
Qed.

Lemma bind_ext {S A B} (c : M S A) (k k' : A -> M S B) (s : S) :
  (forall a s', k a s' = k' a s') -> bind c k s = bind c k' s.
Proof. intros H. unfold bind. destruct (c s) as [[a|e] s']; [apply H|reflexivity]. Qed.

Lemma for_of_app {S A} (f : A -> M S unit) (l1 l2 : list A) (s : S) :
  for_of f (l1 ++ l2) s = (for_of f l1 ;;; for_of f l2) s.
Proof.
  revert s. induction l1 as [|x l1 IH]; intros s; [reflexivity|].
  cbn [app for_of]. rewrite bind_assoc. apply bind_ext. intros _ s'. apply IH.
Qed.

Lemma elem_of_keys {V} (m : gmap Z V) (k : Z) :
  k ∈ NewRuntime.keys m <-> is_Some (m !! k).
Proof.
  unfold NewRuntime.keys. rewrite list_elem_of_fmap. split.
  - intros ([j v] & -> & Hin). apply elem_of_map_to_list in Hin. eauto.
  - intros [v Hv]. exists (k, v). split; [reflexivity|].
    now apply elem_of_map_to_list.
Qed.

(** A loop of [set] calls on the registry of applications, and on the
    registry of assets. *)
Lemma register_apps (v : AccountAddress) (l : list Z) (s : State) :
  exists s',
    for_of (fun appId =>
              modify (fun s => set_globalApps (<[appId := v]> (globalApps s)) s)) l s
    = (Ok tt, s')
    /\ accounts s' = accounts s /\ assetDefs s' = assetDefs s
    /\ (forall j, globalApps s' !! j
                  = if decide (j ∈ l) then Some v else globalApps s !! j).
Proof.
  revert s. induction l as [|k l IH]; intros s.
  - exists s. cbn [for_of ret].
    split; [reflexivity|]. split; [reflexivity|]. split; [reflexivity|].
    intros j. rewrite decide_False; [reflexivity|]. apply not_elem_of_nil.
  - cbn [for_of]. unfold bind, modify.
    destruct (IH (set_globalApps (<[k := v]> (globalApps s)) s))
      as (s' & Hrun & Ha & Hd & Hg).
    exists s'. split; [exact Hrun|]. split; [exact Ha|]. split; [exact Hd|].
    intros j. rewrite Hg. cbn [globalApps set_globalApps].
    destruct (decide (j ∈ l)) as [Hin|Hnin].
    + rewrite decide_True; [reflexivity|]. now apply elem_of_cons; right.
    + destruct (decide (j = k)) as [->|Hne].
      * rewrite lookup_insert_eq. rewrite decide_True; [reflexivity|].
        apply elem_of_cons; now left.
      * rewrite lookup_insert_ne by congruence.
        rewrite decide_False; [reflexivity|].
        intros [?|?]%elem_of_cons; contradiction.
Qed.

Lemma register_assets (v : AccountAddress) (l : list Z) (s : State) :
  exists s',
    for_of (fun assetId =>
              modify (fun s =>
                mkState (accounts s) (globalApps s) (<[assetId := v]> (assetDefs s)))) l s
    = (Ok tt, s')
    /\ accounts s' = accounts s /\ globalApps s' = globalApps s
    /\ (forall j, assetDefs s' !! j
                  = if decide (j ∈ l) then Some v else assetDefs s !! j).
Proof.
  revert s. induction l as [|k l IH]; intros s.
  - exists s. cbn [for_of ret].
    split; [reflexivity|]. split; [reflexivity|]. split; [reflexivity|].
    intros j. rewrite decide_False; [reflexivity|]. apply not_elem_of_nil.
  - cbn [for_of]. unfold bind, modify.
    destruct (IH (mkState (accounts s) (globalApps s) (<[k := v]> (assetDefs s))))
      as (s' & Hrun & Ha & Hd & Hg).
    exists s'. split; [exact Hrun|]. split; [exact Ha|]. split; [exact Hd|].
    intros j. rewrite Hg. cbn [assetDefs].
    destruct (decide (j ∈ l)) as [Hin|Hnin].
    + rewrite decide_True; [reflexivity|]. now apply elem_of_cons; right.
    + destruct (decide (j = k)) as [->|Hne].
      * rewrite lookup_insert_eq. rewrite decide_True; [reflexivity|].
        apply elem_of_cons; now left.
      * rewrite lookup_insert_ne by congruence.
        rewrite decide_False; [reflexivity|].
        intros [?|?]%elem_of_cons; contradiction.
Qed.

Lemma register_spec (acc : StoreAccount) (s : State) :
  exists s',
    NewRuntime.register acc s = (Ok tt, s')
    /\ accounts s' = <[address acc := acc]> (accounts s)
    /\ (forall j, globalApps s' !! j
                  = match createdApps acc !! j with
                    | Some _ => Some (address acc)
                    | None => globalApps s !! j
                    end)
    /\ (forall j, assetDefs s' !! j
                  = match createdAssets acc !! j with
                    | Some _ => Some (address acc)
                    | None => assetDefs s !! j
                    end).
Proof.
  unfold NewRuntime.register. unfold bind at 1. unfold modify at 1.
  set (s1 := set_accounts (<[address acc := acc]> (accounts s)) s).
  destruct (register_apps (address acc) (NewRuntime.keys (createdApps acc)) s1)
    as (s2 & Hrun2 & Ha2 & Hd2 & Hg2).
  destruct (register_assets (address acc) (NewRuntime.keys (createdAssets acc)) s2)
    as (s3 & Hrun3 & Ha3 & Hg3 & Hd3).
  exists s3. rewrite (bind_Ok _ _ _ _ _ Hrun2). split; [exact Hrun3|].
  split; [rewrite Ha3, Ha2; reflexivity|]. split.
  - intros j. rewrite Hg3, Hg2.
    destruct (decide (j ∈ NewRuntime.keys (createdApps acc))) as [Hin|Hnin].
    + apply elem_of_keys in Hin as [v ->]. reflexivity.
    + destruct (createdApps acc !! j) eqn:Hj; [|reflexivity].
      exfalso. apply Hnin, elem_of_keys. eauto.
  - intros j. rewrite Hd3, Hd2.
    destruct (decide (j ∈ NewRuntime.keys (createdAssets acc))) as [Hin|Hnin].
    + apply elem_of_keys in Hin as [v ->]. reflexivity.
    + destruct (createdAssets acc !! j) eqn:Hj; [|reflexivity].
      exfalso. apply Hnin, elem_of_keys. eauto.
Qed.

(** The store after the loop of [initializeAccounts] over [accs],
    started on a store without accounts. *)
Lemma registered_spec (accs : list StoreAccount) :
  exists s,
    for_of NewRuntime.register accs empty_State = (Ok tt, s)
    /\ (forall k a, accounts s !! k = Some a -> In a accs /\ address a = k)
    /\ (NoDup (map address accs) ->
        forall a, In a accs -> accounts s !! address a = Some a)
    /\ (forall id v, globalApps s !! id = Some v ->
          exists b, In b accs /\ address b = v /\ is_Some (createdApps b !! id))
    /\ (forall id a, In a accs -> is_Some (createdApps a !! id) ->
          is_Some (globalApps s !! id))
    /\ (forall id v, assetDefs s !! id = Some v ->
          exists b, In b accs /\ address b = v /\ is_Some (createdAssets b !! id))
    /\ (forall id a, In a accs -> is_Some (createdAssets a !! id) ->
          is_Some (assetDefs s !! id)).
Proof.
  induction accs as [|x l IH] using rev_ind.
  - exists empty_State. cbn [for_of ret]. split; [reflexivity|].
    unfold empty_State. cbn [accounts globalApps assetDefs].
    split; [intros k a; rewrite lookup_empty; discriminate|].
    split; [intros _ a []|].
    split; [intros id v; rewrite lookup_empty; discriminate|].
    split; [intros id a []|].
    split; [intros id v; rewrite lookup_empty; discriminate|].
    intros id a [].
  - destruct IH as (s & Hrun & HA & HA' & HB & HB' & HD & HD').
    destruct (register_spec x s) as (s' & Hreg & Hacc & Hg & Hd).
    exists s'. split.
    { rewrite for_of_app, (bind_Ok _ _ _ _ _ Hrun). cbn [for_of].
      rewrite (bind_Ok _ _ _ _ _ Hreg). reflexivity. }
    split; [|split; [|split; [|split; [|split]]]].
    + intros k a. rewrite Hacc. destruct (decide (address x = k)) as [<-|Hne].
      * rewrite lookup_insert_eq. intros [= <-]. split; [|reflexivity].
        apply in_app_iff. right. now left.
      * rewrite lookup_insert_ne by assumption. intros Hk.
        destruct (HA k a Hk) as [Hin Hk']. split; [|exact Hk'].
        apply in_app_iff. now left.
    + rewrite map_app. intros Hnd a Hin. rewrite Hacc.
      apply NoDup_app in Hnd as (Hnd & Hdisj & _).
      apply in_app_iff in Hin as [Hin|[<-|[]]].
      * rewrite lookup_insert_ne; [now apply HA'|].
        intros Heq. apply (Hdisj (address a)).
        -- apply list_elem_of_In, in_map, Hin.
        -- rewrite <- Heq. cbn. apply list_elem_of_singleton. reflexivity.
      * apply lookup_insert_eq.
    + intros id v. rewrite Hg. destruct (createdApps x !! id) as [app|] eqn:Happ.
      * intros [= <-]. exists x. split; [apply in_app_iff; right; now left|].
        split; [reflexivity|]. rewrite Happ. eauto.
      * intros Hv. destruct (HB id v Hv) as (b & Hin & Hb & Hc).
        exists b. split; [apply in_app_iff; now left|]. auto.
    + intros id a Hin Hc. rewrite Hg.
      destruct (createdApps x !! id) as [app|] eqn:Happ; [eauto|].
      apply in_app_iff in Hin as [Hin|[<-|[]]].
      * apply (HB' id a Hin Hc).
      * rewrite Happ in Hc. destruct Hc as [? [=]].
    + intros id v. rewrite Hd. destruct (createdAssets x !! id) as [def|] eqn:Hdef.
      * intros [= <-]. exists x. split; [apply in_app_iff; right; now left|].
        split; [reflexivity|]. rewrite Hdef. eauto.
      * intros Hv. destruct (HD id v Hv) as (b & Hin & Hb & Hc).
        exists b. split; [apply in_app_iff; now left|]. auto.
    + intros id a Hin Hc. rewrite Hd.
      destruct (createdAssets x !! id) as [def|] eqn:Hdef; [eauto|].
      apply in_app_iff in Hin as [Hin|[<-|[]]].
      * apply (HD' id a Hin Hc).
      * rewrite Hdef in Hc. destruct Hc as [? [=]].
Qed.

Lemma bind_ext_run {S A B} (c : M S A) (k k' : A -> M S B) (s : S) :
  (forall a s', c s = (Ok a, s') -> k a s' = k' a s') -> bind c k s = bind c k' s.
Proof. intros H. unfold bind. destruct (c s) as [[a|e] s']; auto. Qed.

Lemma on_store_wf_run {A} (c : M State A) (rt rt' : Runtime) (r : Result A) :
  runtime_wf rt -> on_store c rt = (r, rt') -> runtime_wf rt'.
Proof. intros Hwf H. pose proof (on_store_wf c rt Hwf) as H'. now rewrite H in H'. Qed.

Lemma initializeAccounts_on_store (accs : list StoreAccount) :
  forall rt, runtime_wf rt ->
    NewRuntime.initializeAccounts accs rt
    = on_store (for_of NewRuntime.register accs) rt.
Proof.
  unfold NewRuntime.initializeAccounts.
  induction accs as [|acc accs IH]; intros rt Hwf.
  - apply (for_of_on_store (fun _ : unit => ret tt) [] rt Hwf).
  - cbn [for_of]. rewrite <- on_store_bind by assumption.
    transitivity (bind (on_store (NewRuntime.register acc))
                    (fun _ => for_of
                       (fun acc =>
                          on_store (modify (fun s =>
                            set_accounts (<[address acc := acc]> (accounts s)) s)) ;;;
                          for_of (fun appId =>
                                    on_store (modify (fun s =>
                                      set_globalApps
                                        (<[appId := address acc]> (globalApps s)) s)))
                            (NewRuntime.keys (createdApps acc)) ;;;
                          for_of (fun assetId =>
                                    on_store (modify (fun s =>
                                      mkState (accounts s) (globalApps s)
                                        (<[assetId := address acc]> (assetDefs s)))))
                            (NewRuntime.keys (createdAssets acc))) accs) rt).
    + apply bind_run_eq. unfold NewRuntime.register.
      rewrite <- on_store_bind by assumption.
      apply bind_ext_run. intros [] rt1 H1.
      pose proof (on_store_wf_run _ _ _ _ Hwf H1) as Hwf1.
      rewrite <- on_store_bind by assumption.
      rewrite (bind_run_eq _ _ _ _ _ (for_of_on_store _ _ rt1 Hwf1)).
      apply bind_ext_run. intros [] rt2 H2.
      pose proof (on_store_wf_run _ _ _ _ Hwf1 H2) as Hwf2.
      apply for_of_on_store, Hwf2.
    + apply bind_ext_run. intros [] rt1 H1.
      apply IH. apply (on_store_wf_run _ _ _ _ Hwf H1).
Qed.

(** The runtime that the constructor builds: the store and a copy of it
    for the context. *)
Lemma new_runtime_eq (accs : list StoreAccount) (s : State) :
  for_of NewRuntime.register accs empty_State = (Ok tt, s) ->
  NewRuntime.new accs
  = mkRuntime [s; s] 0 (mkRuntimeContext 1 empty_Txn [] []) 0 ∅.
Proof.
  intros Hs. unfold NewRuntime.new, NewRuntime.constructor.
  assert (Hwf : runtime_wf NewRuntime.allocated)
    by (unfold runtime_wf, NewRuntime.allocated; cbn; lia).
  unfold bind at 1. rewrite initializeAccounts_on_store by exact Hwf.
  unfold on_store at 1. unfold store_state, deref. cbn [NewRuntime.allocated heap store].
  cbn [lookup list_lookup default from_option id]. rewrite Hs. reflexivity.
Qed.

(** X30. [new Runtime(accounts)] over accounts with pairwise distinct
    addresses: the store and the state of the context are two objects
    with the same contents; [getAccount] finds each given account under
    its address and fails with ACCOUNT_DOES_NOT_EXIST for any other
    address; [getApp] finds an application for every identifier that
    one of the accounts has created, and fails with APP_NOT_FOUND for
    any other identifier; every asset that one of the accounts has
    created is registered to an account that has created it. *)
Theorem new_runtime_registers (accs : list StoreAccount) :
  NoDup (map address accs) ->
  let rt := NewRuntime.new accs in
  runtime_wf rt
  /\ ctx_state (ctx rt) <> store rt
  /\ deref rt (ctx_state (ctx rt)) = store_state rt
  /\ (forall a, In a accs -> Runtime.getAccount (address a) rt = (Ok a, rt))
  /\ (forall k, ~ In k (map address accs) ->
        Runtime.getAccount k rt = (Err (TealError ACCOUNT_DOES_NOT_EXIST), rt))
  /\ (forall appId a, In a accs -> is_Some (createdApps a !! appId) ->
        exists b app, In b accs /\ createdApps b !! appId = Some app
                      /\ Runtime.getApp appId rt = (Ok app, rt))
  /\ (forall appId, (forall a, In a accs -> createdApps a !! appId = None) ->
        Runtime.getApp appId rt = (Err (TealError APP_NOT_FOUND), rt))
  /\ (forall assetId a, In a accs -> is_Some (createdAssets a !! assetId) ->
        exists b, In b accs /\ is_Some (createdAssets b !! assetId)
                  /\ assetDefs (store_state rt) !! assetId = Some (address b)).
Proof.
  intros Hnd rt. subst rt.
  destruct (registered_spec accs) as (s & Hrun & HA & HA' & HB & HB' & HD & HD').
  rewrite (new_runtime_eq accs s Hrun).
  set (rt := mkRuntime [s; s] 0 (mkRuntimeContext 1 empty_Txn [] []) 0 ∅).
  assert (Hstore : store_state rt = s) by reflexivity.
  split; [unfold runtime_wf; cbn; lia|]. split; [cbn; lia|]. split; [reflexivity|].
  split; [|split; [|split; [|split]]].
  - intros a Hin. unfold Runtime.getAccount, bind, gets. rewrite Hstore.
    rewrite (HA' Hnd a Hin). reflexivity.
  - intros k Hk. unfold Runtime.getAccount, bind, gets. rewrite Hstore.
    destruct (accounts s !! k) as [a|] eqn:Ha; [|reflexivity].
    exfalso. destruct (HA k a Ha) as [Hin <-]. apply Hk, in_map, Hin.
  - intros appId a Hin Hc.
    destruct (HB' appId a Hin Hc) as [v Hv].
    destruct (HB appId v Hv) as (b & Hb & <- & [app Happ]).
    exists b, app. split; [exact Hb|]. split; [exact Happ|].
    unfold Runtime.getApp, bind, gets. rewrite Hstore, Hv.
    cbn [Asserts.assertAddressDefined ret]. rewrite Hstore, (HA' Hnd b Hb).
    cbn [Asserts.assertAccountDefined ret]. unfold StoreAccountM.getApp.
    rewrite Happ. reflexivity.
  - intros appId Hnone. unfold Runtime.getApp, bind, gets. rewrite Hstore.
    destruct (globalApps s !! appId) as [v|] eqn:Hv; [|reflexivity].
    exfalso. destruct (HB appId v Hv) as (b & Hb & _ & [app Happ]).
    rewrite (Hnone b Hb) in Happ. discriminate.
  - intros assetId a Hin Hc. rewrite Hstore.
    destruct (HD' assetId a Hin Hc) as [v Hv].
    destruct (HD assetId v Hv) as (b & Hb & <- & Hdef).
    exists b. auto.
Qed.

Lemma new_runtime_registers_witness :
  Runtime.getAccount "alice" (NewRuntime.new [Sample.alice; Sample.bob; Sample.carol])
  = (Ok Sample.alice, NewRuntime.new [Sample.alice; Sample.bob; Sample.carol]).
Proof.
  assert (Hnd : NoDup (map address [Sample.alice; Sample.bob; Sample.carol])).
  { cbn. repeat constructor; rewrite ?list_elem_of_In; cbn; intuition discriminate. }
  exact (proj1 (proj2 (proj2 (proj2 (new_runtime_registers _ Hnd))))
           Sample.alice (or_introl eq_refl)).
Defined.
